(** * threejs-starter-pro: the view and animation life cycle

    A shallow embedding of [src/main.js] (class [App]),
    [src/scenes/BasicScene.js] and [src/scenes/EnhancedScene.js].

    JavaScript numbers are IEEE 754 binary64 values: they are modelled by
    Rocq's primitive floats, so [x += 0.005] is [PrimFloat.add x 0.005].
    Objects live in stores keyed by an identity; a closure handed to the
    browser ([requestAnimationFrame], [addEventListener], [setTimeout]) is
    a first-order value naming the method it calls and its [this].
    A method is a computation over the page state that either completes
    normally or throws. *)

From Stdlib Require Import PrimFloat Uint63.
From stdpp Require Import gmap strings list.

Set Warnings "-inexact-float,-register-all".
Local Open Scope string_scope.
Local Open Scope list_scope.

(** ** The graphics library's objects, as far as the program touches them *)

Module THREE.

Record Vector3 := vec3 { x : float; y : float; z : float }.

Definition origin : Vector3 := vec3 0 0 0.
Definition ones : Vector3 := vec3 1 1 1.

(** [new THREE.Color(0x6366f1)] or [new THREE.Color("#ff0000")]. *)
Inductive Color :=
| ColorHex (rgb : N)
| ColorCss (value : string).

Inductive GeometryKind :=
| BoxGeometry (width height depth : float)
| EdgesGeometry (source : nat)
| BufferGeometry (points : nat).

Record Geometry := { gid : nat; gkind : GeometryKind }.

Inductive MaterialKind :=
| MeshLambertMaterial
| MeshPhysicalMaterial (metalness roughness clearcoat clearcoatRoughness envMapIntensity : float)
| LineBasicMaterial
| PointsMaterial (size : float) (vertexColors : bool).

Record Material := {
  mid : nat;
  mkind : MaterialKind;
  color : option Color;
  transparent : bool;
  opacity : float }.

(** [object.material] is absent, one material, or an array of materials. *)
Inductive MaterialSlot :=
| NoMaterial
| OneMaterial (m : Material)
| MaterialArray (ms : list Material).

Inductive ObjectKind :=
| Scene (background : Color)
| Mesh
| LineSegments
| Points
| AmbientLight (c : Color)
| DirectionalLight (c : Color) (mapWidth mapHeight : float)
| PointLight (c : Color) (distance : float).

(** The mutable properties of an [Object3D]. *)
Record Props := {
  kind : ObjectKind;
  geometry : option Geometry;
  material : MaterialSlot;
  position : Vector3;
  rotation : Vector3;
  scale : Vector3;
  visible : bool;
  castShadow : bool;
  receiveShadow : bool;
  intensity : option float }.

(** A scene graph: every object carries its [id] and owns its children. *)
Inductive Object3D :=
| Node (id : nat) (props : Props) (children : list Object3D).

Definition id_of (o : Object3D) : nat := let 'Node i _ _ := o in i.
Definition props_of (o : Object3D) : Props := let 'Node _ p _ := o in p.
Definition children_of (o : Object3D) : list Object3D := let 'Node _ _ c := o in c.

Definition set_position v p :=
  Build_Props (kind p) (geometry p) (material p) v (rotation p) (scale p)
    (visible p) (castShadow p) (receiveShadow p) (intensity p).
Definition set_rotation v p :=
  Build_Props (kind p) (geometry p) (material p) (position p) v (scale p)
    (visible p) (castShadow p) (receiveShadow p) (intensity p).
Definition set_scale v p :=
  Build_Props (kind p) (geometry p) (material p) (position p) (rotation p) v
    (visible p) (castShadow p) (receiveShadow p) (intensity p).
Definition set_visible b p :=
  Build_Props (kind p) (geometry p) (material p) (position p) (rotation p) (scale p)
    b (castShadow p) (receiveShadow p) (intensity p).
Definition set_intensity i p :=
  Build_Props (kind p) (geometry p) (material p) (position p) (rotation p) (scale p)
    (visible p) (castShadow p) (receiveShadow p) (Some i).
Definition set_material m p :=
  Build_Props (kind p) (geometry p) m (position p) (rotation p) (scale p)
    (visible p) (castShadow p) (receiveShadow p) (intensity p).

Definition set_color (c : Color) (m : Material) : Material :=
  Build_Material (mid m) (mkind m) (Some c) (transparent m) (opacity m).

(** A freshly constructed object: at the origin, unrotated, unit scale,
    visible, casting and receiving no shadow. *)
Definition new_object (k : ObjectKind) (g : option Geometry) (m : MaterialSlot)
    (li : option float) : Props :=
  Build_Props k g m origin origin ones true false false li.

Definition with_shadows (cast receive : bool) p :=
  Build_Props (kind p) (geometry p) (material p) (position p) (rotation p) (scale p)
    (visible p) cast receive (intensity p).

(** [parent.add(child)] on the node [parent] itself. *)
Definition add_child (child : Object3D) (parent : Object3D) : Object3D :=
  let 'Node i p cs := parent in Node i p (cs ++ [child]).

(** The object with identity [i] in the graph under [o], in the order
    [traverse] visits them. *)
Fixpoint find (i : nat) (o : Object3D) : option Object3D :=
  let 'Node j _ cs := o in
  if Nat.eqb j i then Some o
  else (fix find_in (l : list Object3D) : option Object3D :=
          match l with
          | [] => None
          | c :: l' => match find i c with Some r => Some r | None => find_in l' end
          end) cs.

(** A write to a property of the object with identity [i]. *)
Fixpoint update (i : nat) (f : Props -> Props) (o : Object3D) : Object3D :=
  let 'Node j p cs := o in
  Node j (if Nat.eqb j i then f p else p) (map (update i f) cs).

(** [parent.add(child)] for the object [parent] of the graph under [o]. *)
Fixpoint add_to (parent : nat) (child : Object3D) (o : Object3D) : Object3D :=
  let 'Node j p cs := o in
  if Nat.eqb j parent then Node j p (cs ++ [child])
  else Node j p (map (add_to parent child) cs).

(** [Object3D.traverse]: the callback sees the object, then each child's
    subtree in order. The list is the order of the visits. *)
Fixpoint traverse (o : Object3D) : list Object3D :=
  let 'Node _ _ cs := o in o :: flat_map traverse cs.

Record PerspectiveCamera := {
  fov : float;
  aspect : float;
  near : float;
  far : float;
  cam_position : Vector3 }.

Definition set_aspect a c :=
  Build_PerspectiveCamera (fov c) a (near c) (far c) (cam_position c).
Definition set_cam_position v c :=
  Build_PerspectiveCamera (fov c) (aspect c) (near c) (far c) v.

Inductive ShadowMapType := BasicShadowMap | PCFShadowMap | PCFSoftShadowMap.
Inductive ToneMapping := NoToneMapping | ACESFilmicToneMapping.

Record WebGLRenderer := {
  rid : nat;
  width : float;
  height : float;
  shadowMapEnabled : bool;
  shadowMapType : ShadowMapType;
  toneMapping : ToneMapping;
  toneMappingExposure : float }.

(** [new THREE.WebGLRenderer({ antialias: true })]. *)
Definition new_renderer (i : nat) : WebGLRenderer :=
  Build_WebGLRenderer i 300 150 false PCFShadowMap NoToneMapping 1.

Definition setSize (w h : float) r :=
  Build_WebGLRenderer (rid r) w h (shadowMapEnabled r) (shadowMapType r)
    (toneMapping r) (toneMappingExposure r).
Definition set_shadowMap (e : bool) (t : ShadowMapType) r :=
  Build_WebGLRenderer (rid r) (width r) (height r) e t
    (toneMapping r) (toneMappingExposure r).
Definition set_toneMapping (t : ToneMapping) (e : float) r :=
  Build_WebGLRenderer (rid r) (width r) (height r) (shadowMapEnabled r)
    (shadowMapType r) t e.

Record OrbitControls := {
  cid : nat;
  enabled : bool;
  enableDamping : bool;
  dampingFactor : float;
  enableZoom : bool;
  enablePan : bool;
  enableRotate : bool;
  maxDistance : float;
  minDistance : float;
  maxPolarAngle : float;
  target : Vector3 }.

(** Calls into the library whose effect stays inside the library. *)
Inductive Call :=
| render (renderer scene : nat)
| renderer_dispose (renderer : nat)
| geometry_dispose (geometry : nat)
| material_dispose (material : nat)
| updateProjectionMatrix
| controls_update (controls : nat)
| controls_dispose (controls : nat).

End THREE.

(** ** The fields of the three classes *)

Module Basic.

Record Fields := {
  scene : option THREE.Object3D;
  camera : option THREE.PerspectiveCamera;
  renderer : option THREE.WebGLRenderer;
  cube : option nat;
  animationId : option nat;
  isAnimating : bool }.

(** The state the constructor leaves. *)
Definition fresh : Fields := Build_Fields None None None None None false.

Definition set_scene v o :=
  Build_Fields v (camera o) (renderer o) (cube o) (animationId o) (isAnimating o).
Definition set_camera v o :=
  Build_Fields (scene o) v (renderer o) (cube o) (animationId o) (isAnimating o).
Definition set_renderer v o :=
  Build_Fields (scene o) (camera o) v (cube o) (animationId o) (isAnimating o).
Definition set_cube v o :=
  Build_Fields (scene o) (camera o) (renderer o) v (animationId o) (isAnimating o).
Definition set_animationId v o :=
  Build_Fields (scene o) (camera o) (renderer o) (cube o) v (isAnimating o).
Definition set_isAnimating v o :=
  Build_Fields (scene o) (camera o) (renderer o) (cube o) (animationId o) v.

End Basic.

Module Enhanced.

Record Fields := {
  scene : option THREE.Object3D;
  camera : option THREE.PerspectiveCamera;
  renderer : option THREE.WebGLRenderer;
  cube : option nat;
  controls : option THREE.OrbitControls;
  animationId : option nat;
  isAnimating : bool;
  rotationSpeed : float;
  mouseX : float;
  mouseY : float;
  targetRotationX : float;
  targetRotationY : float;
  wireframe : option nat;
  lights : option (list nat);
  particles : option nat }.

(** The state the constructor leaves; [wireframe], [lights] and
    [particles] are not yet properties of the object. *)
Definition fresh : Fields :=
  Build_Fields None None None None None None false 0.01 0 0 0 0 None None None.

Definition set_scene v o :=
  Build_Fields v (camera o) (renderer o) (cube o) (controls o) (animationId o)
    (isAnimating o) (rotationSpeed o) (mouseX o) (mouseY o) (targetRotationX o)
    (targetRotationY o) (wireframe o) (lights o) (particles o).
Definition set_camera v o :=
  Build_Fields (scene o) v (renderer o) (cube o) (controls o) (animationId o)
    (isAnimating o) (rotationSpeed o) (mouseX o) (mouseY o) (targetRotationX o)
    (targetRotationY o) (wireframe o) (lights o) (particles o).
Definition set_renderer v o :=
  Build_Fields (scene o) (camera o) v (cube o) (controls o) (animationId o)
    (isAnimating o) (rotationSpeed o) (mouseX o) (mouseY o) (targetRotationX o)
    (targetRotationY o) (wireframe o) (lights o) (particles o).
Definition set_cube v o :=
  Build_Fields (scene o) (camera o) (renderer o) v (controls o) (animationId o)
    (isAnimating o) (rotationSpeed o) (mouseX o) (mouseY o) (targetRotationX o)
    (targetRotationY o) (wireframe o) (lights o) (particles o).
Definition set_controls v o :=
  Build_Fields (scene o) (camera o) (renderer o) (cube o) v (animationId o)
    (isAnimating o) (rotationSpeed o) (mouseX o) (mouseY o) (targetRotationX o)
    (targetRotationY o) (wireframe o) (lights o) (particles o).
Definition set_animationId v o :=
  Build_Fields (scene o) (camera o) (renderer o) (cube o) (controls o) v
    (isAnimating o) (rotationSpeed o) (mouseX o) (mouseY o) (targetRotationX o)
    (targetRotationY o) (wireframe o) (lights o) (particles o).
Definition set_isAnimating v o :=
  Build_Fields (scene o) (camera o) (renderer o) (cube o) (controls o) (animationId o)
    v (rotationSpeed o) (mouseX o) (mouseY o) (targetRotationX o)
    (targetRotationY o) (wireframe o) (lights o) (particles o).
Definition set_rotationSpeed v o :=
  Build_Fields (scene o) (camera o) (renderer o) (cube o) (controls o) (animationId o)
    (isAnimating o) v (mouseX o) (mouseY o) (targetRotationX o)
    (targetRotationY o) (wireframe o) (lights o) (particles o).
Definition set_mouse mx my tx ty o :=
  Build_Fields (scene o) (camera o) (renderer o) (cube o) (controls o) (animationId o)
    (isAnimating o) (rotationSpeed o) mx my tx ty (wireframe o) (lights o) (particles o).
Definition set_wireframe v o :=
  Build_Fields (scene o) (camera o) (renderer o) (cube o) (controls o) (animationId o)
    (isAnimating o) (rotationSpeed o) (mouseX o) (mouseY o) (targetRotationX o)
    (targetRotationY o) v (lights o) (particles o).
Definition set_lights v o :=
  Build_Fields (scene o) (camera o) (renderer o) (cube o) (controls o) (animationId o)
    (isAnimating o) (rotationSpeed o) (mouseX o) (mouseY o) (targetRotationX o)
    (targetRotationY o) (wireframe o) v (particles o).
Definition set_particles v o :=
  Build_Fields (scene o) (camera o) (renderer o) (cube o) (controls o) (animationId o)
    (isAnimating o) (rotationSpeed o) (mouseX o) (mouseY o) (targetRotationX o)
    (targetRotationY o) (wireframe o) (lights o) v.

End Enhanced.

Module Application.

Record Fields := {
  basicScene : option nat;
  enhancedScene : option nat;
  currentView : string }.

Definition set_basicScene v a := Build_Fields v (enhancedScene a) (currentView a).
Definition set_enhancedScene v a := Build_Fields (basicScene a) v (currentView a).
Definition set_currentView v a := Build_Fields (basicScene a) (enhancedScene a) v.

End Application.

(** ** The page: document, window, pending callbacks, object stores *)

(** A function handed to [requestAnimationFrame] or [setTimeout]. *)
Inductive Callback :=
| basic_animate (this : nat)
| enhanced_animate (this : nat)
| enhanced_pulse_end (this : nat) (originalScale : float).

Inductive Target :=
| window
| element (id : string)
| domElement (renderer : nat).

(** A function handed to [addEventListener]. *)
Inductive Listener :=
| app_showEnhancedView
| app_showBasicView
| app_handleWindowResize
| app_beforeunload
| enhanced_rotationSpeed (this : nat)
| enhanced_color (this : nat)
| enhanced_wireframe (this : nat)
| enhanced_scale (this : nat)
| enhanced_mousemove (this : nat)
| enhanced_click (this : nat).

Record Element := {
  classList : list string;
  canvases : list nat }.

(** What the program takes from its host and cannot be computed here. *)
Record Host := {
  Math_sin : float -> float;
  Math_cos : float -> float;
  parseFloat : string -> float }.

Definition Math_PI : float := 3.141592653589793.

Record World := {
  host : Host;
  now : float;
  innerWidth : float;
  innerHeight : float;
  document : gmap string Element;
  listeners : list (Target * string * Listener);
  frameCallbacks : list (nat * Callback);
  timers : list (nat * Callback);
  nextHandle : nat;
  nextId : nat;
  library : list THREE.Call;
  basics : gmap nat Basic.Fields;
  enhanceds : gmap nat Enhanced.Fields;
  app : Application.Fields;
  threejsApp : bool }.

Definition set_now v w :=
  Build_World (host w) v (innerWidth w) (innerHeight w) (document w) (listeners w)
    (frameCallbacks w) (timers w) (nextHandle w) (nextId w) (library w) (basics w)
    (enhanceds w) (app w) (threejsApp w).
Definition set_inner wd ht w :=
  Build_World (host w) (now w) wd ht (document w) (listeners w)
    (frameCallbacks w) (timers w) (nextHandle w) (nextId w) (library w) (basics w)
    (enhanceds w) (app w) (threejsApp w).
Definition set_document v w :=
  Build_World (host w) (now w) (innerWidth w) (innerHeight w) v (listeners w)
    (frameCallbacks w) (timers w) (nextHandle w) (nextId w) (library w) (basics w)
    (enhanceds w) (app w) (threejsApp w).
Definition set_listeners v w :=
  Build_World (host w) (now w) (innerWidth w) (innerHeight w) (document w) v
    (frameCallbacks w) (timers w) (nextHandle w) (nextId w) (library w) (basics w)
    (enhanceds w) (app w) (threejsApp w).
Definition set_frameCallbacks v w :=
  Build_World (host w) (now w) (innerWidth w) (innerHeight w) (document w) (listeners w)
    v (timers w) (nextHandle w) (nextId w) (library w) (basics w)
    (enhanceds w) (app w) (threejsApp w).
Definition set_timers v w :=
  Build_World (host w) (now w) (innerWidth w) (innerHeight w) (document w) (listeners w)
    (frameCallbacks w) v (nextHandle w) (nextId w) (library w) (basics w)
    (enhanceds w) (app w) (threejsApp w).
Definition set_nextHandle v w :=
  Build_World (host w) (now w) (innerWidth w) (innerHeight w) (document w) (listeners w)
    (frameCallbacks w) (timers w) v (nextId w) (library w) (basics w)
    (enhanceds w) (app w) (threejsApp w).
Definition set_nextId v w :=
  Build_World (host w) (now w) (innerWidth w) (innerHeight w) (document w) (listeners w)
    (frameCallbacks w) (timers w) (nextHandle w) v (library w) (basics w)
    (enhanceds w) (app w) (threejsApp w).
Definition set_library v w :=
  Build_World (host w) (now w) (innerWidth w) (innerHeight w) (document w) (listeners w)
    (frameCallbacks w) (timers w) (nextHandle w) (nextId w) v (basics w)
    (enhanceds w) (app w) (threejsApp w).
Definition set_basics v w :=
  Build_World (host w) (now w) (innerWidth w) (innerHeight w) (document w) (listeners w)
    (frameCallbacks w) (timers w) (nextHandle w) (nextId w) (library w) v
    (enhanceds w) (app w) (threejsApp w).
Definition set_enhanceds v w :=
  Build_World (host w) (now w) (innerWidth w) (innerHeight w) (document w) (listeners w)
    (frameCallbacks w) (timers w) (nextHandle w) (nextId w) (library w) (basics w)
    v (app w) (threejsApp w).
Definition set_app v w :=
  Build_World (host w) (now w) (innerWidth w) (innerHeight w) (document w) (listeners w)
    (frameCallbacks w) (timers w) (nextHandle w) (nextId w) (library w) (basics w)
    (enhanceds w) v (threejsApp w).
Definition set_threejsApp v w :=
  Build_World (host w) (now w) (innerWidth w) (innerHeight w) (document w) (listeners w)
    (frameCallbacks w) (timers w) (nextHandle w) (nextId w) (library w) (basics w)
    (enhanceds w) (app w) v.

(** ** Computations: state passing with exceptions *)

Inductive Completion (A : Type) :=
| Normal (a : A)
| Throw.
Arguments Normal {A} a.
Arguments Throw {A}.

Definition JS (A : Type) : Type := World -> Completion A * World.

Definition ret {A} (a : A) : JS A := fun w => (Normal a, w).

Definition bind {A B} (m : JS A) (k : A -> JS B) : JS B :=
  fun w => match m w with
           | (Normal a, w') => k a w'
           | (Throw, w') => (Throw, w')
           end.

(** A [TypeError], the only exception the program can meet: a property
    read or a method call on [null] or [undefined]. *)
Definition throw {A} : JS A := fun w => (Throw, w).

(** [try { body } catch (error) { console.error(...) }]. *)
Definition try_catch (body : JS unit) : JS unit :=
  fun w => match body w with
           | (Normal a, w') => (Normal a, w')
           | (Throw, w') => (Normal tt, w')
           end.

Definition gets {A} (f : World -> A) : JS A := fun w => (Normal (f w), w).
Definition modify (f : World -> World) : JS unit := fun w => (Normal tt, f w).

Declare Scope js_scope.
Delimit Scope js_scope with js.
Notation "x <- m ;; k" := (bind m (fun x => k))
  (at level 100, m at next level, k at level 200, right associativity) : js_scope.
Notation "m ;; k" := (bind m (fun _ => k))
  (at level 100, k at level 200, right associativity) : js_scope.
Local Open Scope js_scope.

Definition when (b : bool) (m : JS unit) : JS unit := if b then m else ret tt.

(** [for (x of l) body(x)], as [forEach] runs it. *)
Fixpoint for_each {A} (l : list A) (body : A -> JS unit) : JS unit :=
  match l with
  | [] => ret tt
  | a :: l' => body a ;; for_each l' body
  end.

Definition state_after {A} (m : JS A) (w : World) : World := snd (m w).
Definition completion_of {A} (m : JS A) (w : World) : Completion A := fst (m w).

(** ** What the browser and the library offer *)

Definition fresh_id : JS nat :=
  fun w => (Normal (nextId w), set_nextId (S (nextId w)) w).

Definition getElementById (id : string) : JS (option Element) :=
  gets (fun w => document w !! id).

Definition add_class (c : string) (e : Element) : Element :=
  Build_Element (if bool_decide (c ∈ classList e) then classList e else classList e ++ [c])
    (canvases e).
Definition remove_class (c : string) (e : Element) : Element :=
  Build_Element (filter (λ c', c' ≠ c) (classList e)) (canvases e).
Definition add_canvas (r : nat) (e : Element) : Element :=
  Build_Element (classList e) (canvases e ++ [r]).

(** A method of the element [id]; the caller has checked that it exists. *)
Definition on_element (id : string) (f : Element -> Element) : JS unit :=
  modify (fun w => set_document (alter f id (document w)) w).

Definition addEventListener (t : Target) (type : string) (l : Listener) : JS unit :=
  modify (fun w => set_listeners (listeners w ++ [(t, type, l)]) w).

Definition take_handle : JS nat :=
  fun w => (Normal (nextHandle w), set_nextHandle (S (nextHandle w)) w).

Definition requestAnimationFrame (cb : Callback) : JS nat :=
  h <- take_handle ;;
  modify (fun w => set_frameCallbacks (frameCallbacks w ++ [(h, cb)]) w) ;;
  ret h.

Definition cancelAnimationFrame (h : nat) : JS unit :=
  modify (fun w => set_frameCallbacks (filter (λ c, c.1 ≠ h) (frameCallbacks w)) w).

Definition setTimeout (cb : Callback) : JS nat :=
  h <- take_handle ;;
  modify (fun w => set_timers (timers w ++ [(h, cb)]) w) ;;
  ret h.

Definition call (c : THREE.Call) : JS unit :=
  modify (fun w => set_library (library w ++ [c]) w).

(** JavaScript truthiness of a number that is or is not there. *)
Definition truthy (n : option nat) : bool :=
  match n with
  | Some (S _) => true
  | _ => false
  end.

(** The callback both [dispose] methods hand to [scene.traverse]. *)
Definition dispose_object (o : THREE.Object3D) : JS unit :=
  match THREE.geometry (THREE.props_of o) with
  | Some g => call (THREE.geometry_dispose (THREE.gid g))
  | None => ret tt
  end ;;
  match THREE.material (THREE.props_of o) with
  | THREE.NoMaterial => ret tt
  | THREE.MaterialArray ms =>
      for_each ms (fun m => call (THREE.material_dispose (THREE.mid m)))
  | THREE.OneMaterial m => call (THREE.material_dispose (THREE.mid m))
  end.

(** [renderer.render(scene, camera)]: the library dereferences both. *)
Definition render (r : option THREE.WebGLRenderer) (s : option THREE.Object3D)
    (c : option THREE.PerspectiveCamera) : JS unit :=
  match r, s, c with
  | Some r, Some s, Some _ => call (THREE.render (THREE.rid r) (THREE.id_of s))
  | _, _, _ => throw
  end.

(** ** [src/scenes/BasicScene.js] *)

Module BasicScene.
Import Basic.

Definition read (this : nat) : JS Fields :=
  fun w => match basics w !! this with
           | Some o => (Normal o, w)
           | None => (Throw, w)
           end.

Definition write (this : nat) (f : Fields -> Fields) : JS unit :=
  modify (fun w => set_basics (alter f this (basics w)) w).

Definition constructor : JS nat :=
  this <- fresh_id ;;
  modify (fun w => set_basics (<[this := fresh]> (basics w)) w) ;;
  ret this.

Definition createScene (this : nat) : JS unit :=
  i <- fresh_id ;;
  write this (set_scene (Some (THREE.Node i
    (THREE.new_object (THREE.Scene (THREE.ColorHex 0x0a0a0f)) None THREE.NoMaterial None) []))).

Definition createCamera (this : nat) : JS unit :=
  w <- gets innerWidth ;;
  h <- gets innerHeight ;;
  write this (set_camera (Some
    (THREE.Build_PerspectiveCamera 75 (w / h) 0.1 1000 (THREE.vec3 0 0 5)))).

Definition createRenderer (this : nat) (container : string) : JS unit :=
  i <- fresh_id ;;
  write this (set_renderer (Some (THREE.new_renderer i))) ;;
  w <- gets innerWidth ;;
  h <- gets innerHeight ;;
  write this (fun o => set_renderer (THREE.setSize w h <$> renderer o) o) ;;
  write this (fun o => set_renderer
    (THREE.set_shadowMap true THREE.PCFSoftShadowMap <$> renderer o) o) ;;
  on_element container (add_canvas i).

(** [this.scene.add(child)]. *)
Definition scene_add (this : nat) (child : THREE.Object3D) : JS unit :=
  o <- read this ;;
  match scene o with
  | Some s => write this (set_scene (Some (THREE.add_child child s)))
  | None => throw
  end.

Definition createCube (this : nat) : JS unit :=
  g <- fresh_id ;;
  m <- fresh_id ;;
  i <- fresh_id ;;
  let geometry := THREE.Build_Geometry g (THREE.BoxGeometry 2 2 2) in
  let material :=
    THREE.Build_Material m THREE.MeshLambertMaterial (Some (THREE.ColorHex 0x6366f1)) false 1 in
  let mesh := THREE.new_object THREE.Mesh (Some geometry) (THREE.OneMaterial material) None in
  write this (set_cube (Some i)) ;;
  scene_add this (THREE.Node i
    (THREE.set_position (THREE.vec3 0 0 0) (THREE.with_shadows true true mesh)) []).

Definition addLights (this : nat) : JS unit :=
  a <- fresh_id ;;
  scene_add this (THREE.Node a
    (THREE.new_object (THREE.AmbientLight (THREE.ColorHex 0x404040)) None THREE.NoMaterial
       (Some 0.6%float)) []) ;;
  d <- fresh_id ;;
  scene_add this (THREE.Node d
    (THREE.with_shadows true false (THREE.set_position (THREE.vec3 5 5 5)
       (THREE.new_object (THREE.DirectionalLight (THREE.ColorHex 0xffffff) 2048 2048)
          None THREE.NoMaterial (Some 1%float)))) []) ;;
  p <- fresh_id ;;
  scene_add this (THREE.Node p
    (THREE.set_position (THREE.vec3 (-5) (-5) 5)
       (THREE.new_object (THREE.PointLight (THREE.ColorHex 0x8b5cf6) 100)
          None THREE.NoMaterial (Some 0.5%float))) []).

(** A write to a property of the object [i] of [this.scene]. *)
Definition update_object (this i : nat) (f : THREE.Props -> THREE.Props) : JS unit :=
  write this (fun o => set_scene (THREE.update i f <$> scene o) o).

Definition spin (d : float) (p : THREE.Props) : THREE.Props :=
  let r := THREE.rotation p in
  THREE.set_rotation (THREE.vec3 (THREE.x r + d) (THREE.y r + d) (THREE.z r)) p.

Definition animate (this : nat) : JS unit :=
  o <- read this ;;
  if negb (isAnimating o) then ret tt
  else
    h <- requestAnimationFrame (basic_animate this) ;;
    write this (set_animationId (Some h)) ;;
    match cube o with
    | Some c => update_object this c (spin 0.005)
    | None => ret tt
    end ;;
    o <- read this ;;
    render (renderer o) (scene o) (camera o).

Definition pause (this : nat) : JS unit :=
  write this (set_isAnimating false) ;;
  o <- read this ;;
  match animationId o with
  | Some h => when (truthy (Some h)) (cancelAnimationFrame h)
  | None => ret tt
  end.

Definition resume (this : nat) : JS unit :=
  write this (set_isAnimating true) ;;
  animate this.

Definition onWindowResize (this : nat) : JS unit :=
  o <- read this ;;
  match camera o, renderer o with
  | Some _, Some _ =>
      w <- gets innerWidth ;;
      h <- gets innerHeight ;;
      write this (fun o => set_camera (THREE.set_aspect (w / h) <$> camera o) o) ;;
      call THREE.updateProjectionMatrix ;;
      write this (fun o => set_renderer (THREE.setSize w h <$> renderer o) o)
  | _, _ => ret tt
  end.

Definition dispose (this : nat) : JS unit :=
  pause this ;;
  o <- read this ;;
  match renderer o with
  | Some r => call (THREE.renderer_dispose (THREE.rid r))
  | None => ret tt
  end ;;
  match scene o with
  | Some s => for_each (THREE.traverse s) dispose_object
  | None => ret tt
  end.

Definition init (this : nat) (containerId : string) : JS unit :=
  container <- getElementById containerId ;;
  match container with
  | None => ret tt
  | Some _ =>
      createScene this ;;
      createCamera this ;;
      createRenderer this containerId ;;
      createCube this ;;
      addLights this ;;
      write this (set_isAnimating true) ;;
      animate this
  end.

End BasicScene.

(** ** [src/scenes/EnhancedScene.js] *)

(** An array index or length as a number. *)
Definition number (n : nat) : float := PrimFloat.of_uint63 (Uint63.of_Z (Z.of_nat n)).

(** [l.forEach((a, index) => body(a, index))]. *)
Fixpoint for_each_indexed {A} (index : nat) (l : list A) (body : A -> nat -> JS unit)
    : JS unit :=
  match l with
  | [] => ret tt
  | a :: l' => body a index ;; for_each_indexed (S index) l' body
  end.

Module EnhancedScene.
Import Enhanced.

Definition read (this : nat) : JS Fields :=
  fun w => match enhanceds w !! this with
           | Some o => (Normal o, w)
           | None => (Throw, w)
           end.

Definition write (this : nat) (f : Fields -> Fields) : JS unit :=
  modify (fun w => set_enhanceds (alter f this (enhanceds w)) w).

Definition constructor : JS nat :=
  this <- fresh_id ;;
  modify (fun w => set_enhanceds (<[this := fresh]> (enhanceds w)) w) ;;
  ret this.

Definition scene_add (this : nat) (child : THREE.Object3D) : JS unit :=
  o <- read this ;;
  match scene o with
  | Some s => write this (set_scene (Some (THREE.add_child child s)))
  | None => throw
  end.

(** A write to a property of the object [i] of [this.scene]. The state of
    an object outside the graph of [this.scene] is not tracked. *)
Definition update_object (this i : nat) (f : THREE.Props -> THREE.Props) : JS unit :=
  write this (fun o => set_scene (THREE.update i f <$> scene o) o).

(** The properties of the object [i] of [this.scene]. *)
Definition object_props (o : Fields) (i : nat) : option THREE.Props :=
  THREE.props_of <$> (scene o ≫= THREE.find i).

Definition createEnhancedCube (this : nat) : JS unit :=
  g <- fresh_id ;;
  m <- fresh_id ;;
  i <- fresh_id ;;
  let geometry := THREE.Build_Geometry g (THREE.BoxGeometry 2.5 2.5 2.5) in
  let material :=
    THREE.Build_Material m (THREE.MeshPhysicalMaterial 0.3 0.2 1 0.1 1)
      (Some (THREE.ColorHex 0x6366f1)) true 0.9 in
  let mesh := THREE.new_object THREE.Mesh (Some geometry) (THREE.OneMaterial material) None in
  write this (set_cube (Some i)) ;;
  scene_add this (THREE.Node i (THREE.with_shadows true true mesh) []) ;;
  wg <- fresh_id ;;
  wm <- fresh_id ;;
  wi <- fresh_id ;;
  let wireframeGeometry := THREE.Build_Geometry wg (THREE.EdgesGeometry g) in
  let wireframeMaterial :=
    THREE.Build_Material wm THREE.LineBasicMaterial (Some (THREE.ColorHex 0xffffff)) true 0.3 in
  write this (set_wireframe (Some wi)) ;;
  write this (fun o => set_scene
    (THREE.add_to i (THREE.Node wi
       (THREE.new_object THREE.LineSegments (Some wireframeGeometry)
          (THREE.OneMaterial wireframeMaterial) None) []) <$> scene o) o).

Definition light_colors : list N := [0x6366f1; 0x8b5cf6; 0x06b6d4; 0x10b981; 0x64748b]%N.

Definition addEnhancedLights (this : nat) : JS unit :=
  a <- fresh_id ;;
  scene_add this (THREE.Node a
    (THREE.new_object (THREE.AmbientLight (THREE.ColorHex 0x404040)) None THREE.NoMaterial
       (Some 0.3%float)) []) ;;
  write this (set_lights (Some [])) ;;
  for_each_indexed 0 light_colors (fun color index =>
    l <- fresh_id ;;
    h <- gets host ;;
    let angle := (number index / number (length light_colors) * Math_PI * 2)%float in
    scene_add this (THREE.Node l
      (THREE.with_shadows true false
         (THREE.set_position
            (THREE.vec3 (Math_cos h angle * 8)%float (Math_sin h angle * 8)%float 5)
            (THREE.new_object (THREE.PointLight (THREE.ColorHex color) 50)
               None THREE.NoMaterial (Some 0.8%float)))) []) ;;
    write this (fun o => set_lights ((λ ls, ls ++ [l]) <$> lights o) o)) ;;
  d <- fresh_id ;;
  scene_add this (THREE.Node d
    (THREE.with_shadows true false (THREE.set_position (THREE.vec3 5 5 5)
       (THREE.new_object (THREE.DirectionalLight (THREE.ColorHex 0xffffff) 2048 2048)
          None THREE.NoMaterial (Some 0.5%float)))) []).

(** The 200 particles' coordinates and colours come from [Math.random]
    and stay inside the geometry's buffers; they are not tracked. *)
Definition addParticles (this : nat) : JS unit :=
  g <- fresh_id ;;
  m <- fresh_id ;;
  i <- fresh_id ;;
  let geometry := THREE.Build_Geometry g (THREE.BufferGeometry 200) in
  let material := THREE.Build_Material m (THREE.PointsMaterial 0.5 true) None true 0.6 in
  write this (set_particles (Some i)) ;;
  scene_add this (THREE.Node i
    (THREE.new_object THREE.Points (Some geometry) (THREE.OneMaterial material) None) []).

(** [controls.update()] is recorded as a call into the library. The
    controls hold the camera they were made with and may move it:
    [cam_position] is what the script wrote, not what an update may have
    left there. *)
Definition addOrbitControls (this : nat) : JS unit :=
  o <- read this ;;
  match renderer o with
  | None => throw
  | Some _ =>
      c <- fresh_id ;;
      write this (set_controls (Some
        (THREE.Build_OrbitControls c true true 0.05 true true true 20 2 Math_PI
           (THREE.vec3 0 0 0)))) ;;
      call (THREE.controls_update c)
  end.

(** [document.getElementById(id).addEventListener(type, l)]. *)
Definition listen (id type : string) (l : Listener) : JS unit :=
  e <- getElementById id ;;
  match e with
  | Some _ => addEventListener (element id) type l
  | None => throw
  end.

Definition bindControls (this : nat) : JS unit :=
  listen "rotation-speed" "input" (enhanced_rotationSpeed this) ;;
  listen "cube-color" "input" (enhanced_color this) ;;
  listen "wireframe" "change" (enhanced_wireframe this) ;;
  listen "scale" "input" (enhanced_scale this).

Definition addMouseInteraction (this : nat) : JS unit :=
  o <- read this ;;
  match renderer o with
  | None => throw
  | Some r =>
      addEventListener (domElement (THREE.rid r)) "mousemove" (enhanced_mousemove this) ;;
      addEventListener (domElement (THREE.rid r)) "click" (enhanced_click this)
  end.

(** The body of [if (this.cube) { ... }] in [animate], on the cube's
    properties; [enabled] is [this.controls.enabled]. *)
Definition spin_cube (speed time tx ty : float) (sin : float -> float) (enabled : bool)
    (p : THREE.Props) : THREE.Props :=
  let r := THREE.rotation p in
  let rx := (THREE.x r + speed)%float in
  let ry := (THREE.y r + speed)%float in
  let pos := THREE.position p in
  let p := THREE.set_position
             (THREE.vec3 (THREE.x pos) (sin (time * 0.5) * 0.3)%float (THREE.z pos)) p in
  if enabled
  then THREE.set_rotation (THREE.vec3 rx ry (THREE.z r)) p
  else
    let rx' := (rx + (tx - rx) * 0.05)%float in
    let ry' := (ry + (ty - ry) * 0.05)%float in
    THREE.set_rotation (THREE.vec3 rx' ry' (THREE.z r)) p.

Definition orbit_light (time : float) (index count : nat) (h : Host)
    (p : THREE.Props) : THREE.Props :=
  let angle := (time * 0.5 + number index / number count * Math_PI * 2)%float in
  let pos := THREE.position p in
  THREE.set_intensity (0.8 + Math_sin h (time * 2 + number index) * 0.3)%float
    (THREE.set_position
       (THREE.vec3 (Math_cos h angle * 8)%float (Math_sin h angle * 8)%float (THREE.z pos)) p).

Definition spin_particles (p : THREE.Props) : THREE.Props :=
  let r := THREE.rotation p in
  THREE.set_rotation (THREE.vec3 (THREE.x r + 0.002) (THREE.y r + 0.002) (THREE.z r)) p.

(** [this.lights.forEach((light, index) => { ... })] in [animate]. *)
Definition animate_lights (this : nat) (ls : list nat) (time : float) : JS unit :=
  hst <- gets host ;;
  for_each_indexed 0 ls (fun light index =>
    update_object this light (orbit_light time index (length ls) hst)).

Definition animate (this : nat) : JS unit :=
  o <- read this ;;
  if negb (isAnimating o) then ret tt
  else
    h <- requestAnimationFrame (enhanced_animate this) ;;
    write this (set_animationId (Some h)) ;;
    t <- gets now ;;
    let time := (t * 0.001)%float in
    match controls o with
    | Some c => call (THREE.controls_update (THREE.cid c))
    | None => ret tt
    end ;;
    match cube o with
    | Some c =>
        match controls o with
        | Some oc =>
            hst <- gets host ;;
            update_object this c
              (spin_cube (rotationSpeed o) time (targetRotationX o) (targetRotationY o)
                 (Math_sin hst) (THREE.enabled oc))
        | None =>
            hst <- gets host ;;
            update_object this c
              (spin_cube (rotationSpeed o) time (targetRotationX o) (targetRotationY o)
                 (Math_sin hst) true) ;;
            throw
        end
    | None => ret tt
    end ;;
    match lights o with
    | Some ls => animate_lights this ls time
    | None => ret tt
    end ;;
    match particles o with
    | Some p => update_object this p spin_particles
    | None => ret tt
    end ;;
    o <- read this ;;
    render (renderer o) (scene o) (camera o).

Definition pause (this : nat) : JS unit :=
  write this (set_isAnimating false) ;;
  o <- read this ;;
  match animationId o with
  | Some h => when (truthy (Some h)) (cancelAnimationFrame h)
  | None => ret tt
  end.

Definition resume (this : nat) : JS unit :=
  write this (set_isAnimating true) ;;
  animate this.

Definition onWindowResize (this : nat) : JS unit :=
  o <- read this ;;
  match camera o, renderer o with
  | Some _, Some _ =>
      w <- gets innerWidth ;;
      h <- gets innerHeight ;;
      write this (fun o => set_camera (THREE.set_aspect (w / h) <$> camera o) o) ;;
      call THREE.updateProjectionMatrix ;;
      write this (fun o => set_renderer (THREE.setSize w h <$> renderer o) o) ;;
      match controls o with
      | Some c => call (THREE.controls_update (THREE.cid c))
      | None => ret tt
      end
  | _, _ => ret tt
  end.

Definition dispose (this : nat) : JS unit :=
  pause this ;;
  o <- read this ;;
  match controls o with
  | Some c => call (THREE.controls_dispose (THREE.cid c))
  | None => ret tt
  end ;;
  match renderer o with
  | Some r => call (THREE.renderer_dispose (THREE.rid r))
  | None => ret tt
  end ;;
  match scene o with
  | Some s => for_each (THREE.traverse s) dispose_object
  | None => ret tt
  end.

Definition init (this : nat) (containerId : string) : JS unit :=
  container <- getElementById containerId ;;
  i <- fresh_id ;;
  write this (set_scene (Some (THREE.Node i
    (THREE.new_object (THREE.Scene (THREE.ColorHex 0x060610)) None THREE.NoMaterial None) []))) ;;
  w <- gets innerWidth ;;
  h <- gets innerHeight ;;
  write this (set_camera (Some
    (THREE.Build_PerspectiveCamera 75 (w / h) 0.1 1000 (THREE.vec3 0 0 6)))) ;;
  r <- fresh_id ;;
  write this (set_renderer (Some
    (THREE.set_toneMapping THREE.ACESFilmicToneMapping 1
       (THREE.set_shadowMap true THREE.PCFSoftShadowMap
          (THREE.setSize w h (THREE.new_renderer r)))))) ;;
  match container with
  | Some _ => on_element containerId (add_canvas r)
  | None => throw
  end ;;
  createEnhancedCube this ;;
  addEnhancedLights this ;;
  addParticles this ;;
  addOrbitControls this ;;
  bindControls this ;;
  addMouseInteraction this ;;
  write this (set_isAnimating true) ;;
  animate this.

(** The listeners [bindControls] and [addMouseInteraction] register. *)

Definition on_rotationSpeed (this : nat) (value : string) : JS unit :=
  h <- gets host ;;
  write this (set_rotationSpeed (parseFloat h value)).

Definition recolor (c : THREE.Color) (p : THREE.Props) : THREE.Props :=
  match THREE.material p with
  | THREE.OneMaterial m => THREE.set_material (THREE.OneMaterial (THREE.set_color c m)) p
  | _ => p
  end.

Definition on_color (this : nat) (value : string) : JS unit :=
  o <- read this ;;
  match cube o with
  | None => throw
  | Some c =>
      match THREE.material <$> object_props o c with
      | Some THREE.NoMaterial => throw
      | _ => update_object this c (recolor (THREE.ColorCss value))
      end
  end.

Definition on_wireframe (this : nat) (checked : bool) : JS unit :=
  o <- read this ;;
  match wireframe o with
  | None => throw
  | Some wf => update_object this wf (THREE.set_visible checked)
  end.

Definition on_scale (this : nat) (value : string) : JS unit :=
  h <- gets host ;;
  let scale := parseFloat h value in
  o <- read this ;;
  match cube o with
  | None => throw
  | Some c => update_object this c (THREE.set_scale (THREE.vec3 scale scale scale))
  end.

Definition on_mousemove (this : nat) (clientX clientY : float) : JS unit :=
  w <- gets innerWidth ;;
  h <- gets innerHeight ;;
  let mx := (clientX / w * 2 - 1)%float in
  let my := (- (clientY / h) * 2 + 1)%float in
  write this (set_mouse mx my (my * 0.5) (mx * 0.5)).

Definition on_click (this : nat) : JS unit :=
  o <- read this ;;
  match cube o with
  | None => throw
  | Some c =>
      match object_props o c with
      | None => ret tt
      | Some p =>
          let originalScale := THREE.x (THREE.scale p) in
          let s := (originalScale * 1.2)%float in
          update_object this c (THREE.set_scale (THREE.vec3 s s s)) ;;
          _ <- setTimeout (enhanced_pulse_end this originalScale) ;;
          ret tt
      end
  end.

Definition pulse_end (this : nat) (originalScale : float) : JS unit :=
  o <- read this ;;
  match cube o with
  | None => throw
  | Some c =>
      update_object this c (THREE.set_scale (THREE.vec3 originalScale originalScale originalScale))
  end.

End EnhancedScene.

(** ** [src/main.js] *)

Module App.
Import Application.

Definition write (f : Fields -> Fields) : JS unit :=
  modify (fun w => set_app (f (app w)) w).

Definition initializeBasicScene : JS unit :=
  try_catch (
    b <- BasicScene.constructor ;;
    write (set_basicScene (Some b)) ;;
    BasicScene.init b "basic-scene").

Definition initializeEnhancedScene : JS unit :=
  try_catch (
    a <- gets app ;;
    match enhancedScene a with
    | Some _ => ret tt
    | None =>
        e <- EnhancedScene.constructor ;;
        write (set_enhancedScene (Some e)) ;;
        EnhancedScene.init e "enhanced-scene"
    end).

Definition bindEnhancedViewButton : JS unit :=
  enhancedBtn <- getElementById "enhanced-btn" ;;
  match enhancedBtn with
  | Some _ => addEventListener (element "enhanced-btn") "click" app_showEnhancedView
  | None => ret tt
  end.

Definition bindBackButton : JS unit :=
  backBtn <- getElementById "back-btn" ;;
  match backBtn with
  | Some _ => addEventListener (element "back-btn") "click" app_showBasicView
  | None => ret tt
  end.

Definition bindWindowResize : JS unit :=
  addEventListener window "resize" app_handleWindowResize.

Definition bindEvents : JS unit :=
  bindEnhancedViewButton ;;
  bindBackButton ;;
  bindWindowResize.

Definition init : JS unit :=
  initializeBasicScene ;;
  bindEvents.

Definition constructor : JS unit :=
  write (fun _ => Build_Fields None None "basic") ;;
  init.

Definition handleWindowResize : JS unit :=
  try_catch (
    a <- gets app ;;
    match String.eqb (currentView a) "basic", basicScene a with
    | true, Some b => BasicScene.onWindowResize b
    | _, _ =>
        match String.eqb (currentView a) "enhanced", enhancedScene a with
        | true, Some e => EnhancedScene.onWindowResize e
        | _, _ => ret tt
        end
    end).

Definition hideBasicView : JS unit :=
  basicView <- getElementById "basic-view" ;;
  match basicView with
  | Some _ => on_element "basic-view" (remove_class "active")
  | None => ret tt
  end.

Definition showEnhancedViewUI : JS unit :=
  enhancedView <- getElementById "enhanced-view" ;;
  match enhancedView with
  | Some _ => on_element "enhanced-view" (add_class "active")
  | None => ret tt
  end.

Definition hideEnhancedView : JS unit :=
  enhancedView <- getElementById "enhanced-view" ;;
  match enhancedView with
  | Some _ => on_element "enhanced-view" (remove_class "active")
  | None => ret tt
  end.

Definition showBasicViewUI : JS unit :=
  basicView <- getElementById "basic-view" ;;
  match basicView with
  | Some _ => on_element "basic-view" (add_class "active")
  | None => ret tt
  end.

Definition pauseBasicScene : JS unit :=
  a <- gets app ;;
  match basicScene a with
  | Some b => BasicScene.pause b
  | None => ret tt
  end.

Definition resumeBasicScene : JS unit :=
  a <- gets app ;;
  match basicScene a with
  | Some b => BasicScene.resume b
  | None => ret tt
  end.

Definition pauseEnhancedScene : JS unit :=
  a <- gets app ;;
  match enhancedScene a with
  | Some e => EnhancedScene.pause e
  | None => ret tt
  end.

Definition resumeEnhancedScene : JS unit :=
  a <- gets app ;;
  match enhancedScene a with
  | Some e => EnhancedScene.resume e
  | None => ret tt
  end.

Definition showEnhancedView : JS unit :=
  try_catch (
    hideBasicView ;;
    showEnhancedViewUI ;;
    initializeEnhancedScene ;;
    pauseBasicScene ;;
    resumeEnhancedScene ;;
    write (set_currentView "enhanced")).

Definition showBasicView : JS unit :=
  try_catch (
    hideEnhancedView ;;
    showBasicViewUI ;;
    pauseEnhancedScene ;;
    resumeBasicScene ;;
    write (set_currentView "basic")).

(** [window.removeEventListener('resize', this.handleWindowResize)] names a
    function that was never registered (the listener is an arrow function
    around it), so it removes nothing. *)
Definition dispose : JS unit :=
  try_catch (
    a <- gets app ;;
    match basicScene a with
    | Some b => BasicScene.dispose b ;; write (set_basicScene None)
    | None => ret tt
    end ;;
    a <- gets app ;;
    match enhancedScene a with
    | Some e => EnhancedScene.dispose e ;; write (set_enhancedScene None)
    | None => ret tt
    end).

(** The [DOMContentLoaded] listener at the end of the file. *)
Definition main : JS unit :=
  constructor ;;
  modify (set_threejsApp true) ;;
  addEventListener window "beforeunload" app_beforeunload.

End App.

(** ** The earlier versions of [main.js] and [BasicScene.js]

    The sources hold an earlier copy of each: no [try]/[catch], no test
    that an element exists before it is used. *)

Module Legacy.

(** [BasicScene.init] without the guard on the container. *)
Definition BasicScene_init (this : nat) (containerId : string) : JS unit :=
  container <- getElementById containerId ;;
  i <- fresh_id ;;
  BasicScene.write this (Basic.set_scene (Some (THREE.Node i
    (THREE.new_object (THREE.Scene (THREE.ColorHex 0x0a0a0f)) None THREE.NoMaterial None)
    []))) ;;
  w <- gets innerWidth ;;
  h <- gets innerHeight ;;
  BasicScene.write this (Basic.set_camera (Some
    (THREE.Build_PerspectiveCamera 75 (w / h) 0.1 1000 (THREE.vec3 0 0 5)))) ;;
  r <- fresh_id ;;
  BasicScene.write this (Basic.set_renderer (Some (THREE.new_renderer r))) ;;
  w <- gets innerWidth ;;
  h <- gets innerHeight ;;
  BasicScene.write this (fun o =>
    Basic.set_renderer (THREE.setSize w h <$> Basic.renderer o) o) ;;
  BasicScene.write this (fun o => Basic.set_renderer
    (THREE.set_shadowMap true THREE.PCFSoftShadowMap <$> Basic.renderer o) o) ;;
  match container with
  | Some _ => on_element containerId (add_canvas r)
  | None => throw
  end ;;
  BasicScene.createCube this ;;
  BasicScene.addLights this ;;
  BasicScene.write this (Basic.set_isAnimating true) ;;
  BasicScene.animate this.

(** [document.getElementById(id).classList.add/remove(...)]. *)
Definition classList_of (id : string) (f : Element -> Element) : JS unit :=
  e <- getElementById id ;;
  match e with
  | Some _ => on_element id f
  | None => throw
  end.

Definition showEnhancedView : JS unit :=
  classList_of "basic-view" (remove_class "active") ;;
  classList_of "enhanced-view" (add_class "active") ;;
  a <- gets app ;;
  match Application.enhancedScene a with
  | Some _ => ret tt
  | None =>
      e <- EnhancedScene.constructor ;;
      App.write (Application.set_enhancedScene (Some e)) ;;
      EnhancedScene.init e "enhanced-scene"
  end ;;
  App.pauseBasicScene ;;
  App.resumeEnhancedScene ;;
  App.write (Application.set_currentView "enhanced").

Definition showBasicView : JS unit :=
  classList_of "enhanced-view" (remove_class "active") ;;
  classList_of "basic-view" (add_class "active") ;;
  App.pauseEnhancedScene ;;
  App.resumeBasicScene ;;
  App.write (Application.set_currentView "basic").

(** The [resize] listener of [bindEvents]. *)
Definition on_resize : JS unit :=
  a <- gets app ;;
  match String.eqb (Application.currentView a) "basic", Application.basicScene a with
  | true, Some b => BasicScene.onWindowResize b
  | _, _ =>
      match String.eqb (Application.currentView a) "enhanced", Application.enhancedScene a with
      | true, Some e => EnhancedScene.onWindowResize e
      | _, _ => ret tt
      end
  end.

End Legacy.

(** ** The browser's event loop *)

(** What an event carries to its listeners. *)
Inductive Payload :=
| no_payload
| input_value (value : string)
| input_checked (checked : bool)
| mouse_at (clientX clientY : float).

Definition payload_value (p : Payload) : string :=
  match p with input_value v => v | _ => "" end.
Definition payload_checked (p : Payload) : bool :=
  match p with input_checked c => c | _ => false end.
Definition payload_mouse (p : Payload) : float * float :=
  match p with mouse_at cx cy => (cx, cy) | _ => (0%float, 0%float) end.

Definition run_listener (l : Listener) (p : Payload) : JS unit :=
  match l with
  | app_showEnhancedView => App.showEnhancedView
  | app_showBasicView => App.showBasicView
  | app_handleWindowResize => App.handleWindowResize
  | app_beforeunload =>
      live <- gets threejsApp ;;
      when live App.dispose
  | enhanced_rotationSpeed this => EnhancedScene.on_rotationSpeed this (payload_value p)
  | enhanced_color this => EnhancedScene.on_color this (payload_value p)
  | enhanced_wireframe this => EnhancedScene.on_wireframe this (payload_checked p)
  | enhanced_scale this => EnhancedScene.on_scale this (payload_value p)
  | enhanced_mousemove this =>
      EnhancedScene.on_mousemove this (payload_mouse p).1 (payload_mouse p).2
  | enhanced_click this => EnhancedScene.on_click this
  end.

Definition run_callback (cb : Callback) : JS unit :=
  match cb with
  | basic_animate this => BasicScene.animate this
  | enhanced_animate this => EnhancedScene.animate this
  | enhanced_pulse_end this originalScale => EnhancedScene.pulse_end this originalScale
  end.

Global Instance Target_eq_dec : EqDecision Target.
Proof. solve_decision. Defined.

(** The listeners of [type] on [t], in the order they were added. *)
Definition listeners_for (t : Target) (type : string) (w : World) : list Listener :=
  (λ r, r.2) <$> filter (λ r, r.1.1 = t ∧ r.1.2 = type) (listeners w).

(** An exception a listener or callback lets escape is reported by the
    browser and ends that listener only. *)
Definition dispatch (t : Target) (type : string) (p : Payload) : JS unit :=
  ls <- gets (listeners_for t type) ;;
  for_each ls (fun l => try_catch (run_listener l p)).

(** One animation frame: the callbacks pending when the frame starts run
    in order, each unless cancelled meanwhile; those they request wait
    for the next frame. *)
Definition run_frame_callback (h : nat) : JS unit :=
  pending <- gets frameCallbacks ;;
  match list_find (λ c, c.1 = h) pending with
  | Some (_, (_, cb)) =>
      modify (fun w => set_frameCallbacks (filter (λ c, c.1 ≠ h) (frameCallbacks w)) w) ;;
      try_catch (run_callback cb)
  | None => ret tt
  end.

Definition animation_frame : JS unit :=
  pending <- gets frameCallbacks ;;
  for_each (fst <$> pending) run_frame_callback.

Definition timer_fires (h : nat) : JS unit :=
  pending <- gets timers ;;
  match list_find (λ c, c.1 = h) pending with
  | Some (_, (_, cb)) =>
      modify (fun w => set_timers (filter (λ c, c.1 ≠ h) (timers w)) w) ;;
      try_catch (run_callback cb)
  | None => ret tt
  end.

(** What can happen to the page while it stays loaded. The [beforeunload]
    event is not among them: its listener runs [App.dispose], and the
    properties stated over these events speak of the application before
    that. *)
Inductive Event :=
| click (t : Target)
| input (id value : string)
| change (id : string) (checked : bool)
| mousemove (t : Target) (clientX clientY : float)
| resize (innerWidth innerHeight : float)
| frame
| timer (h : nat)
| clock (t : float)
| showEnhancedView
| showBasicView.

Definition handle (e : Event) : JS unit :=
  match e with
  | click t => dispatch t "click" no_payload
  | input id value => dispatch (element id) "input" (input_value value)
  | change id checked => dispatch (element id) "change" (input_checked checked)
  | mousemove t cx cy => dispatch t "mousemove" (mouse_at cx cy)
  | resize iw ih => modify (set_inner iw ih) ;; dispatch window "resize" no_payload
  | frame => animation_frame
  | timer h => timer_fires h
  | clock t => modify (set_now t)
  | showEnhancedView => App.showEnhancedView
  | showBasicView => App.showBasicView
  end.

Definition step (w : World) (e : Event) : World := state_after (handle e) w.

Definition run (es : list Event) (w : World) : World := fold_left step es w.

(** The page as the browser hands it to the script. *)
Definition page (h : Host) (doc : gmap string Element) (t iw ih : float) : World :=
  Build_World h t iw ih doc [] [] [] 1 1 [] ∅ ∅
    (Application.Build_Fields None None "") false.

Definition loaded (h : Host) (doc : gmap string Element) (t iw ih : float) : World :=
  state_after App.main (page h doc t iw ih).

(** * What the properties speak of *)

(** ** Scene graphs *)

(** Induction on a scene graph that reaches the children of a node. *)
Section Object3D_induction.
Variable P : THREE.Object3D -> Prop.
Hypothesis node : forall i p cs, Forall P cs -> P (THREE.Node i p cs).

Fixpoint Object3D_nested_ind (o : THREE.Object3D) : P o :=
  let 'THREE.Node i p cs := o in
  node i p cs
    ((fix all (l : list THREE.Object3D) : Forall P l :=
        match l with
        | [] => @List.Forall_nil _ P
        | c :: l' => @List.Forall_cons _ P c l' (Object3D_nested_ind c) (all l')
        end) cs).

End Object3D_induction.

(** [n] is an object of the graph under the second argument. *)
Inductive in_graph (n : THREE.Object3D) : THREE.Object3D -> Prop :=
| in_graph_here : in_graph n n
| in_graph_child i p cs c : c ∈ cs -> in_graph n c -> in_graph n (THREE.Node i p cs).

(** ** One pass of a loop, and what [pause] cancels *)

(** The object after one pass of [animate] that was given handle [h]. *)
Definition basic_tick (h : nat) (o : Basic.Fields) : Basic.Fields :=
  let o' := Basic.set_animationId (Some h) o in
  match Basic.cube o with
  | Some c => Basic.set_scene (THREE.update c (BasicScene.spin 0.005) <$> Basic.scene o') o'
  | None => o'
  end.

(** The page after [requestAnimationFrame(cb)]. *)
Definition requested (cb : Callback) (w : World) : World :=
  set_nextHandle (S (nextHandle w))
    (set_frameCallbacks (frameCallbacks w ++ [(nextHandle w, cb)]) w).

(** The pending frame callbacks once [pause] has cancelled [animationId]. *)
Definition cancelled (animationId : option nat) (l : list (nat * Callback))
    : list (nat * Callback) :=
  match animationId with
  | Some (S h) => filter (λ c, c.1 ≠ S h) l
  | _ => l
  end.

(** The lights' part of one pass of [animate] on the scene graph. *)
Fixpoint orbit_lights (time : float) (h : Host) (count index : nat) (ls : list nat)
    (s : THREE.Object3D) : THREE.Object3D :=
  match ls with
  | [] => s
  | l :: ls' =>
      orbit_lights time h count (S index) ls'
        (THREE.update l (EnhancedScene.orbit_light time index count h) s)
  end.

(** The scene graph after one pass of [animate]. *)
Definition enhanced_tick_scene (h : Host) (t : float) (o : Enhanced.Fields)
    (s : THREE.Object3D) : THREE.Object3D :=
  let time := (t * 0.001)%float in
  let s1 :=
    match Enhanced.cube o with
    | Some c =>
        THREE.update c
          (EnhancedScene.spin_cube (Enhanced.rotationSpeed o) time
             (Enhanced.targetRotationX o) (Enhanced.targetRotationY o) (Math_sin h)
             (default true (THREE.enabled <$> Enhanced.controls o))) s
    | None => s
    end in
  let s2 :=
    match Enhanced.lights o with
    | Some ls => orbit_lights time h (length ls) 0 ls s1
    | None => s1
    end in
  match Enhanced.particles o with
  | Some p => THREE.update p EnhancedScene.spin_particles s2
  | None => s2
  end.

(** The object after one pass of [animate] that was given handle [n]. *)
Definition enhanced_tick (n : nat) (h : Host) (t : float) (o : Enhanced.Fields)
    : Enhanced.Fields :=
  Enhanced.set_scene (enhanced_tick_scene h t o <$> Enhanced.scene o)
    (Enhanced.set_animationId (Some n) o).

(** [if (this.controls) this.controls.update()], as calls of the library. *)
Definition controls_calls (c : option THREE.OrbitControls) : list THREE.Call :=
  match c with
  | Some c => [THREE.controls_update (THREE.cid c)]
  | None => []
  end.

(** ** What the listeners do to the enhanced scene *)

(** A write to a property of the object [i] of the scene graph. *)
Definition in_scene (i : nat) (f : THREE.Props -> THREE.Props) (o : Enhanced.Fields)
    : Enhanced.Fields :=
  Enhanced.set_scene (THREE.update i f <$> Enhanced.scene o) o.

(** Whatever a listener or delayed callback of the enhanced scene meets,
    all it does to the page is rewrite properties of objects of its
    scene graph, its own numbers, and book a timer. The flag says
    whether [rotationSpeed] may be among the numbers. *)
Inductive enhanced_edit : bool -> (Enhanced.Fields -> Enhanced.Fields) -> Prop :=
| edit_nothing b : enhanced_edit b (fun o => o)
| edit_speed v : enhanced_edit true (Enhanced.set_rotationSpeed v)
| edit_mouse b mx my tx ty : enhanced_edit b (Enhanced.set_mouse mx my tx ty)
| edit_scale b i v : enhanced_edit b (in_scene i (THREE.set_scale v))
| edit_visible b i c : enhanced_edit b (in_scene i (THREE.set_visible c))
| edit_color b i c : enhanced_edit b (in_scene i (EnhancedScene.recolor c)).

(** The listener of the rotation-speed control. *)
Definition is_speed_listener (l : Listener) : bool :=
  match l with
  | enhanced_rotationSpeed _ => true
  | _ => false
  end.

(** [w'] is [w] but for the fields of the enhanced scene [this], and for
    timers and handles. *)
Definition edits (this : nat) (F : Enhanced.Fields -> Enhanced.Fields) (w w' : World) : Prop :=
  w' = set_nextHandle (nextHandle w')
         (set_timers (timers w') (set_enhanceds (alter F this (enhanceds w)) w)).

(** ** The page the script expects, and what stays true of it *)

(** [index.html] is not among the sources: the document is a parameter,
    constrained to hold the elements the script looks up, with the basic
    view shown. *)
Definition required_ids : list string :=
  ["basic-view"; "enhanced-view"; "basic-scene"; "enhanced-scene"; "enhanced-btn";
   "back-btn"; "rotation-speed"; "cube-color"; "wireframe"; "scale"].

(** The element is shown: its class list holds [active]. *)
Definition active (e : Element) : Prop := "active" ∈ classList e.

(** The page as it is served: the elements are there, the basic view is
    shown and the enhanced view is not. *)
Definition index_html (doc : gmap string Element) : Prop :=
  (forall id, id ∈ required_ids -> is_Some (doc !! id))
  ∧ (exists e, doc !! "basic-view" = Some e ∧ active e)
  ∧ (exists e, doc !! "enhanced-view" = Some e ∧ ¬ active e).

(** The listeners [App] and the entry point register, in order. *)
Definition app_listeners : list (Target * string * Listener) :=
  [(element "enhanced-btn", "click", app_showEnhancedView);
   (element "back-btn", "click", app_showBasicView);
   (window, "resize", app_handleWindowResize);
   (window, "beforeunload", app_beforeunload)].

(** Those [bindControls] and [addMouseInteraction] register for the
    enhanced scene [e] whose canvas is that of the renderer [r]. *)
Definition enhanced_listeners (e r : nat) : list (Target * string * Listener) :=
  [(element "rotation-speed", "input", enhanced_rotationSpeed e);
   (element "cube-color", "input", enhanced_color e);
   (element "wireframe", "change", enhanced_wireframe e);
   (element "scale", "input", enhanced_scale e);
   (domElement r, "mousemove", enhanced_mousemove e);
   (domElement r, "click", enhanced_click e)].

(** All the listeners of a page, given whether its enhanced scene is made. *)
Definition expected_listeners (w : World) : list (Target * string * Listener) :=
  app_listeners ++
  match Application.enhancedScene (app w) with
  | Some e =>
      match THREE.rid <$> (enhanceds w !! e ≫= Enhanced.renderer) with
      | Some r => enhanced_listeners e r
      | None => []
      end
  | None => []
  end.

(** An initialised basic scene: everything [animate] dereferences is
    there, and the cube sits at the origin of the scene graph. *)
Definition BasicOK (o : Basic.Fields) : Prop :=
  exists s c cam r n,
    Basic.scene o = Some s ∧ Basic.cube o = Some c ∧ Basic.camera o = Some cam
    ∧ Basic.renderer o = Some r ∧ THREE.find c s = Some n
    ∧ THREE.position (THREE.props_of n) = THREE.origin.

(** [object.material] is one material, not an array and not missing. *)
Definition has_one_material (p : THREE.Props) : Prop :=
  match THREE.material p with
  | THREE.OneMaterial _ => True
  | _ => False
  end.

(** An initialised enhanced scene: everything [animate] dereferences is
    there, the orbit controls are enabled, and the cube is in the scene
    graph with its one material and is not the particle cloud. *)
Definition EnhancedOK (o : Enhanced.Fields) : Prop :=
  exists s cam r c oc n,
    Enhanced.scene o = Some s ∧ Enhanced.camera o = Some cam
    ∧ Enhanced.renderer o = Some r ∧ Enhanced.cube o = Some c
    ∧ Enhanced.controls o = Some oc ∧ THREE.enabled oc = true
    ∧ THREE.find c s = Some n ∧ has_one_material (THREE.props_of n)
    ∧ Enhanced.particles o ≠ Some c.

(** What holds of the page from the end of the script on, until it is
    unloaded: the elements stay; one view is shown, the one
    [currentView] names; each class has at most one instance, the
    application's, initialised, and paused while the other view is
    shown; and the listeners are those registered by the script. *)
Record Inv (w : World) : Prop := {
  inv_elements : forall id, id ∈ required_ids -> is_Some (document w !! id);
  inv_views :
    exists bv ev,
      document w !! "basic-view" = Some bv ∧ document w !! "enhanced-view" = Some ev
      ∧ ((active bv ∧ ¬ active ev ∧ Application.currentView (app w) = "basic")
         ∨ (¬ active bv ∧ active ev ∧ Application.currentView (app w) = "enhanced"));
  inv_basic :
    exists b, Application.basicScene (app w) = Some b ∧ is_Some (basics w !! b);
  inv_basics :
    forall this o, basics w !! this = Some o ->
      Application.basicScene (app w) = Some this ∧ BasicOK o
      ∧ (Application.currentView (app w) = "enhanced" -> Basic.isAnimating o = false);
  inv_enhanced :
    forall e, Application.enhancedScene (app w) = Some e -> is_Some (enhanceds w !! e);
  inv_enhanceds :
    forall this o, enhanceds w !! this = Some o ->
      Application.enhancedScene (app w) = Some this ∧ EnhancedOK o
      ∧ (Application.currentView (app w) = "basic" -> Enhanced.isAnimating o = false);
  inv_listeners : listeners w = expected_listeners w }.

(** What a step leaves alone. *)
Definition evolves (w w' : World) : Prop :=
  host w' = host w
  ∧ Application.basicScene (app w') = Application.basicScene (app w)
  ∧ forall e, Application.enhancedScene (app w) = Some e ->
      Application.enhancedScene (app w') = Some e ∧ nextId w' = nextId w.

(** The step leaves [rotationSpeed] of every enhanced scene as it was. *)
Definition same_speed (w w' : World) : Prop :=
  forall this o, enhanceds w !! this = Some o ->
    Enhanced.rotationSpeed <$> enhanceds w' !! this = Some (Enhanced.rotationSpeed o).

(** A step that keeps the invariant, and the rotation speed when asked. *)
Definition good_step (speed : bool) (w w' : World) : Prop :=
  Inv w' ∧ evolves w w' ∧ (speed = true -> same_speed w w').

(** A change of fields that is none of [rotationSpeed]. *)
Definition keeps_speed (F : Enhanced.Fields -> Enhanced.Fields) : Prop :=
  forall o, Enhanced.rotationSpeed (F o) = Enhanced.rotationSpeed o.

(** The elements [EnhancedScene.init] looks up. *)
Definition enhanced_ids : list string :=
  ["enhanced-scene"; "rotation-speed"; "cube-color"; "wireframe"; "scale"].

(** The events that may change the rotation speed. *)
Definition sets_speed (e : Event) : bool :=
  match e with
  | input id _ => bool_decide (id = "rotation-speed")
  | _ => false
  end.

(** ** A page to run the program on *)

(** An element with these classes and no canvas yet. *)
Definition panel (classes : list string) : Element := Build_Element classes [].

(** The ten elements of the page, the basic view shown. *)
Definition sample_page : gmap string Element :=
  list_to_map
    [("basic-view", panel ["view"; "active"]); ("enhanced-view", panel ["view"]);
     ("basic-scene", panel ["scene"]); ("enhanced-scene", panel ["scene"]);
     ("enhanced-btn", panel ["btn"]); ("back-btn", panel ["btn"]);
     ("rotation-speed", panel []); ("cube-color", panel []);
     ("wireframe", panel []); ("scale", panel [])].

(** A host whose [parseFloat] knows the two values the examples type in. *)
Definition sample_host : Host :=
  Build_Host (fun x => x) (fun _ => 1%float)
    (fun s => if String.eqb s "0.05" then 0.05%float
              else if String.eqb s "2" then 2%float else nan).

(** The sample page once the script has run, in a window of 800 by 600. *)
Definition sample_load : World := loaded sample_host sample_page 0 800 600.

(** ** The library calls of [dispose] *)

(** The library calls [dispose]'s traversal callback makes on one object. *)
Definition disposals (o : THREE.Object3D) : list THREE.Call :=
  match THREE.geometry (THREE.props_of o) with
  | Some g => [THREE.geometry_dispose (THREE.gid g)]
  | None => []
  end ++
  match THREE.material (THREE.props_of o) with
  | THREE.NoMaterial => []
  | THREE.OneMaterial m => [THREE.material_dispose (THREE.mid m)]
  | THREE.MaterialArray ms => (λ m, THREE.material_dispose (THREE.mid m)) <$> ms
  end.

(** [if (this.renderer) this.renderer.dispose()]. *)
Definition renderer_calls (r : option THREE.WebGLRenderer) : list THREE.Call :=
  match r with
  | Some r => [THREE.renderer_dispose (THREE.rid r)]
  | None => []
  end.

(** [if (this.scene) this.scene.traverse(...)]. *)
Definition scene_calls (s : option THREE.Object3D) : list THREE.Call :=
  match s with
  | Some s => flat_map disposals (THREE.traverse s)
  | None => []
  end.

(** [if (this.controls) this.controls.dispose()]. *)
Definition controls_dispose_calls (c : option THREE.OrbitControls) : list THREE.Call :=
  match c with
  | Some c => [THREE.controls_dispose (THREE.cid c)]
  | None => []
  end.

(** The scale of the cube of the enhanced scene [e], read off the page. *)
Definition cube_scale (w : World) (e : nat) : option THREE.Vector3 :=
  o ← enhanceds w !! e;
  s ← Enhanced.scene o;
  c ← Enhanced.cube o;
  n ← THREE.find c s;
  Some (THREE.scale (THREE.props_of n)).

(** The identities of the objects of a scene graph, in traversal order. *)
Definition scene_ids (s : THREE.Object3D) : list nat := THREE.id_of <$> THREE.traverse s.

(** The kinds of the objects of a scene graph, in traversal order. *)
Definition scene_kinds (s : THREE.Object3D) : list THREE.ObjectKind :=
  (λ n, THREE.kind (THREE.props_of n)) <$> THREE.traverse s.

(** Each object of a scene graph with the identities of its children, in
    traversal order. *)
Definition scene_children (s : THREE.Object3D) : list (nat * list nat) :=
  (λ n, (THREE.id_of n, THREE.id_of <$> THREE.children_of n)) <$> THREE.traverse s.

(** How [EnhancedScene.init] lays the scene out when the first identity
    it draws is [n]: the scene, the cube with the wireframe under it,
    the ambient light, the five point lights, the directional light and
    the particles. *)
Definition EnhancedLayout (n : nat) (o : Enhanced.Fields) : Prop :=
  Enhanced.cube o = Some (n + 4) ∧ Enhanced.wireframe o = Some (n + 7)
  ∧ Enhanced.lights o = Some [n + 9; n + 10; n + 11; n + 12; n + 13]
  ∧ Enhanced.particles o = Some (n + 17)
  ∧ scene_ids <$> Enhanced.scene o
    = Some [n; n + 4; n + 7; n + 8; n + 9; n + 10; n + 11; n + 12; n + 13; n + 14; n + 17].

(** Every enhanced scene of the page is laid out as [init] lays it out,
    from the identity after its own. *)
Definition LaidOut (w : World) : Prop :=
  forall e o, enhanceds w !! e = Some o -> EnhancedLayout (S e) o.

(** The scene graph [init] leaves: the scene, the cube turned once by
    the first pass of [animate], and the three lights, in this order,
    with identities from [n] on. *)
Definition basic_scene_built (n : nat) : THREE.Object3D :=
  THREE.Node n
    (THREE.new_object (THREE.Scene (THREE.ColorHex 0x0a0a0f)) None THREE.NoMaterial None)
    [THREE.Node (n + 4)
       (THREE.set_rotation (THREE.vec3 0.005 0.005 0)
          (THREE.with_shadows true true
             (THREE.new_object THREE.Mesh
                (Some (THREE.Build_Geometry (n + 2) (THREE.BoxGeometry 2 2 2)))
                (THREE.OneMaterial
                   (THREE.Build_Material (n + 3) THREE.MeshLambertMaterial
                      (Some (THREE.ColorHex 0x6366f1)) false 1))
                None))) [];
     THREE.Node (n + 5)
       (THREE.new_object (THREE.AmbientLight (THREE.ColorHex 0x404040)) None
          THREE.NoMaterial (Some 0.6%float)) [];
     THREE.Node (n + 6)
       (THREE.with_shadows true false
          (THREE.set_position (THREE.vec3 5 5 5)
             (THREE.new_object (THREE.DirectionalLight (THREE.ColorHex 0xffffff) 2048 2048)
                None THREE.NoMaterial (Some 1%float)))) [];
     THREE.Node (n + 7)
       (THREE.set_position (THREE.vec3 (-5) (-5) 5)
          (THREE.new_object (THREE.PointLight (THREE.ColorHex 0x8b5cf6) 100)
             None THREE.NoMaterial (Some 0.5%float))) []].

(** What [EnhancedScene.init] has made when [container.appendChild]
    throws: the empty scene, the camera and the renderer. *)
Definition enhanced_half_built (n : nat) (iw ih : float) : Enhanced.Fields :=
  Enhanced.set_renderer
    (Some (THREE.set_toneMapping THREE.ACESFilmicToneMapping 1
             (THREE.set_shadowMap true THREE.PCFSoftShadowMap
                (THREE.setSize iw ih (THREE.new_renderer (n + 1))))))
    (Enhanced.set_camera
       (Some (THREE.Build_PerspectiveCamera 75 (iw / ih) 0.1 1000 (THREE.vec3 0 0 6)))
       (Enhanced.set_scene
          (Some (THREE.Node n
                   (THREE.new_object (THREE.Scene (THREE.ColorHex 0x060610)) None
                      THREE.NoMaterial None) []))
          Enhanced.fresh)).

(** What one pass of [animate] does to the object [i] of a scene laid out
    from [n]: the cube is turned and bobs, light [k] moves to its place
    on the circle and flickers, the particles turn, and the scene, the
    wireframe, the ambient and the directional light are left alone. *)
Definition tick_of_object (n : nat) (h : Host) (t : float) (speed : float) (i : nat)
    (p : THREE.Props) : THREE.Props :=
  let time := (t * 0.001)%float in
  if Nat.eqb i (n + 4) then
    THREE.set_rotation
      (THREE.vec3 (THREE.x (THREE.rotation p) + speed) (THREE.y (THREE.rotation p) + speed)
         (THREE.z (THREE.rotation p)))
      (THREE.set_position
         (THREE.vec3 (THREE.x (THREE.position p)) (Math_sin h (time * 0.5) * 0.3)
            (THREE.z (THREE.position p))) p)
  else if Nat.eqb i (n + 17) then
    THREE.set_rotation
      (THREE.vec3 (THREE.x (THREE.rotation p) + 0.002) (THREE.y (THREE.rotation p) + 0.002)
         (THREE.z (THREE.rotation p))) p
  else if Nat.leb (n + 9) i && Nat.leb i (n + 13) then
    let k := i - (n + 9) in
    let angle := (time * 0.5 + number k / number 5 * Math_PI * 2)%float in
    THREE.set_intensity (0.8 + Math_sin h (time * 2 + number k) * 0.3)
      (THREE.set_position
         (THREE.vec3 (Math_cos h angle * 8) (Math_sin h angle * 8)
            (THREE.z (THREE.position p))) p)
  else p.

(** The sample page without the element [id]. *)
Definition sample_page_without (id : string) : gmap string Element := delete id sample_page.

(** The sample page with the enhanced view shown. *)
Definition sample_enhanced : World := step sample_load showEnhancedView.

(** * Properties *)

(** ** Finding and updating the objects of a scene graph *)

Lemma find_id i o n : THREE.find i o = Some n -> THREE.id_of n = i.
Proof.
  revert n. induction o as [j p cs IH] using Object3D_nested_ind. intros n.
  cbn. destruct (Nat.eqb_spec j i) as [->|Hne].
  - intros [= <-]. reflexivity.
  - induction IH as [|c cs' Hc _ IHcs]; [discriminate|].
    destruct (THREE.find i c) as [r|] eqn:Hr.
    + intros [= <-]. by apply Hc.
    + apply IHcs.
Qed.

Lemma update_id j f o : THREE.id_of (THREE.update j f o) = THREE.id_of o.
Proof. by destruct o. Qed.

Lemma update_props j f o :
  THREE.props_of (THREE.update j f o)
  = if Nat.eqb (THREE.id_of o) j then f (THREE.props_of o) else THREE.props_of o.
Proof. by destruct o. Qed.

(** A property write does not move objects: what was found is found. *)
Lemma find_update i j f o :
  THREE.find i (THREE.update j f o) = THREE.update j f <$> THREE.find i o.
Proof.
  induction o as [k p cs IH] using Object3D_nested_ind.
  cbn. destruct (Nat.eqb k i); [reflexivity|].
  induction IH as [|c cs' Hc _ IHcs]; [reflexivity|].
  cbn. rewrite Hc. destruct (THREE.find i c); [reflexivity|]. apply IHcs.
Qed.

(** ** The traversal sees every object of the graph *)

Lemma traverse_complete n o : in_graph n o -> n ∈ THREE.traverse o.
Proof.
  induction 1 as [|i p cs c Hc _ IH].
  - destruct n. cbn. left.
  - cbn. right. apply list_elem_of_In, in_flat_map. exists c.
    split; by apply list_elem_of_In.
Qed.

(** ** Running a method by hand *)

Lemma alter_known {A} (f : A -> A) (m : gmap nat A) i a :
  m !! i = Some a -> alter f i m = <[i := f a]> m.
Proof.
  intros H. apply map_eq. intros k. destruct (decide (i = k)) as [->|].
  - by rewrite lookup_alter_eq, lookup_insert_eq, H.
  - by rewrite lookup_alter_ne, lookup_insert_ne.
Qed.

Lemma alter_missing {A} (f : A -> A) (m : gmap nat A) i :
  m !! i = None -> alter f i m = m.
Proof.
  intros H. apply map_eq. intros k. destruct (decide (i = k)) as [->|].
  - by rewrite lookup_alter_eq, H.
  - by rewrite lookup_alter_ne.
Qed.

Lemma filter_ne_idem {A} (h : nat) (l : list (nat * A)) :
  filter (λ c, c.1 ≠ h) (filter (λ c, c.1 ≠ h) l) = filter (λ c, c.1 ≠ h) l.
Proof.
  induction l as [|a l IH]; [reflexivity|].
  rewrite (filter_cons _ a l). case_decide.
  - rewrite filter_cons. case_decide; [|done]. by rewrite IH.
  - apply IH.
Qed.

(** Unfolds the program and the record plumbing, and nothing of the maps
    or of arithmetic. *)
Ltac run := cbv beta iota zeta delta
  [bind ret throw gets modify when try_catch state_after completion_of
   fresh_id getElementById on_element addEventListener take_handle requestAnimationFrame
   cancelAnimationFrame setTimeout call render truthy negb fst snd
   fmap option_fmap option_map default mbind option_bind
   host now innerWidth innerHeight document listeners frameCallbacks timers nextHandle
   nextId library basics enhanceds app threejsApp
   set_now set_inner set_document set_listeners set_frameCallbacks
   set_timers set_nextHandle set_nextId set_library set_basics set_enhanceds set_app
   set_threejsApp
   Application.basicScene Application.enhancedScene Application.currentView
   Application.set_basicScene Application.set_enhancedScene Application.set_currentView
   Basic.scene Basic.camera Basic.renderer Basic.cube Basic.animationId Basic.isAnimating
   Basic.fresh Basic.set_scene Basic.set_camera Basic.set_renderer
   Basic.set_cube Basic.set_animationId Basic.set_isAnimating
   Enhanced.scene Enhanced.camera Enhanced.renderer Enhanced.cube Enhanced.controls
   Enhanced.animationId Enhanced.isAnimating Enhanced.rotationSpeed Enhanced.mouseX
   Enhanced.mouseY Enhanced.targetRotationX Enhanced.targetRotationY Enhanced.wireframe
   Enhanced.lights Enhanced.particles
   Enhanced.fresh Enhanced.set_scene Enhanced.set_camera
   Enhanced.set_renderer Enhanced.set_cube Enhanced.set_controls Enhanced.set_animationId
   Enhanced.set_isAnimating Enhanced.set_rotationSpeed Enhanced.set_mouse
   Enhanced.set_wireframe Enhanced.set_lights Enhanced.set_particles
   BasicScene.read BasicScene.write BasicScene.constructor
   BasicScene.createScene BasicScene.createCamera BasicScene.createRenderer
   BasicScene.scene_add BasicScene.createCube BasicScene.addLights BasicScene.update_object
   BasicScene.onWindowResize BasicScene.init
   EnhancedScene.read EnhancedScene.write EnhancedScene.constructor
   EnhancedScene.scene_add EnhancedScene.update_object EnhancedScene.object_props
   EnhancedScene.createEnhancedCube EnhancedScene.addEnhancedLights
   EnhancedScene.addParticles EnhancedScene.addOrbitControls EnhancedScene.listen
   EnhancedScene.bindControls EnhancedScene.addMouseInteraction
   EnhancedScene.onWindowResize EnhancedScene.init EnhancedScene.on_rotationSpeed
   EnhancedScene.on_color EnhancedScene.on_wireframe EnhancedScene.on_scale
   EnhancedScene.on_mousemove EnhancedScene.on_click EnhancedScene.pulse_end
   App.write App.initializeBasicScene App.initializeEnhancedScene
   App.bindEnhancedViewButton App.bindBackButton App.bindWindowResize App.bindEvents
   App.init App.constructor App.handleWindowResize App.hideBasicView
   App.showEnhancedViewUI App.hideEnhancedView App.showBasicViewUI App.pauseBasicScene
   App.resumeBasicScene App.pauseEnhancedScene App.resumeEnhancedScene
   App.showEnhancedView App.showBasicView App.dispose App.main
   run_listener run_callback payload_value payload_checked payload_mouse
   for_each_indexed EnhancedScene.light_colors].

Ltac heap := repeat first
  [ rewrite lookup_insert_eq | rewrite alter_insert_eq | rewrite insert_insert_eq ].

(** Identities handed out in sequence differ. *)
Ltac ids := repeat match goal with
  | |- context [Nat.eqb ?a ?a] => rewrite (Nat.eqb_refl a)
  | |- context [Nat.eqb ?a ?b] => rewrite (proj2 (Nat.eqb_neq a b)) by lia
  end.

Ltac go := repeat (progress (run; heap)).

(** The same on the bodies of [animate] and [pause]; elsewhere these two
    are replaced by their effect. *)
Ltac enter := unfold BasicScene.animate, BasicScene.pause, EnhancedScene.animate,
  EnhancedScene.pause; run.

(** ** What the methods of [BasicScene] do *)

Lemma basic_animate_missing w this :
  basics w !! this = None -> BasicScene.animate this w = (Throw, w).
Proof. intros H. destruct w. cbn in H. enter. by rewrite H. Qed.

Lemma basic_animate_paused w this o :
  basics w !! this = Some o -> Basic.isAnimating o = false ->
  BasicScene.animate this w = (Normal tt, w).
Proof. intros H Ha. destruct w, o. cbn in *. subst. enter. by rewrite H. Qed.

Lemma basic_animate_running w this o r s c :
  basics w !! this = Some o -> Basic.isAnimating o = true ->
  Basic.renderer o = Some r -> Basic.scene o = Some s -> Basic.camera o = Some c ->
  BasicScene.animate this w
  = (Normal tt,
     set_library (library w ++ [THREE.render (THREE.rid r) (THREE.id_of s)])
       (set_basics (<[this := basic_tick (nextHandle w) o]> (basics w))
          (requested (basic_animate this) w))).
Proof.
  intros H Ha Hr Hs Hc. destruct w, o. cbn in *. subst.
  enter. rewrite H. run. rewrite (alter_known _ _ _ _ H).
  unfold basic_tick, requested. destruct cube; go; by rewrite ?update_id.
Qed.

(** Without a renderer, scene or camera the pass still books the next
    frame and turns the cube, and then throws inside [render]. *)
Lemma basic_animate_broken w this o :
  basics w !! this = Some o -> Basic.isAnimating o = true ->
  Basic.renderer o = None ∨ Basic.scene o = None ∨ Basic.camera o = None ->
  BasicScene.animate this w
  = (Throw,
     set_basics (<[this := basic_tick (nextHandle w) o]> (basics w))
       (requested (basic_animate this) w)).
Proof.
  intros H Ha Hn. destruct w, o. cbn in *. subst.
  enter. rewrite H. run. rewrite (alter_known _ _ _ _ H).
  unfold basic_tick, requested.
  destruct cube; go;
    destruct renderer, scene, camera; go; try reflexivity;
    destruct Hn as [?|[?|?]]; discriminate.
Qed.

Lemma basic_pause_eq w this o :
  basics w !! this = Some o ->
  BasicScene.pause this w
  = (Normal tt,
     set_frameCallbacks (cancelled (Basic.animationId o) (frameCallbacks w))
       (set_basics (<[this := Basic.set_isAnimating false o]> (basics w)) w)).
Proof.
  intros H. destruct w, o. cbn in *.
  enter. rewrite (alter_known _ _ _ _ H). go. unfold cancelled.
  by destruct animationId as [[|h]|].
Qed.

Lemma basic_resume_eq w this o :
  basics w !! this = Some o ->
  BasicScene.resume this w
  = BasicScene.animate this
      (set_basics (<[this := Basic.set_isAnimating true o]> (basics w)) w).
Proof.
  intros H. destruct w. cbn in *. unfold BasicScene.resume, BasicScene.write, bind, modify.
  cbn. by rewrite (alter_known _ _ _ _ H).
Qed.

Lemma basic_onWindowResize_eq w this o c r :
  basics w !! this = Some o -> Basic.camera o = Some c -> Basic.renderer o = Some r ->
  BasicScene.onWindowResize this w
  = (Normal tt,
     set_library (library w ++ [THREE.updateProjectionMatrix])
       (set_basics
          (<[this := Basic.set_renderer
                (Some (THREE.setSize (innerWidth w) (innerHeight w) r))
                (Basic.set_camera
                   (Some (THREE.set_aspect (innerWidth w / innerHeight w) c)) o)]>
             (basics w)) w)).
Proof.
  intros H Hc Hr. destruct w, o. cbn in *. subst.
  run. rewrite H. run. rewrite (alter_known _ _ _ _ H). by go.
Qed.


(** ** What the methods of [EnhancedScene] do *)

Lemma orbit_lights_loop w this o time h count index ls :
  enhanceds w !! this = Some o ->
  for_each_indexed index ls (fun light index =>
    EnhancedScene.update_object this light (EnhancedScene.orbit_light time index count h)) w
  = (Normal tt,
     set_enhanceds
       (<[this := Enhanced.set_scene (orbit_lights time h count index ls <$> Enhanced.scene o) o]>
          (enhanceds w)) w).
Proof.
  revert w o index. induction ls as [|l ls IH]; intros w o index H.
  - destruct w, o. cbn in *. rewrite insert_id; [reflexivity|].
    rewrite H. by destruct scene.
  - cbn [for_each_indexed]. unfold bind.
    unfold EnhancedScene.update_object at 1. unfold EnhancedScene.write, modify.
    rewrite (alter_known _ _ _ _ H).
    erewrite IH by (cbn; apply lookup_insert_eq).
    destruct w, o. cbn. rewrite insert_insert_eq. by destruct scene.
Qed.

Lemma animate_lights_eq w this o ls time :
  enhanceds w !! this = Some o ->
  EnhancedScene.animate_lights this ls time w
  = (Normal tt,
     set_enhanceds
       (<[this := Enhanced.set_scene
             (orbit_lights time (host w) (length ls) 0 ls <$> Enhanced.scene o) o]>
          (enhanceds w)) w).
Proof.
  intros H. unfold EnhancedScene.animate_lights, bind, gets.
  by rewrite (orbit_lights_loop _ _ _ _ _ _ _ _ H).
Qed.

Lemma orbit_lights_id time h count index ls s :
  THREE.id_of (orbit_lights time h count index ls s) = THREE.id_of s.
Proof.
  revert index s. induction ls as [|l ls IH]; intros index s; [reflexivity|].
  cbn. by rewrite IH, update_id.
Qed.

Lemma enhanced_animate_missing w this :
  enhanceds w !! this = None -> EnhancedScene.animate this w = (Throw, w).
Proof. intros H. destruct w. cbn in H. enter. by rewrite H. Qed.

Lemma enhanced_animate_paused w this o :
  enhanceds w !! this = Some o -> Enhanced.isAnimating o = false ->
  EnhancedScene.animate this w = (Normal tt, w).
Proof. intros H Ha. destruct w, o. cbn in *. subst. enter. by rewrite H. Qed.

Ltac lights_loop :=
  try (erewrite animate_lights_eq by (cbn; apply lookup_insert_eq)).

Lemma enhanced_animate_running w this o r s c :
  enhanceds w !! this = Some o -> Enhanced.isAnimating o = true ->
  Enhanced.renderer o = Some r -> Enhanced.scene o = Some s -> Enhanced.camera o = Some c ->
  (is_Some (Enhanced.cube o) -> is_Some (Enhanced.controls o)) ->
  EnhancedScene.animate this w
  = (Normal tt,
     set_library (library w ++ controls_calls (Enhanced.controls o)
                    ++ [THREE.render (THREE.rid r) (THREE.id_of s)])
       (set_enhanceds (<[this := enhanced_tick (nextHandle w) (host w) (now w) o]> (enhanceds w))
          (requested (enhanced_animate this) w))).
Proof.
  intros H Ha Hr Hs Hc Hcc. destruct w, o. cbn in *. subst.
  enter. rewrite H. run. rewrite (alter_known _ _ _ _ H).
  unfold enhanced_tick, enhanced_tick_scene, controls_calls, requested.
  destruct controls as [oc|], cube as [cu|], lights as [ls|], particles as [pa|];
    try (destruct Hcc as [? [=]]; by eauto);
    go; lights_loop; go;
    rewrite ?update_id, ?orbit_lights_id, ?update_id, <- ?app_assoc, ?app_nil_r;
    reflexivity.
Qed.

Lemma enhanced_pause_eq w this o :
  enhanceds w !! this = Some o ->
  EnhancedScene.pause this w
  = (Normal tt,
     set_frameCallbacks (cancelled (Enhanced.animationId o) (frameCallbacks w))
       (set_enhanceds (<[this := Enhanced.set_isAnimating false o]> (enhanceds w)) w)).
Proof.
  intros H. destruct w, o. cbn in *.
  enter. rewrite (alter_known _ _ _ _ H). go. unfold cancelled.
  by destruct animationId as [[|h]|].
Qed.

Lemma enhanced_resume_eq w this o :
  enhanceds w !! this = Some o ->
  EnhancedScene.resume this w
  = EnhancedScene.animate this
      (set_enhanceds (<[this := Enhanced.set_isAnimating true o]> (enhanceds w)) w).
Proof.
  intros H. destruct w. cbn in *.
  unfold EnhancedScene.resume, EnhancedScene.write, bind, modify.
  cbn. by rewrite (alter_known _ _ _ _ H).
Qed.

Lemma enhanced_onWindowResize_eq w this o c r :
  enhanceds w !! this = Some o -> Enhanced.camera o = Some c -> Enhanced.renderer o = Some r ->
  EnhancedScene.onWindowResize this w
  = (Normal tt,
     set_library (library w ++ THREE.updateProjectionMatrix :: controls_calls (Enhanced.controls o))
       (set_enhanceds
          (<[this := Enhanced.set_renderer
                (Some (THREE.setSize (innerWidth w) (innerHeight w) r))
                (Enhanced.set_camera
                   (Some (THREE.set_aspect (innerWidth w / innerHeight w) c)) o)]>
             (enhanceds w)) w)).
Proof.
  intros H Hc Hr. destruct w, o. cbn in *. subst.
  run. rewrite H. run. rewrite (alter_known _ _ _ _ H). unfold controls_calls.
  destruct controls; go; by rewrite <- ?app_assoc.
Qed.


(** ** The listeners and delayed callbacks of [EnhancedScene] *)

Lemma on_rotationSpeed_eq w this value :
  EnhancedScene.on_rotationSpeed this value w
  = (Normal tt,
     set_enhanceds
       (alter (Enhanced.set_rotationSpeed (parseFloat (host w) value)) this (enhanceds w)) w).
Proof. by destruct w. Qed.

Lemma on_mousemove_eq w this cx cy :
  EnhancedScene.on_mousemove this cx cy w
  = (Normal tt,
     set_enhanceds
       (alter (Enhanced.set_mouse (cx / innerWidth w * 2 - 1) (- (cy / innerHeight w) * 2 + 1)
                 ((- (cy / innerHeight w) * 2 + 1) * 0.5) ((cx / innerWidth w * 2 - 1) * 0.5))
          this (enhanceds w)) w).
Proof. by destruct w. Qed.

Lemma on_scale_eq w this value o c :
  enhanceds w !! this = Some o -> Enhanced.cube o = Some c ->
  EnhancedScene.on_scale this value w
  = (Normal tt,
     set_enhanceds
       (<[this := in_scene c
             (THREE.set_scale (THREE.vec3 (parseFloat (host w) value)
                (parseFloat (host w) value) (parseFloat (host w) value))) o]>
          (enhanceds w)) w).
Proof.
  intros H Hc. destruct w, o. cbn in *. subst.
  run. rewrite H. run. by rewrite (alter_known _ _ _ _ H).
Qed.

Lemma on_color_eq w this value o c p m :
  enhanceds w !! this = Some o -> Enhanced.cube o = Some c ->
  EnhancedScene.object_props o c = Some p -> THREE.material p = THREE.OneMaterial m ->
  EnhancedScene.on_color this value w
  = (Normal tt,
     set_enhanceds
       (<[this := in_scene c (EnhancedScene.recolor (THREE.ColorCss value)) o]> (enhanceds w)) w).
Proof.
  intros H Hc Hp Hm. destruct w. cbn in *.
  unfold EnhancedScene.on_color, bind, EnhancedScene.read. cbn. rewrite H, Hc, Hp.
  cbn. rewrite Hm. unfold EnhancedScene.update_object, EnhancedScene.write, modify. cbn.
  by rewrite (alter_known _ _ _ _ H).
Qed.

Lemma on_click_eq w this o c p :
  enhanceds w !! this = Some o -> Enhanced.cube o = Some c ->
  EnhancedScene.object_props o c = Some p ->
  EnhancedScene.on_click this w
  = (Normal tt,
     set_nextHandle (S (nextHandle w))
       (set_timers
          (timers w ++ [(nextHandle w, enhanced_pulse_end this (THREE.x (THREE.scale p)))])
          (set_enhanceds
             (<[this := in_scene c
                   (THREE.set_scale (THREE.vec3 (THREE.x (THREE.scale p) * 1.2)
                      (THREE.x (THREE.scale p) * 1.2) (THREE.x (THREE.scale p) * 1.2))) o]>
                (enhanceds w)) w))).
Proof.
  intros H Hc Hp. destruct w. cbn in *.
  unfold EnhancedScene.on_click, bind, EnhancedScene.read. cbn. rewrite H, Hc, Hp.
  unfold EnhancedScene.update_object, EnhancedScene.write, modify, setTimeout, take_handle,
    bind, ret. cbn.
  by rewrite (alter_known _ _ _ _ H).
Qed.

Lemma edits_nothing this w : edits this (fun o => o) w w.
Proof.
  unfold edits. destruct w. cbn. by rewrite alter_id.
Qed.

Lemma listener_edits w this l p :
  l ∈ [enhanced_rotationSpeed this; enhanced_color this; enhanced_wireframe this;
       enhanced_scale this; enhanced_mousemove this; enhanced_click this] ->
  exists F, enhanced_edit (is_speed_listener l) F
    ∧ edits this F w (state_after (run_listener l p) w).
Proof.
  intros Hl. unfold state_after.
  repeat (apply elem_of_cons in Hl as [->|Hl]); [..|by apply elem_of_nil in Hl].
  - eexists. split; [apply (edit_speed (parseFloat (host w) (payload_value p)))|].
    unfold run_listener. rewrite on_rotationSpeed_eq. by destruct w.
  - destruct (enhanceds w !! this) as [o|] eqn:H;
      [destruct (Enhanced.cube o) as [c|] eqn:Hc;
       [destruct (EnhancedScene.object_props o c) as [pr|] eqn:Hp;
        [destruct (THREE.material pr) as [|m|ms] eqn:Hm|]|]|].
    + exists (fun o => o). split; [constructor|]. destruct w. cbn in *.
      unfold edits, run_listener, EnhancedScene.on_color, bind, EnhancedScene.read.
      cbn. rewrite H, Hc, Hp. cbn. rewrite Hm. cbn. by rewrite alter_id.
    + eexists. split; [apply (edit_color _ c (THREE.ColorCss (payload_value p)))|].
      unfold run_listener. erewrite on_color_eq by eauto.
      destruct w. unfold edits. cbn in *. by rewrite (alter_known _ _ _ _ H).
    + eexists. split; [apply (edit_color _ c (THREE.ColorCss (payload_value p)))|].
      destruct w. cbn in *.
      unfold edits, run_listener, EnhancedScene.on_color, bind, EnhancedScene.read.
      cbn. rewrite H, Hc, Hp. cbn. by rewrite Hm.
    + eexists. split; [apply (edit_color _ c (THREE.ColorCss (payload_value p)))|].
      destruct w. cbn in *.
      unfold edits, run_listener, EnhancedScene.on_color, bind, EnhancedScene.read.
      cbn. by rewrite H, Hc, Hp.
    + exists (fun o => o). split; [constructor|]. destruct w. cbn in *.
      unfold edits, run_listener, EnhancedScene.on_color, bind, EnhancedScene.read.
      cbn. rewrite H, Hc. cbn. by rewrite alter_id.
    + exists (fun o => o). split; [constructor|]. destruct w. cbn in *.
      unfold edits, run_listener, EnhancedScene.on_color, bind, EnhancedScene.read.
      cbn. rewrite H. cbn. by rewrite alter_id.
  - destruct (enhanceds w !! this) as [o|] eqn:H;
      [destruct (Enhanced.wireframe o) as [wf|] eqn:Hw|].
    + eexists. split; [apply (edit_visible _ wf (payload_checked p))|].
      destruct w. cbn in *.
      unfold edits, run_listener, EnhancedScene.on_wireframe, bind, EnhancedScene.read.
      cbn. by rewrite H, Hw.
    + exists (fun o => o). split; [constructor|]. destruct w. cbn in *.
      unfold edits, run_listener, EnhancedScene.on_wireframe, bind, EnhancedScene.read.
      cbn. rewrite H, Hw. cbn. by rewrite alter_id.
    + exists (fun o => o). split; [constructor|]. destruct w. cbn in *.
      unfold edits, run_listener, EnhancedScene.on_wireframe, bind, EnhancedScene.read.
      cbn. rewrite H. cbn. by rewrite alter_id.
  - destruct (enhanceds w !! this) as [o|] eqn:H;
      [destruct (Enhanced.cube o) as [c|] eqn:Hc|].
    + exists (in_scene c (THREE.set_scale (THREE.vec3 (parseFloat (host w) (payload_value p))
        (parseFloat (host w) (payload_value p)) (parseFloat (host w) (payload_value p))))).
      split; [constructor|].
      unfold run_listener. erewrite on_scale_eq by eauto.
      destruct w. unfold edits. cbn in *. by rewrite (alter_known _ _ _ _ H).
    + exists (fun o => o). split; [constructor|]. destruct w. cbn in *.
      unfold edits, run_listener, EnhancedScene.on_scale, bind, EnhancedScene.read, gets.
      cbn. rewrite H, Hc. cbn. by rewrite alter_id.
    + exists (fun o => o). split; [constructor|]. destruct w. cbn in *.
      unfold edits, run_listener, EnhancedScene.on_scale, bind, EnhancedScene.read, gets.
      cbn. rewrite H. cbn. by rewrite alter_id.
  - eexists. split; [apply edit_mouse|].
    unfold run_listener. rewrite on_mousemove_eq. by destruct w.
  - destruct (enhanceds w !! this) as [o|] eqn:H;
      [destruct (Enhanced.cube o) as [c|] eqn:Hc;
       [destruct (EnhancedScene.object_props o c) as [pr|] eqn:Hp|]|].
    + exists (in_scene c (THREE.set_scale (THREE.vec3 (THREE.x (THREE.scale pr) * 1.2)
        (THREE.x (THREE.scale pr) * 1.2) (THREE.x (THREE.scale pr) * 1.2)))).
      split; [constructor|].
      unfold run_listener. erewrite on_click_eq by eauto.
      destruct w. unfold edits. cbn in *. by rewrite (alter_known _ _ _ _ H).
    + exists (fun o => o). split; [constructor|]. destruct w. cbn in *.
      unfold edits, run_listener, EnhancedScene.on_click, bind, EnhancedScene.read.
      cbn. rewrite H, Hc, Hp. cbn. by rewrite alter_id.
    + exists (fun o => o). split; [constructor|]. destruct w. cbn in *.
      unfold edits, run_listener, EnhancedScene.on_click, bind, EnhancedScene.read.
      cbn. rewrite H, Hc. cbn. by rewrite alter_id.
    + exists (fun o => o). split; [constructor|]. destruct w. cbn in *.
      unfold edits, run_listener, EnhancedScene.on_click, bind, EnhancedScene.read.
      cbn. rewrite H. cbn. by rewrite alter_id.
Qed.

Lemma pulse_end_edits w this s :
  exists F, enhanced_edit false F
    ∧ edits this F w (state_after (EnhancedScene.pulse_end this s) w).
Proof.
  unfold state_after.
  destruct (enhanceds w !! this) as [o|] eqn:H;
    [destruct (Enhanced.cube o) as [c|] eqn:Hc|].
  - eexists. split; [apply (edit_scale _ c (THREE.vec3 s s s))|].
    destruct w. cbn in *.
    unfold edits, EnhancedScene.pulse_end, bind, EnhancedScene.read.
    cbn. by rewrite H, Hc.
  - exists (fun o => o). split; [constructor|]. destruct w. cbn in *.
    unfold edits, EnhancedScene.pulse_end, bind, EnhancedScene.read.
    cbn. rewrite H, Hc. cbn. by rewrite alter_id.
  - exists (fun o => o). split; [constructor|]. destruct w. cbn in *.
    unfold edits, EnhancedScene.pulse_end, bind, EnhancedScene.read.
    cbn. rewrite H. cbn. by rewrite alter_id.
Qed.

(** ** Steps compose *)

Lemma evolves_refl w : evolves w w.
Proof. by repeat split. Qed.

Lemma evolves_trans w1 w2 w3 : evolves w1 w2 -> evolves w2 w3 -> evolves w1 w3.
Proof.
  intros (Hh & Hb & He) (Hh' & Hb' & He'). repeat split; try congruence.
  - destruct (He e) as [H1 _]; [done|]. by destruct (He' e).
  - destruct (He e) as [H1 H2]; [done|]. destruct (He' e) as [_ H3]; [done|]. congruence.
Qed.

Lemma same_speed_refl w : same_speed w w.
Proof. intros this o H. by rewrite H. Qed.

Lemma same_speed_trans w1 w2 w3 : same_speed w1 w2 -> same_speed w2 w3 -> same_speed w1 w3.
Proof.
  intros H1 H2 this o H. specialize (H1 this o H).
  destruct (enhanceds w2 !! this) as [o2|] eqn:E; [|discriminate].
  cbn in H1. injection H1 as <-. by apply H2.
Qed.

Lemma good_step_refl b w : Inv w -> good_step b w w.
Proof. intros H. split; [done|]. split; [apply evolves_refl|]. intros _. apply same_speed_refl. Qed.

Lemma good_step_trans b w1 w2 w3 :
  good_step b w1 w2 -> good_step b w2 w3 -> good_step b w1 w3.
Proof.
  intros (_ & He & Hs) (Hi & He' & Hs'). split; [done|].
  split; [by eapply evolves_trans|]. intros Hb. eapply same_speed_trans; eauto.
Qed.

(** A loop whose every round is a good step is a good step. *)
Lemma for_each_good {A} b (l : list A) (body : A -> JS unit) w :
  Inv w ->
  (forall a w', a ∈ l -> Inv w' -> good_step b w' (state_after (body a) w')) ->
  good_step b w (state_after (for_each l body) w).
Proof.
  revert w. induction l as [|a l IH]; intros w Hw Hbody.
  - by apply good_step_refl.
  - unfold state_after. cbn [for_each]. unfold bind.
    assert (a ∈ a :: l) as Hin by (apply elem_of_cons; by left).
    pose proof (Hbody a w Hin Hw) as Ha. unfold state_after in Ha.
    destruct (body a w) as [[[]|] w1]; cbn in *; [|done].
    eapply good_step_trans; [exact Ha|]. apply IH; [apply Ha|].
    intros a' w' Hin'. apply Hbody. apply elem_of_cons. by right.
Qed.

(** ** The objects stay initialised *)

Lemma find_update_keeps (P : THREE.Props -> Prop) f i j s n :
  (forall p, P p -> P (f p)) ->
  THREE.find i s = Some n -> P (THREE.props_of n) ->
  exists n', THREE.find i (THREE.update j f s) = Some n' ∧ P (THREE.props_of n').
Proof.
  intros Hf Hn HP. exists (THREE.update j f n). split.
  - by rewrite find_update, Hn.
  - rewrite update_props. destruct (Nat.eqb _ _); auto.
Qed.

Lemma orbit_lights_keeps (P : THREE.Props -> Prop) time h count index ls i s n :
  (forall k p, P p -> P (EnhancedScene.orbit_light time k count h p)) ->
  THREE.find i s = Some n -> P (THREE.props_of n) ->
  exists n', THREE.find i (orbit_lights time h count index ls s) = Some n'
    ∧ P (THREE.props_of n').
Proof.
  intros Hf. revert index s n. induction ls as [|l ls IH]; intros index s n Hn HP.
  - by exists n.
  - cbn. destruct (find_update_keeps P (EnhancedScene.orbit_light time index count h)
      i l s n (Hf index) Hn HP) as (n1 & H1 & HP1). by eapply IH.
Qed.

Lemma enhanced_tick_scene_keeps (P : THREE.Props -> Prop) h t o i s n :
  (forall speed time tx ty sin en p, P p ->
     P (EnhancedScene.spin_cube speed time tx ty sin en p)) ->
  (forall time k count p, P p -> P (EnhancedScene.orbit_light time k count h p)) ->
  (forall p, P p -> P (EnhancedScene.spin_particles p)) ->
  THREE.find i s = Some n -> P (THREE.props_of n) ->
  exists n', THREE.find i (enhanced_tick_scene h t o s) = Some n' ∧ P (THREE.props_of n').
Proof.
  intros Hc Hl Hp Hn HP. unfold enhanced_tick_scene.
  assert (exists n1, THREE.find i
    match Enhanced.cube o with
    | Some c => THREE.update c
        (EnhancedScene.spin_cube (Enhanced.rotationSpeed o) (t * 0.001)
           (Enhanced.targetRotationX o) (Enhanced.targetRotationY o) (Math_sin h)
           (default true (THREE.enabled <$> Enhanced.controls o))) s
    | None => s
    end = Some n1 ∧ P (THREE.props_of n1)) as (n1 & H1 & HP1).
  { destruct (Enhanced.cube o); [|by exists n]. eapply find_update_keeps; eauto. }
  cbv zeta.
  match goal with |- context [THREE.find i match Enhanced.particles o with
      | Some p => THREE.update p _ ?s2 | None => _ end] =>
    assert (exists n2, THREE.find i s2 = Some n2 ∧ P (THREE.props_of n2)) as (n2 & H2 & HP2)
  end.
  { destruct (Enhanced.lights o); [|by exists n1]. eapply orbit_lights_keeps; eauto. }
  destruct (Enhanced.particles o); [|by exists n2]. eapply find_update_keeps; eauto.
Qed.

Lemma spin_keeps_position d p :
  THREE.position (BasicScene.spin d p) = THREE.position p.
Proof. reflexivity. Qed.

Lemma basic_tick_ok h o : BasicOK o -> BasicOK (basic_tick h o).
Proof.
  intros (s & c & cam & r & n & Hs & Hc & Hcam & Hr & Hn & Hp).
  destruct (find_update_keeps (fun p => THREE.position p = THREE.origin)
    (BasicScene.spin 0.005) c c s n) as (n' & Hn' & Hp'); [by intros p|done|done|].
  unfold basic_tick. rewrite Hc. destruct o. cbn in *. subst.
  by exists (THREE.update c (BasicScene.spin 0.005) s), c, cam, r, n'.
Qed.

Lemma spin_cube_keeps_material speed time tx ty sin en p :
  has_one_material p -> has_one_material (EnhancedScene.spin_cube speed time tx ty sin en p).
Proof. unfold has_one_material. by destruct en. Qed.

Lemma enhanced_tick_ok k h t o : EnhancedOK o -> EnhancedOK (enhanced_tick k h t o).
Proof.
  intros (s & cam & r & c & oc & n & Hs & Hcam & Hr & Hc & Hoc & Hen & Hn & Hm & Hpc).
  destruct (enhanced_tick_scene_keeps has_one_material h t o c s n)
    as (n' & Hn' & Hm'); try done.
  { intros. by apply spin_cube_keeps_material. }
  unfold enhanced_tick. destruct o. cbn in *. subst. cbn.
  by eexists _, cam, r, c, oc, n'.
Qed.

Lemma enhanced_edit_ok b F o : enhanced_edit b F -> EnhancedOK o -> EnhancedOK (F o).
Proof.
  intros HF (s & cam & r & c & oc & n & Hs & Hcam & Hr & Hc & Hoc & Hen & Hn & Hm & Hpc).
  destruct HF as [b|v|b mx my tx ty|b i v|b i vis|b i col].
  - by eexists _, cam, r, c, oc, n.
  - destruct o. cbn in *. subst. by eexists _, cam, r, c, oc, n.
  - destruct o. cbn in *. subst. by eexists _, cam, r, c, oc, n.
  - destruct (find_update_keeps has_one_material (THREE.set_scale v) c i s n)
      as (n' & Hn' & Hm'); [by intros p|done|done|].
    destruct o. cbn in *. subst. by eexists _, cam, r, c, oc, n'.
  - destruct (find_update_keeps has_one_material (THREE.set_visible vis) c i s n)
      as (n' & Hn' & Hm'); [by intros p|done|done|].
    destruct o. cbn in *. subst. by eexists _, cam, r, c, oc, n'.
  - destruct (find_update_keeps has_one_material (EnhancedScene.recolor col) c i s n)
      as (n' & Hn' & Hm'); [|done|done|].
    { intros p. unfold has_one_material, EnhancedScene.recolor.
      by destruct (THREE.material p). }
    destruct o. cbn in *. subst. by eexists _, cam, r, c, oc, n'.
Qed.

Lemma enhanced_edit_same b F o :
  enhanced_edit b F ->
  Enhanced.isAnimating (F o) = Enhanced.isAnimating o
  ∧ Enhanced.renderer (F o) = Enhanced.renderer o.
Proof. by intros []. Qed.

(** ** The invariant under changes to one scene object *)

Lemma expected_listeners_alter w w' this F :
  app w' = app w -> enhanceds w' = alter F this (enhanceds w) ->
  (forall o, enhanceds w !! this = Some o ->
     THREE.rid <$> Enhanced.renderer (F o) = THREE.rid <$> Enhanced.renderer o) ->
  expected_listeners w' = expected_listeners w.
Proof.
  intros Ha He Hr. unfold expected_listeners. rewrite Ha, He.
  destruct (Application.enhancedScene (app w)) as [e|]; [|done].
  destruct (decide (this = e)) as [->|Hne].
  - rewrite lookup_alter_eq. destruct (enhanceds w !! e) as [o|] eqn:Ho; [|done].
    cbn. by rewrite Hr.
  - by rewrite lookup_alter_ne.
Qed.

Lemma Inv_alter_enhanced w w' this F :
  Inv w ->
  (forall o, enhanceds w !! this = Some o ->
     EnhancedOK (F o) ∧ Enhanced.isAnimating (F o) = Enhanced.isAnimating o
     ∧ THREE.rid <$> Enhanced.renderer (F o) = THREE.rid <$> Enhanced.renderer o) ->
  document w' = document w -> listeners w' = listeners w -> app w' = app w ->
  basics w' = basics w -> enhanceds w' = alter F this (enhanceds w) ->
  Inv w'.
Proof.
  intros [] HF Hd Hl Ha Hb He. split; rewrite ?Hd, ?Ha, ?Hb; try done.
  - intros e Hp. rewrite He. apply lookup_alter_is_Some. by apply inv_enhanced0.
  - intros k o. rewrite He. intros [(-> & o0 & Ho & ->)|(Hne & Ho)]%lookup_alter_Some.
    + destruct (inv_enhanceds0 _ _ Ho) as (Hp & _ & Hv).
      destruct (HF _ Ho) as (Hok & Hsame & _). rewrite Hsame. by repeat split.
    + by apply inv_enhanceds0.
  - rewrite Hl, inv_listeners0. symmetry. eapply expected_listeners_alter; eauto.
    intros o Ho. by apply HF.
Qed.

Lemma expected_listeners_same w w' :
  app w' = app w -> enhanceds w' = enhanceds w ->
  expected_listeners w' = expected_listeners w.
Proof. intros Ha He. unfold expected_listeners. by rewrite Ha, He. Qed.

Lemma Inv_alter_basic w w' this F :
  Inv w ->
  (forall o, basics w !! this = Some o ->
     BasicOK (F o) ∧ Basic.isAnimating (F o) = Basic.isAnimating o) ->
  document w' = document w -> listeners w' = listeners w -> app w' = app w ->
  enhanceds w' = enhanceds w -> basics w' = alter F this (basics w) ->
  Inv w'.
Proof.
  intros [] HF Hd Hl Ha He Hb. split; rewrite ?Hd, ?Ha, ?He; try done.
  - destruct inv_basic0 as (b & Hp & Hs). exists b. split; [done|].
    rewrite Hb. by apply lookup_alter_is_Some.
  - intros k o. rewrite Hb. intros [(-> & o0 & Ho & ->)|(Hne & Ho)]%lookup_alter_Some.
    + destruct (inv_basics0 _ _ Ho) as (Hp & _ & Hv).
      destruct (HF _ Ho) as (Hok & Hsame). rewrite Hsame. by repeat split.
    + by apply inv_basics0.
  - rewrite Hl, inv_listeners0. symmetry. by apply expected_listeners_same.
Qed.

Lemma Inv_same w w' :
  Inv w ->
  document w' = document w -> listeners w' = listeners w -> app w' = app w ->
  basics w' = basics w -> enhanceds w' = enhanceds w ->
  Inv w'.
Proof.
  intros Hw Hd Hl Ha Hb He. apply (Inv_alter_basic w w' 0 (fun o => o)); try done.
  - intros o Ho. split; [|done]. by destruct (inv_basics w Hw _ _ Ho) as (_ & ? & _).
  - by rewrite alter_id.
Qed.

Lemma alter_as_insert {A} (m : gmap nat A) i a a' :
  m !! i = Some a -> <[i := a']> m = alter (fun _ => a') i m.
Proof. intros H. by rewrite (alter_known _ _ _ _ H). Qed.

Lemma same_speed_alter w w' this F :
  enhanceds w' = alter F this (enhanceds w) ->
  (forall o, enhanceds w !! this = Some o ->
     Enhanced.rotationSpeed (F o) = Enhanced.rotationSpeed o) ->
  same_speed w w'.
Proof.
  intros He HF k o Ho. rewrite He. destruct (decide (this = k)) as [->|Hne].
  - rewrite lookup_alter_eq, Ho. cbn. by rewrite HF.
  - by rewrite lookup_alter_ne, Ho.
Qed.

Lemma enhanced_edit_speed F : enhanced_edit false F -> keeps_speed F.
Proof.
  intros HF o. inversion HF; by subst.
Qed.

Lemma good_edits b w w' this F :
  Inv w -> enhanced_edit (negb b) F -> edits this F w w' ->
  good_step b w w'.
Proof.
  intros Hw HF He. unfold edits in He.
  assert (b = true -> keeps_speed F) as Hs.
  { intros ->. by apply enhanced_edit_speed. }
  assert (document w' = document w ∧ listeners w' = listeners w ∧ app w' = app w
          ∧ basics w' = basics w ∧ enhanceds w' = alter F this (enhanceds w)
          ∧ host w' = host w ∧ nextId w' = nextId w) as (Hd & Hl & Ha & Hb & Hen & Hh & Hn).
  { rewrite He. by destruct w. }
  split; [|split].
  - eapply Inv_alter_enhanced; eauto. intros o Ho.
    destruct (inv_enhanceds w Hw _ _ Ho) as (_ & Hok & _).
    split; [by eapply enhanced_edit_ok|].
    destruct (enhanced_edit_same _ _ o HF) as [-> ->]. done.
  - repeat split; rewrite ?Ha; try done.
  - intros Hbt. eapply same_speed_alter; eauto. intros o _. by apply Hs.
Qed.

(** ** Frame and timer callbacks keep the invariant *)

Lemma good_throw b w : Inv w -> good_step b w w.
Proof. apply good_step_refl. Qed.

Lemma basic_animate_good w this :
  Inv w -> good_step true w (state_after (BasicScene.animate this) w).
Proof.
  intros Hw. unfold state_after.
  destruct (basics w !! this) as [o|] eqn:Ho.
  2: { rewrite basic_animate_missing by done. by apply good_step_refl. }
  destruct (Basic.isAnimating o) eqn:Ha.
  2: { erewrite basic_animate_paused by done. by apply good_step_refl. }
  destruct (inv_basics w Hw _ _ Ho) as (_ & Hok & _).
  pose proof Hok as (s & c & cam & r & n & Hs & Hc & Hcam & Hr & Hn & Hp).
  erewrite basic_animate_running by eauto. cbn [snd].
  split; [|split].
  - eapply (Inv_alter_basic w _ this (fun _ => basic_tick (nextHandle w) o));
      try (by destruct w).
    + intros o' Ho'. split; [by apply basic_tick_ok|].
      rewrite Ho in Ho'. injection Ho' as <-. unfold basic_tick.
      by destruct (Basic.cube o).
    + destruct w. cbn in *. by eapply alter_as_insert.
  - by destruct w.
  - intros _. intros k o' Ho'. destruct w. cbn in *. by rewrite Ho'.
Qed.

Lemma enhanced_animate_good w this :
  Inv w -> good_step true w (state_after (EnhancedScene.animate this) w).
Proof.
  intros Hw. unfold state_after.
  destruct (enhanceds w !! this) as [o|] eqn:Ho.
  2: { rewrite enhanced_animate_missing by done. by apply good_step_refl. }
  destruct (Enhanced.isAnimating o) eqn:Ha.
  2: { erewrite enhanced_animate_paused by done. by apply good_step_refl. }
  destruct (inv_enhanceds w Hw _ _ Ho) as (_ & Hok & _).
  pose proof Hok as (s & cam & r & c & oc & n & Hs & Hcam & Hr & Hc & Hoc & Hen & Hn & Hm & Hpc).
  erewrite enhanced_animate_running; eauto.
  cbn [snd].
  assert (enhanceds w !! this = Some o ->
    <[this := enhanced_tick (nextHandle w) (host w) (now w) o]> (enhanceds w)
    = alter (fun _ => enhanced_tick (nextHandle w) (host w) (now w) o) this (enhanceds w))
    as Halt by (intros; by eapply alter_as_insert).
  split; [|split].
  - eapply (Inv_alter_enhanced w _ this
      (fun _ => enhanced_tick (nextHandle w) (host w) (now w) o)); try (by destruct w).
    + intros o' Ho'. split; [by apply enhanced_tick_ok|].
      rewrite Ho in Ho'. by injection Ho' as <-.
    + destruct w. cbn in *. by apply Halt.
  - by destruct w.
  - intros _. eapply (same_speed_alter _ _ this
      (fun _ => enhanced_tick (nextHandle w) (host w) (now w) o)).
    + destruct w. cbn in *. by apply Halt.
    + intros o' Ho'. rewrite Ho in Ho'. by injection Ho' as <-.
Qed.

Lemma callback_good w cb :
  Inv w -> good_step true w (state_after (try_catch (run_callback cb)) w).
Proof.
  intros Hw.
  assert (forall m : JS unit, state_after (try_catch m) w = state_after m w) as ->.
  { intros m. unfold state_after, try_catch. by destruct (m w) as [[[]|] ?]. }
  destruct cb as [this|this|this s]; cbn [run_callback].
  - by apply basic_animate_good.
  - by apply enhanced_animate_good.
  - destruct (pulse_end_edits w this s) as (F & HF & He).
    eapply good_edits; eauto.
Qed.

(** ** The listeners of [App] keep the invariant *)

Lemma try_catch_state (m : JS unit) w : snd (try_catch m w) = snd (m w).
Proof. unfold try_catch. by destruct (m w) as [[[]|] ?]. Qed.

(** Unfolds [App] and the browser, and leaves the scenes' methods. *)
Ltac run_app := cbv beta iota zeta delta
  [bind ret throw gets modify when try_catch state_after completion_of
   getElementById on_element addEventListener fst snd
   host now innerWidth innerHeight document listeners frameCallbacks timers nextHandle
   nextId library basics enhanceds app threejsApp
   set_now set_inner set_document set_listeners set_frameCallbacks
   set_timers set_nextHandle set_nextId set_library set_basics set_enhanceds set_app
   set_threejsApp requested
   Application.basicScene Application.enhancedScene Application.currentView
   Application.set_basicScene Application.set_enhancedScene Application.set_currentView
   App.write App.initializeBasicScene App.initializeEnhancedScene
   App.bindEnhancedViewButton App.bindBackButton App.bindWindowResize App.bindEvents
   App.init App.constructor App.handleWindowResize App.hideBasicView
   App.showEnhancedViewUI App.hideEnhancedView App.showBasicViewUI App.pauseBasicScene
   App.resumeBasicScene App.pauseEnhancedScene App.resumeEnhancedScene
   App.showEnhancedView App.showBasicView App.dispose App.main].

Lemma handleWindowResize_basic w b :
  Application.currentView (app w) = "basic" -> Application.basicScene (app w) = Some b ->
  App.handleWindowResize w = try_catch (BasicScene.onWindowResize b) w.
Proof.
  intros Hv Hb. destruct w as [? ? ? ? ? ? ? ? ? ? ? ? ? [] ?]. cbn in *. subst.
  reflexivity.
Qed.

Lemma handleWindowResize_enhanced w e :
  Application.currentView (app w) = "enhanced" ->
  Application.enhancedScene (app w) = Some e ->
  App.handleWindowResize w = try_catch (EnhancedScene.onWindowResize e) w.
Proof.
  intros Hv Hb. destruct w as [? ? ? ? ? ? ? ? ? ? ? ? ? [] ?]. cbn in *. subst.
  reflexivity.
Qed.

Lemma handleWindowResize_idle w :
  Application.currentView (app w) = "enhanced" ->
  Application.enhancedScene (app w) = None ->
  App.handleWindowResize w = (Normal tt, w).
Proof.
  intros Hv Hb. destruct w as [? ? ? ? ? ? ? ? ? ? ? ? ? [] ?]. cbn in *. subst.
  reflexivity.
Qed.

Lemma basic_resized_ok o c' r' :
  BasicOK o -> BasicOK (Basic.set_renderer (Some r') (Basic.set_camera (Some c') o)).
Proof.
  intros (s & cu & cam & rr & n & Hs & Hc & Hcam & Hr & Hn & Hp).
  destruct o. cbn in *. subst. by exists s, cu, c', r', n.
Qed.

Lemma enhanced_resized_ok o c' r' :
  EnhancedOK o ->
  EnhancedOK (Enhanced.set_renderer (Some r') (Enhanced.set_camera (Some c') o)).
Proof.
  intros (s & cam & r & c & oc & n & Hs & Hcam & Hr & Hc & Hoc & Hen & Hn & Hm & Hpc).
  destruct o. cbn in *. subst. by exists s, c', r', c, oc, n.
Qed.

Lemma Inv_insert_basic w w' this o o' :
  Inv w -> basics w' = <[this := o']> (basics w) -> basics w !! this = Some o ->
  BasicOK o' -> Basic.isAnimating o' = Basic.isAnimating o ->
  document w' = document w -> listeners w' = listeners w -> app w' = app w ->
  enhanceds w' = enhanceds w ->
  Inv w'.
Proof.
  intros Hw Hb Ho Hok Ha Hd Hl Hap He.
  apply (Inv_alter_basic w w' this (fun _ => o')); try done.
  - intros o0 Ho0. rewrite Ho in Ho0. by injection Ho0 as <-.
  - rewrite Hb. by eapply alter_as_insert.
Qed.

Lemma Inv_insert_enhanced w w' this o o' :
  Inv w -> enhanceds w' = <[this := o']> (enhanceds w) -> enhanceds w !! this = Some o ->
  EnhancedOK o' -> Enhanced.isAnimating o' = Enhanced.isAnimating o ->
  THREE.rid <$> Enhanced.renderer o' = THREE.rid <$> Enhanced.renderer o ->
  document w' = document w -> listeners w' = listeners w -> app w' = app w ->
  basics w' = basics w ->
  Inv w'.
Proof.
  intros Hw He Ho Hok Ha Hr Hd Hl Hap Hb.
  apply (Inv_alter_enhanced w w' this (fun _ => o')); try done.
  - intros o0 Ho0. rewrite Ho in Ho0. by injection Ho0 as <-.
  - rewrite He. by eapply alter_as_insert.
Qed.

Lemma same_speed_insert w w' this o o' :
  enhanceds w' = <[this := o']> (enhanceds w) -> enhanceds w !! this = Some o ->
  Enhanced.rotationSpeed o' = Enhanced.rotationSpeed o ->
  same_speed w w'.
Proof.
  intros He Ho Hs. apply (same_speed_alter w w' this (fun _ => o')).
  - rewrite He. by eapply alter_as_insert.
  - intros o0 Ho0. rewrite Ho in Ho0. by injection Ho0 as <-.
Qed.

Lemma same_speed_same w w' : enhanceds w' = enhanceds w -> same_speed w w'.
Proof. intros He k o Ho. by rewrite He, Ho. Qed.

Lemma resize_good w :
  Inv w -> good_step true w (state_after App.handleWindowResize w).
Proof.
  intros Hw. unfold state_after.
  destruct (inv_views w Hw) as (bv & ev & _ & _ & [(_ & _ & Hv)|(_ & _ & Hv)]).
  - destruct (inv_basic w Hw) as (b & Hb & [o Ho]).
    rewrite (handleWindowResize_basic _ _ Hv Hb), try_catch_state.
    destruct (inv_basics w Hw _ _ Ho) as (_ & Hok & _).
    pose proof Hok as (s & c & cam & r & n & Hs & Hc & Hcam & Hr & Hn & Hp).
    erewrite basic_onWindowResize_eq by eauto. cbn [snd].
    split; [|split].
    + eapply (Inv_insert_basic w _ b o); [done|by destruct w|done|..];
        try (by destruct w). by eapply basic_resized_ok.
    + by destruct w.
    + intros _. apply same_speed_same. by destruct w.
  - destruct (Application.enhancedScene (app w)) as [e|] eqn:He.
    2: { rewrite handleWindowResize_idle by done. by apply good_step_refl. }
    destruct (inv_enhanced w Hw _ He) as [o Ho].
    rewrite (handleWindowResize_enhanced _ _ Hv He), try_catch_state.
    destruct (inv_enhanceds w Hw _ _ Ho) as (_ & Hok & _).
    pose proof Hok as (s & cam & r & c & oc & n & Hs & Hcam & Hr & Hc & Hoc & Hen & Hn & Hm & Hpc).
    erewrite enhanced_onWindowResize_eq by eauto. cbn [snd].
    split; [|split].
    + eapply (Inv_insert_enhanced w _ e o); [done|by destruct w|done|..];
        try (by destruct w).
      * by eapply enhanced_resized_ok.
      * cbn. by rewrite Hr.
    + by destruct w.
    + intros _. eapply (same_speed_insert w _ e o); [by destruct w|done|done].
Qed.

Ltac side := cbn; first [apply lookup_insert_eq | eassumption | reflexivity].

(** The five parts of the page the invariant reads, after [showBasicView]. *)
Lemma showBasicView_effect w b :
  Inv w -> Application.basicScene (app w) = Some b ->
  let w' := state_after App.showBasicView w in
  document w'
  = alter (add_class "active") "basic-view"
      (alter (remove_class "active") "enhanced-view" (document w))
  ∧ listeners w' = listeners w
  ∧ app w' = Application.set_currentView "basic" (app w)
  ∧ basics w'
    = alter (fun o => basic_tick (nextHandle w) (Basic.set_isAnimating true o)) b (basics w)
  ∧ enhanceds w'
    = match Application.enhancedScene (app w) with
      | Some e => alter (Enhanced.set_isAnimating false) e (enhanceds w)
      | None => enhanceds w
      end
  ∧ host w' = host w ∧ nextId w' = nextId w.
Proof.
  intros Hw Hb.
  destruct (inv_views w Hw) as (bv & ev & Hbv & Hev & _).
  destruct (inv_basic w Hw) as (b' & Hb' & [bo Hbo]).
  assert (b' = b) as -> by congruence.
  destruct (inv_basics w Hw _ _ Hbo) as (_ & Hok & _).
  destruct Hok as (s & c & cam & r & n & Hs & Hc & Hcam & Hr & Hn & Hp).
  pose proof (inv_enhanced w Hw) as He. clear Hw.
  destruct w as [? ? ? ? doc ? ? ? ? ? ? bs es [ab ae av] ?]. cbn in *. subst.
  run_app. rewrite Hev. run_app. rewrite lookup_alter_ne by done. rewrite Hbv. run_app.
  destruct ae as [e|].
  - destruct (He e eq_refl) as [eo Heo].
    erewrite enhanced_pause_eq by side. run_app.
    erewrite basic_resume_eq by side.
    erewrite basic_animate_running by side. run_app.
    rewrite (alter_known _ _ _ _ Hbo), (alter_known _ _ _ _ Heo), insert_insert_eq.
    by repeat split.
  - run_app.
    erewrite basic_resume_eq by side.
    erewrite basic_animate_running by side. run_app.
    rewrite (alter_known _ _ _ _ Hbo), insert_insert_eq. by repeat split.
Qed.

(** ** Initialising the enhanced scene *)

Ltac listed := repeat (apply elem_of_cons; first [by left | right]).

Lemma enhanced_init_spec w this :
  enhanceds w !! this = Some Enhanced.fresh ->
  (forall id, id ∈ enhanced_ids -> is_Some (document w !! id)) ->
  exists o w',
    EnhancedScene.init this "enhanced-scene" w = (Normal tt, w')
    ∧ document w' = alter (add_canvas (S (nextId w))) "enhanced-scene" (document w)
    ∧ listeners w' = listeners w ++ enhanced_listeners this (S (nextId w))
    ∧ app w' = app w ∧ basics w' = basics w
    ∧ enhanceds w' = <[this := o]> (enhanceds w)
    ∧ host w' = host w
    ∧ frameCallbacks w' = frameCallbacks w ++ [(nextHandle w, enhanced_animate this)]
    ∧ EnhancedOK o ∧ Enhanced.isAnimating o = true
    ∧ THREE.rid <$> Enhanced.renderer o = Some (S (nextId w))
    ∧ Enhanced.rotationSpeed o = 0.01%float
    ∧ Enhanced.animationId o = Some (nextHandle w)
    ∧ nextHandle w' = S (nextHandle w).
Proof.
  intros H Hdoc.
  assert (forall id, id ∈ enhanced_ids -> exists e, document w !! id = Some e) as Hd.
  { intros id Hid. by apply Hdoc. }
  destruct (Hd "enhanced-scene") as [c1 H1]; [listed|].
  destruct (Hd "rotation-speed") as [c2 H2]; [listed|].
  destruct (Hd "cube-color") as [c3 H3]; [listed|].
  destruct (Hd "wireframe") as [c4 H4]; [listed|].
  destruct (Hd "scale") as [c5 H5]; [listed|].
  clear Hd Hdoc. destruct w. cbn in *.
  run. rewrite H1. run. rewrite (alter_known _ _ _ _ H). go. ids. go.
  rewrite lookup_alter_ne by done. rewrite H2. go.
  rewrite lookup_alter_ne by done. rewrite H3. go.
  rewrite lookup_alter_ne by done. rewrite H4. go.
  rewrite lookup_alter_ne by done. rewrite H5. go.
  erewrite enhanced_animate_running
    by first [apply lookup_insert_eq | reflexivity | intros _; by eexists].
  eexists _, _. split; [reflexivity|]. cbn.
  split; [done|]. split; [by rewrite <- !app_assoc|].
  do 2 (split; [done|]). split; [by rewrite ?insert_insert_eq|].
  do 2 (split; [done|]).
  split; [|done].
  apply enhanced_tick_ok.
  eexists _, _, _, _, _, _. do 6 (split; [reflexivity|]).
  cbn. ids. cbn. ids. split; [reflexivity|]. split; [exact I|]. intros [=]. lia.
Qed.

Lemma active_add c e : c ∈ classList (add_class c e).
Proof.
  unfold add_class. cbn. case_bool_decide; [done|]. apply elem_of_app. right. by left.
Qed.

Lemma active_remove c e : c ∉ classList (remove_class c e).
Proof.
  unfold remove_class. cbn. intros [Hne _]%list_elem_of_filter. by apply Hne.
Qed.

Lemma showEnhancedView_again w b e :
  Inv w -> Application.basicScene (app w) = Some b ->
  Application.enhancedScene (app w) = Some e ->
  let w' := state_after App.showEnhancedView w in
  document w'
  = alter (add_class "active") "enhanced-view"
      (alter (remove_class "active") "basic-view" (document w))
  ∧ listeners w' = listeners w
  ∧ app w' = Application.set_currentView "enhanced" (app w)
  ∧ basics w' = alter (Basic.set_isAnimating false) b (basics w)
  ∧ enhanceds w'
    = alter (fun o => enhanced_tick (nextHandle w) (host w) (now w)
                        (Enhanced.set_isAnimating true o)) e (enhanceds w)
  ∧ host w' = host w ∧ nextId w' = nextId w.
Proof.
  intros Hw Hb He.
  destruct (inv_views w Hw) as (bv & ev & Hbv & Hev & _).
  destruct (inv_basic w Hw) as (b' & Hb' & [bo Hbo]).
  assert (b' = b) as -> by congruence.
  destruct (inv_enhanced w Hw _ He) as [eo Heo].
  destruct (inv_enhanceds w Hw _ _ Heo) as (_ & Hok & _).
  destruct Hok as (s & cam & r & c & oc & n & Hs & Hcam & Hr & Hc & Hoc & Hen & Hn & Hm & Hpc).
  clear Hw.
  destruct w as [? ? ? ? doc ? ? ? ? ? ? bs es [ab ae av] ?]. cbn in *. subst.
  run_app. rewrite Hbv. run_app. rewrite lookup_alter_ne by done. rewrite Hev. run_app.
  erewrite basic_pause_eq by side. run_app.
  erewrite enhanced_resume_eq by side.
  erewrite enhanced_animate_running
    by first [apply lookup_insert_eq | eassumption | reflexivity
             | intros _; cbn; rewrite Hoc; by eexists].
  run_app.
  rewrite (alter_known _ _ _ _ Hbo), (alter_known _ _ _ _ Heo), insert_insert_eq.
  by repeat split.
Qed.

Lemma no_enhanced_yet w :
  Inv w -> Application.enhancedScene (app w) = None -> enhanceds w = ∅.
Proof.
  intros Hw He. apply map_eq. intros k. rewrite lookup_empty.
  destruct (enhanceds w !! k) as [o|] eqn:Ho; [|done].
  destruct (inv_enhanceds w Hw _ _ Ho) as (Hp & _). congruence.
Qed.

Lemma showEnhancedView_first w b bo :
  Inv w -> Application.basicScene (app w) = Some b -> basics w !! b = Some bo ->
  Application.enhancedScene (app w) = None ->
  let w' := state_after App.showEnhancedView w in
  let e := nextId w in
  exists o,
    document w'
    = alter (add_canvas (S (S e))) "enhanced-scene"
        (alter (add_class "active") "enhanced-view"
           (alter (remove_class "active") "basic-view" (document w)))
    ∧ listeners w' = listeners w ++ enhanced_listeners e (S (S e))
    ∧ app w' = Application.Build_Fields (Some b) (Some e) "enhanced"
    ∧ basics w' = alter (Basic.set_isAnimating false) b (basics w)
    ∧ enhanceds w' = {[e := o]}
    ∧ host w' = host w
    ∧ EnhancedOK o ∧ Enhanced.isAnimating o = true
    ∧ THREE.rid <$> Enhanced.renderer o = Some (S (S e))
    ∧ Enhanced.rotationSpeed o = 0.01%float
    ∧ frameCallbacks w'
      = cancelled (Basic.animationId bo)
          (frameCallbacks w ++ [(nextHandle w, enhanced_animate e)])
        ++ [(S (nextHandle w), enhanced_animate e)].
Proof.
  intros Hw Hb Hbo He.
  destruct (inv_views w Hw) as (bv & ev & Hbv & Hev & _).
  pose proof (inv_elements w Hw) as Hel.
  pose proof (no_enhanced_yet w Hw He) as Hempty. clear Hw.
  destruct w as [? ? ? ? doc ? fc ? nh ni ? bs es [ab ae av] ?]. cbn in *. subst.
  run_app. rewrite Hbv. run_app. rewrite lookup_alter_ne by done. rewrite Hev. run_app.
  unfold EnhancedScene.constructor. run_app. unfold fresh_id. run_app.
  match goal with |- context [EnhancedScene.init ?e ?c ?W] =>
    destruct (enhanced_init_spec W e) as
      (o & w4 & Hinit & Hd4 & Hl4 & Ha4 & Hb4 & He4 & Hh4 & Hf4 & Hok & Han & Hr & Hsp & Hid
       & Hnh)
  end.
  { cbn. apply lookup_insert_eq. }
  { intros id Hid. cbn. rewrite !lookup_alter_is_Some. apply Hel.
    unfold enhanced_ids in Hid. unfold required_ids.
    repeat (apply elem_of_cons in Hid as [->|Hid]); [listed..|by apply elem_of_nil in Hid]. }
  rewrite Hinit. destruct w4. cbn in *. subst. run_app.
  erewrite basic_pause_eq by side. run_app.
  erewrite enhanced_resume_eq by side.
  pose proof Hok as (s & cam & r & c & oc & n & Hs & Hcam & Hrr & Hc & Hoc & Hen & Hn & Hm & Hpc).
  erewrite enhanced_animate_running
    by first [apply lookup_insert_eq | eassumption | reflexivity
             | intros _; cbn; rewrite Hoc; by eexists].
  run_app. eexists. rewrite !insert_insert_eq.
  rewrite (alter_known _ _ _ _ Hbo).
  split; [done|]. split; [done|]. split; [done|]. split; [done|].
  split; [reflexivity|].
  split; [done|].
  split.
  { apply enhanced_tick_ok.
    destruct o. cbn in *. subst. by eexists _, _, _, _, _, _. }
  by destruct o.
Qed.

Lemma basic_flag_ok a o : BasicOK o -> BasicOK (Basic.set_isAnimating a o).
Proof.
  intros (s & c & cam & r & n & Hs & Hc & Hcam & Hr & Hn & Hp).
  destruct o. cbn in *. subst. by exists s, c, cam, r, n.
Qed.

Lemma enhanced_flag_ok a o : EnhancedOK o -> EnhancedOK (Enhanced.set_isAnimating a o).
Proof.
  intros (s & cam & r & c & oc & n & Hs & Hcam & Hr & Hc & Hoc & Hen & Hn & Hm & Hpc).
  destruct o. cbn in *. subst. by exists s, cam, r, c, oc, n.
Qed.

Lemma showBasicView_good w :
  Inv w -> good_step true w (state_after App.showBasicView w).
Proof.
  intros Hw. destruct (inv_basic w Hw) as (b & Hb & [bo Hbo]).
  destruct (showBasicView_effect w b Hw Hb) as (Hd & Hl & Ha & Hbs & Hes & Hh & Hn).
  destruct (inv_views w Hw) as (bv & ev & Hbv & Hev & _).
  generalize dependent (state_after App.showBasicView w). intros w' Hd Hl Ha Hbs Hes Hh Hn.
  assert (Application.basicScene (app w') = Application.basicScene (app w)
          ∧ Application.enhancedScene (app w') = Application.enhancedScene (app w)
          ∧ Application.currentView (app w') = "basic") as (Hpb & Hpe & Hv).
  { rewrite Ha. by destruct (app w). }
  split; [split|split].
  - intros id Hid. rewrite Hd, !lookup_alter_is_Some. by apply (inv_elements w Hw).
  - exists (add_class "active" bv), (remove_class "active" ev). rewrite Hd.
    split; [by rewrite lookup_alter_eq, lookup_alter_ne, Hbv|].
    split; [by rewrite lookup_alter_ne, lookup_alter_eq, Hev|].
    left. split; [apply active_add|]. split; [apply active_remove|done].
  - exists b. rewrite Hpb, Hbs. split; [done|]. by apply lookup_alter_is_Some.
  - intros k o. rewrite Hbs, Hpb, Hv.
    intros [(-> & o0 & Ho & ->)|(Hne & Ho)]%lookup_alter_Some.
    + destruct (inv_basics w Hw _ _ Ho) as (? & Hok & _).
      split; [done|]. split; [|done]. by apply basic_tick_ok, basic_flag_ok.
    + destruct (inv_basics w Hw _ _ Ho) as (? & Hok & _). by repeat split.
  - intros e He. rewrite Hpe in He. rewrite Hes, He.
    apply lookup_alter_is_Some. by apply (inv_enhanced w Hw).
  - intros k o. rewrite Hes, Hpe, Hv. intros Ho.
    destruct (Application.enhancedScene (app w)) as [e|] eqn:He.
    + apply lookup_alter_Some in Ho as [(-> & o0 & Ho & ->)|(Hne & Ho)].
      * destruct (inv_enhanceds w Hw _ _ Ho) as (? & Hok & _).
        split; [done|]. split; [by apply enhanced_flag_ok|]. by destruct o0.
      * destruct (inv_enhanceds w Hw _ _ Ho) as (? & Hok & _). congruence.
    + destruct (inv_enhanceds w Hw _ _ Ho) as (? & Hok & _). congruence.
  - rewrite Hl, (inv_listeners w Hw). unfold expected_listeners. rewrite Hpe, Hes.
    destruct (Application.enhancedScene (app w)) as [e|] eqn:He; [|done].
    rewrite lookup_alter_eq. by destruct (enhanceds w !! e) as [[]|].
  - split; [done|]. split; [done|]. intros e He. by rewrite Hpe.
  - intros _.
    destruct (Application.enhancedScene (app w)) as [e|] eqn:He.
    + eapply same_speed_alter; [exact Hes|]. by intros [].
    + by apply same_speed_same.
Qed.

Lemma showEnhancedView_good w :
  Inv w -> good_step true w (state_after App.showEnhancedView w).
Proof.
  intros Hw. destruct (inv_basic w Hw) as (b & Hb & [bo Hbo]).
  destruct (inv_views w Hw) as (bv & ev & Hbv & Hev & _).
  destruct (Application.enhancedScene (app w)) as [e|] eqn:He.
  - destruct (showEnhancedView_again w b e Hw Hb He) as (Hd & Hl & Ha & Hbs & Hes & Hh & Hn).
    generalize dependent (state_after App.showEnhancedView w).
    intros w' Hd Hl Ha Hbs Hes Hh Hn.
    assert (Application.basicScene (app w') = Application.basicScene (app w)
            ∧ Application.enhancedScene (app w') = Application.enhancedScene (app w)
            ∧ Application.currentView (app w') = "enhanced") as (Hpb & Hpe & Hv).
    { rewrite Ha. by destruct (app w). }
    split; [split|split].
    + intros id Hid. rewrite Hd, !lookup_alter_is_Some. by apply (inv_elements w Hw).
    + exists (remove_class "active" bv), (add_class "active" ev). rewrite Hd.
      split; [by rewrite lookup_alter_ne, lookup_alter_eq, Hbv|].
      split; [by rewrite lookup_alter_eq, lookup_alter_ne, Hev|].
      right. split; [apply active_remove|]. split; [apply active_add|done].
    + exists b. rewrite Hpb, Hbs. split; [done|]. by apply lookup_alter_is_Some.
    + intros k o. rewrite Hbs, Hpb, Hv.
      intros [(-> & o0 & Ho & ->)|(Hne & Ho)]%lookup_alter_Some.
      * destruct (inv_basics w Hw _ _ Ho) as (? & Hok & _).
        split; [done|]. split; [by apply basic_flag_ok|]. by destruct o0.
      * destruct (inv_basics w Hw _ _ Ho) as (? & Hok & _). congruence.
    + intros e' He'. rewrite Hpe, He in He'. injection He' as <-. rewrite Hes.
      apply lookup_alter_is_Some. by apply (inv_enhanced w Hw).
    + intros k o. rewrite Hes, Hpe, Hv, He.
      intros [(-> & o0 & Ho & ->)|(Hne & Ho)]%lookup_alter_Some.
      * destruct (inv_enhanceds w Hw _ _ Ho) as (? & Hok & _).
        split; [done|]. split; [|done]. by apply enhanced_tick_ok, enhanced_flag_ok.
      * destruct (inv_enhanceds w Hw _ _ Ho) as (? & Hok & _). congruence.
    + rewrite Hl, (inv_listeners w Hw). unfold expected_listeners. rewrite Hpe, Hes, He.
      rewrite lookup_alter_eq. by destruct (enhanceds w !! e) as [[]|].
    + split; [done|]. split; [done|]. intros e' He'. by rewrite Hpe.
    + intros _. eapply same_speed_alter; [exact Hes|]. intros o _. reflexivity.
  - destruct (showEnhancedView_first w b bo Hw Hb Hbo He)
      as (o & Hd & Hl & Ha & Hbs & Hes & Hh & Hok & Han & Hr & Hsp).
    pose proof (no_enhanced_yet w Hw He) as Hempty.
    generalize dependent (state_after App.showEnhancedView w).
    intros w' Hd Hl Ha Hbs Hes Hh.
    split; [split|split]; rewrite ?Ha; cbn.
    + intros id Hid. rewrite Hd, !lookup_alter_is_Some. by apply (inv_elements w Hw).
    + exists (remove_class "active" bv), (add_class "active" ev). rewrite Hd.
      split; [by rewrite lookup_alter_ne, lookup_alter_ne, lookup_alter_eq, Hbv|].
      split; [by rewrite lookup_alter_ne, lookup_alter_eq, lookup_alter_ne, Hev|].
      right. split; [apply active_remove|]. split; [apply active_add|done].
    + exists b. rewrite Hbs. split; [done|]. by apply lookup_alter_is_Some.
    + intros k o'. rewrite Hbs.
      intros [(-> & o0 & Ho & ->)|(Hne & Ho)]%lookup_alter_Some.
      * destruct (inv_basics w Hw _ _ Ho) as (? & Hok' & _).
        split; [done|]. split; [by apply basic_flag_ok|]. by destruct o0.
      * destruct (inv_basics w Hw _ _ Ho) as (? & Hok' & _). congruence.
    + intros e' [= <-]. rewrite Hes. by rewrite lookup_singleton_eq.
    + intros k o'. rewrite Hes. intros [-> ->]%lookup_singleton_Some. by repeat split.
    + rewrite Hl, (inv_listeners w Hw). unfold expected_listeners. rewrite He, Ha, Hes. cbn.
      rewrite lookup_singleton_eq. cbn. by rewrite Hr.
    + unfold evolves. rewrite Ha, Hb, He. by repeat split.
    + intros _ k o'. by rewrite Hempty, lookup_empty.
Qed.

(** ** Every event keeps the invariant *)

Lemma good_step_weaken b w w' : good_step true w w' -> good_step b w w'.
Proof. intros (Hi & He & Hs). split; [done|]. split; [done|]. intros _. by apply Hs. Qed.

Lemma listeners_for_elem t ty l w :
  l ∈ listeners_for t ty w <-> (t, ty, l) ∈ listeners w.
Proof.
  unfold listeners_for. rewrite list_elem_of_fmap. split.
  - intros ([[t' ty'] l'] & -> & [[Ht Hty] Hin]%list_elem_of_filter). cbn in *. by subst.
  - intros Hin. exists (t, ty, l). split; [done|]. by apply list_elem_of_filter.
Qed.

Lemma listener_good w0 w t ty l p :
  Inv w0 -> (t, ty, l) ∈ listeners w0 -> ty ≠ "beforeunload" -> Inv w ->
  good_step (negb (is_speed_listener l)) w (state_after (try_catch (run_listener l p)) w).
Proof.
  intros Hw0 Hin Hty Hw. unfold state_after. rewrite try_catch_state.
  rewrite (inv_listeners w0 Hw0) in Hin. unfold expected_listeners in Hin.
  apply elem_of_app in Hin as [Hin|Hin].
  - unfold app_listeners in Hin.
    repeat (apply elem_of_cons in Hin as [[= -> -> ->]|Hin]);
      [..|by apply elem_of_nil in Hin]; cbn [run_listener is_speed_listener negb].
    + by apply showEnhancedView_good.
    + by apply showBasicView_good.
    + by apply resize_good.
    + done.
  - destruct (Application.enhancedScene (app w0)) as [e|]; [|by apply elem_of_nil in Hin].
    destruct (THREE.rid <$> _) as [r|]; [|by apply elem_of_nil in Hin].
    assert (l ∈ [enhanced_rotationSpeed e; enhanced_color e; enhanced_wireframe e;
                 enhanced_scale e; enhanced_mousemove e; enhanced_click e]) as Hl.
    { unfold enhanced_listeners in Hin.
      repeat (apply elem_of_cons in Hin as [[= -> -> ->]|Hin]);
        [listed..|by apply elem_of_nil in Hin]. }
    destruct (listener_edits w e l p Hl) as (F & HF & He).
    eapply good_edits; eauto. by rewrite negb_involutive.
Qed.

Lemma dispatch_good b w t ty p :
  Inv w -> ty ≠ "beforeunload" ->
  (b = true -> forall l, (t, ty, l) ∈ listeners w -> is_speed_listener l = false) ->
  good_step b w (state_after (dispatch t ty p) w).
Proof.
  intros Hw Hty Hb.
  change (state_after (dispatch t ty p) w)
    with (state_after (for_each (listeners_for t ty w)
            (fun l => try_catch (run_listener l p))) w).
  apply for_each_good; [done|]. intros l w' Hl%listeners_for_elem Hw'.
  pose proof (listener_good w w' t ty l p Hw Hl Hty Hw') as H.
  destruct b.
  - by rewrite (Hb eq_refl l Hl) in H.
  - destruct (is_speed_listener l); [done|]. by apply good_step_weaken.
Qed.

Lemma frame_callback_good w h :
  Inv w -> good_step true w (state_after (run_frame_callback h) w).
Proof.
  intros Hw. unfold state_after, run_frame_callback, bind, gets.
  destruct (list_find _ _) as [[i [h' cb]]|]; [|by apply good_step_refl].
  unfold modify.
  eapply good_step_trans; [|apply callback_good].
  - split; [|split].
    + eapply Inv_same; eauto; by destruct w.
    + by destruct w.
    + intros _. apply same_speed_same. by destruct w.
  - eapply Inv_same; eauto; by destruct w.
Qed.

Lemma timer_good w h :
  Inv w -> good_step true w (state_after (timer_fires h) w).
Proof.
  intros Hw. unfold state_after, timer_fires, bind, gets.
  destruct (list_find _ _) as [[i [h' cb]]|]; [|by apply good_step_refl].
  unfold modify.
  eapply good_step_trans; [|apply callback_good].
  - split; [|split].
    + eapply Inv_same; eauto; by destruct w.
    + by destruct w.
    + intros _. apply same_speed_same. by destruct w.
  - eapply Inv_same; eauto; by destruct w.
Qed.

Lemma speed_listener_target w t ty l :
  Inv w -> (t, ty, l) ∈ listeners w -> is_speed_listener l = true ->
  t = element "rotation-speed" ∧ ty = "input".
Proof.
  intros Hw Hin Hl. rewrite (inv_listeners w Hw) in Hin. unfold expected_listeners in Hin.
  apply elem_of_app in Hin as [Hin|Hin].
  - unfold app_listeners in Hin.
    repeat (apply elem_of_cons in Hin as [[= -> -> ->]|Hin]);
      [..|by apply elem_of_nil in Hin]; done.
  - destruct (Application.enhancedScene (app w)) as [e|]; [|by apply elem_of_nil in Hin].
    destruct (THREE.rid <$> _) as [r|]; [|by apply elem_of_nil in Hin].
    unfold enhanced_listeners in Hin.
    repeat (apply elem_of_cons in Hin as [[= -> -> ->]|Hin]);
      [..|by apply elem_of_nil in Hin]; done.
Qed.

Lemma step_good w e :
  Inv w -> good_step (negb (sets_speed e)) w (step w e).
Proof.
  intros Hw. unfold step.
  assert (forall t ty, ty ≠ "input" ->
    forall l, (t, ty, l) ∈ listeners w -> is_speed_listener l = false) as Hother.
  { intros t ty Hty l Hin. destruct (is_speed_listener l) eqn:Hl; [|done].
    by destruct (speed_listener_target w t ty l Hw Hin Hl) as [_ ->]. }
  destruct e as [t|id v|id c|t cx cy|iw ih| |h|t| |]; cbn [handle sets_speed negb].
  - apply dispatch_good; [done|done|]. intros _. by apply Hother.
  - apply dispatch_good; [done|done|]. intros Hb l Hin.
    destruct (is_speed_listener l) eqn:Hl; [|done].
    destruct (speed_listener_target w _ _ l Hw Hin Hl) as [[= ->] _].
    by rewrite bool_decide_eq_true_2 in Hb.
  - apply dispatch_good; [done|done|]. intros _. by apply Hother.
  - apply dispatch_good; [done|done|]. intros _. by apply Hother.
  - unfold state_after, bind, modify. cbn [fst snd].
    assert (Inv (set_inner iw ih w)) as Hw' by (eapply Inv_same; eauto; by destruct w).
    eapply good_step_trans.
    + split; [exact Hw'|]. split; [by destruct w|]. intros _. apply same_speed_same.
      by destruct w.
    + apply dispatch_good; [done|done|]. intros _ l Hin.
      destruct (is_speed_listener l) eqn:Hl; [|done].
      by destruct (speed_listener_target _ _ _ l Hw' Hin Hl) as [_ [=]].
  - unfold state_after, animation_frame, bind, gets.
    apply for_each_good; [done|]. intros h w' _ Hw'. by apply frame_callback_good.
  - by apply timer_good.
  - unfold state_after, modify. cbn.
    split; [eapply Inv_same; eauto; by destruct w|].
    split; [by destruct w|]. intros _. apply same_speed_same. by destruct w.
  - by apply showEnhancedView_good.
  - by apply showBasicView_good.
Qed.

Lemma run_snoc es e w : run (es ++ [e]) w = step (run es w) e.
Proof. unfold run. by rewrite fold_left_app. Qed.

Lemma run_app_events es1 es2 w : run (es1 ++ es2) w = run es2 (run es1 w).
Proof. unfold run. by rewrite fold_left_app. Qed.

Lemma run_Inv es w : Inv w -> Inv (run es w).
Proof.
  revert w. induction es as [|e es IH]; intros w Hw; [done|].
  cbn. apply IH. by apply (step_good w e).
Qed.

(** ** The page once the script has run *)

Lemma main_spec h doc t iw ih :
  index_html doc ->
  exists o w,
    App.main (page h doc t iw ih) = (Normal tt, w)
    ∧ document w = alter (add_canvas 3) "basic-scene" doc
    ∧ listeners w = app_listeners
    ∧ app w = Application.Build_Fields (Some 1) None "basic"
    ∧ basics w = {[1 := o]} ∧ enhanceds w = ∅
    ∧ frameCallbacks w = [(1, basic_animate 1)] ∧ timers w = []
    ∧ nextHandle w = 2 ∧ nextId w = 10
    ∧ library w = [THREE.render 3 2]
    ∧ host w = h ∧ now w = t ∧ innerWidth w = iw ∧ innerHeight w = ih
    ∧ BasicOK o ∧ Basic.isAnimating o = true ∧ Basic.animationId o = Some 1.
Proof.
  intros (Hel & _ & _).
  assert (forall id, id ∈ required_ids -> exists e, doc !! id = Some e) as Hd.
  { intros id Hid. by apply Hel. }
  destruct (Hd "basic-scene") as [c1 H1]; [listed|].
  destruct (Hd "enhanced-btn") as [c2 H2]; [listed|].
  destruct (Hd "back-btn") as [c3 H3]; [listed|].
  clear Hd Hel. eexists _, _. split.
  - unfold page, App.main, App.constructor.
    run. rewrite H1. go. ids. go.
    erewrite basic_animate_running by first [apply lookup_insert_eq | reflexivity].
    unfold requested. run. rewrite lookup_alter_ne by done. rewrite H2. run.
    rewrite lookup_alter_ne by done. rewrite H3. run.
    rewrite ?insert_insert_eq. reflexivity.
  - cbn. do 14 (split; [reflexivity|]).
    split; [|done].
    eexists _, _, _, _, _. do 4 (split; [reflexivity|]). split; reflexivity.
Qed.

Lemma loaded_spec h doc t iw ih :
  index_html doc ->
  let w := loaded h doc t iw ih in
  exists o,
    document w = alter (add_canvas 3) "basic-scene" doc
    ∧ listeners w = app_listeners
    ∧ app w = Application.Build_Fields (Some 1) None "basic"
    ∧ basics w = {[1 := o]} ∧ enhanceds w = ∅
    ∧ frameCallbacks w = [(1, basic_animate 1)] ∧ timers w = []
    ∧ nextHandle w = 2 ∧ nextId w = 10
    ∧ library w = [THREE.render 3 2]
    ∧ host w = h ∧ now w = t ∧ innerWidth w = iw ∧ innerHeight w = ih
    ∧ BasicOK o ∧ Basic.isAnimating o = true ∧ Basic.animationId o = Some 1.
Proof.
  intros Hdoc. destruct (main_spec h doc t iw ih Hdoc) as (o & w & Hw & H).
  exists o. unfold loaded, state_after. by rewrite Hw.
Qed.

Lemma loaded_Inv h doc t iw ih : index_html doc -> Inv (loaded h doc t iw ih).
Proof.
  intros Hdoc.
  destruct (loaded_spec h doc t iw ih Hdoc)
    as (o & Hd & Hl & Ha & Hb & He & _ & _ & _ & _ & _ & _ & _ & _ & _ & Hok & Han & _).
  destruct Hdoc as (Hel & (bv & Hbv & Hact) & (ev & Hev & Hin)).
  generalize dependent (loaded h doc t iw ih). intros w Hd Hl Ha Hb He.
  split; rewrite ?Ha; cbn.
  - intros id Hid. rewrite Hd, lookup_alter_is_Some. by apply Hel.
  - exists bv, ev. rewrite Hd, !lookup_alter_ne by done. split; [done|]. split; [done|].
    by left.
  - exists 1. rewrite Hb. split; [done|]. by rewrite lookup_singleton_eq.
  - intros k o'. rewrite Hb. intros [-> ->]%lookup_singleton_Some. by repeat split.
  - done.
  - intros k o'. by rewrite He, lookup_empty.
  - rewrite Hl. unfold expected_listeners. rewrite Ha. reflexivity.
Qed.

(** Every state the page reaches from its load satisfies the invariant. *)
Lemma reachable_Inv h doc t iw ih es :
  index_html doc -> Inv (run es (loaded h doc t iw ih)).
Proof. intros Hdoc. by apply run_Inv, loaded_Inv. Qed.

Lemma run_evolves es w : Inv w -> evolves w (run es w).
Proof.
  revert w. induction es as [|e es IH]; intros w Hw; [apply evolves_refl|].
  cbn. destruct (step_good w e Hw) as (Hw' & He & _).
  eapply evolves_trans; [exact He|]. by apply IH.
Qed.

(** ** The sample page is one the script expects *)

Lemma sample_page_ok : index_html sample_page.
Proof.
  split; [|split].
  - intros id Hid. unfold required_ids in Hid.
    repeat (apply elem_of_cons in Hid as [->|Hid]); [by eexists..|by apply elem_of_nil in Hid].
  - eexists. split; [reflexivity|]. unfold active. cbn. listed.
  - eexists. split; [reflexivity|]. unfold active. cbn.
    intros [[=]|[]%elem_of_nil]%elem_of_cons.
Qed.

(** * The claims *)

(** C2. After the script has run and whatever events follow (calls of
    [showEnhancedView] and [showBasicView] among them), both view panels
    exist and exactly one of them carries the class [active]: the one
    [App.currentView] names; and the scene of the other view is paused,
    its [isAnimating] being false. *)
Theorem views_are_exclusive h doc t iw ih es :
  index_html doc ->
  let w := run es (loaded h doc t iw ih) in
  exists bv ev,
    document w !! "basic-view" = Some bv ∧ document w !! "enhanced-view" = Some ev
    ∧ ((Application.currentView (app w) = "basic" ∧ active bv ∧ ¬ active ev
        ∧ forall e o, Application.enhancedScene (app w) = Some e ->
            enhanceds w !! e = Some o -> Enhanced.isAnimating o = false)
       ∨ (Application.currentView (app w) = "enhanced" ∧ active ev ∧ ¬ active bv
          ∧ forall b o, Application.basicScene (app w) = Some b ->
              basics w !! b = Some o -> Basic.isAnimating o = false)).
Proof.
  intros Hdoc w. pose proof (reachable_Inv h doc t iw ih es Hdoc) as Hw. fold w in Hw.
  destruct (inv_views w Hw) as (bv & ev & Hbv & Hev & Hcase).
  exists bv, ev. split; [done|]. split; [done|].
  destruct Hcase as [(Hb & He & Hv)|(Hb & He & Hv)]; [left|right].
  - repeat split; try done. intros e o _ Ho. by apply (inv_enhanceds w Hw e o Ho).
  - repeat split; try done. intros b o _ Ho. by apply (inv_basics w Hw b o Ho).
Qed.

Lemma views_are_exclusive_witness :
  index_html sample_page
  ∧ let w := run [showEnhancedView; showBasicView; showEnhancedView] sample_load in
    exists bv ev,
      document w !! "basic-view" = Some bv ∧ document w !! "enhanced-view" = Some ev
      ∧ ((Application.currentView (app w) = "basic" ∧ active bv ∧ ¬ active ev
          ∧ forall e o, Application.enhancedScene (app w) = Some e ->
              enhanceds w !! e = Some o -> Enhanced.isAnimating o = false)
         ∨ (Application.currentView (app w) = "enhanced" ∧ active ev ∧ ¬ active bv
            ∧ forall b o, Application.basicScene (app w) = Some b ->
                basics w !! b = Some o -> Basic.isAnimating o = false)).
Proof.
  split; [exact sample_page_ok|].
  exact (views_are_exclusive sample_host sample_page 0 800 600
           [showEnhancedView; showBasicView; showEnhancedView] sample_page_ok).
Defined.

Lemma basic_tick_cube h o s c n :
  Basic.scene o = Some s -> Basic.cube o = Some c -> THREE.find c s = Some n ->
  exists s' n',
    Basic.scene (basic_tick h o) = Some s' ∧ Basic.cube (basic_tick h o) = Some c
    ∧ THREE.find c s' = Some n'
    ∧ THREE.props_of n' = BasicScene.spin 0.005 (THREE.props_of n).
Proof.
  intros Hs Hc Hn. unfold basic_tick. rewrite Hc. destruct o. cbn in *. subst.
  eexists _, _. split; [reflexivity|]. split; [reflexivity|].
  rewrite find_update, Hn. split; [reflexivity|].
  by rewrite update_props, (find_id _ _ _ Hn), Nat.eqb_refl.
Qed.

(** C4. In every state the page reaches, a tick of the basic scene's
    loop (the frame callback [() => this.animate()] run while
    [isAnimating] is true) finds the cube, adds exactly 0.005 to its
    [rotation.x] and to its [rotation.y], leaves [rotation.z] alone and
    the cube's position at the origin, where it was, and calls
    [renderer.render] exactly once, as its only call into the library. *)
Theorem basic_animation_tick h doc t iw ih es this o :
  index_html doc ->
  let w := run es (loaded h doc t iw ih) in
  basics w !! this = Some o -> Basic.isAnimating o = true ->
  exists s c n r o' s' n',
    Basic.scene o = Some s ∧ Basic.cube o = Some c ∧ THREE.find c s = Some n
    ∧ Basic.renderer o = Some r
    ∧ THREE.position (THREE.props_of n) = THREE.origin
    ∧ completion_of (run_callback (basic_animate this)) w = Normal tt
    ∧ let w' := state_after (run_callback (basic_animate this)) w in
      basics w' !! this = Some o' ∧ Basic.scene o' = Some s' ∧ Basic.cube o' = Some c
      ∧ THREE.find c s' = Some n'
      ∧ THREE.rotation (THREE.props_of n')
        = THREE.vec3 (THREE.x (THREE.rotation (THREE.props_of n)) + 0.005)%float
                     (THREE.y (THREE.rotation (THREE.props_of n)) + 0.005)%float
                     (THREE.z (THREE.rotation (THREE.props_of n)))
      ∧ THREE.position (THREE.props_of n') = THREE.origin
      ∧ library w' = library w ++ [THREE.render (THREE.rid r) (THREE.id_of s)].
Proof.
  intros Hdoc w Ho Ha. pose proof (reachable_Inv h doc t iw ih es Hdoc) as Hw. fold w in Hw.
  destruct (inv_basics w Hw _ _ Ho)
    as (_ & (s & c & cam & r & n & Hs & Hc & Hcam & Hr & Hn & Hp) & _).
  destruct (basic_tick_cube (nextHandle w) o s c n Hs Hc Hn) as (s' & n' & Hs' & Hc' & Hn' & Hp').
  exists s, c, n, r, (basic_tick (nextHandle w) o), s', n'.
  do 5 (split; [done|]).
  unfold completion_of, state_after. cbn [run_callback].
  rewrite (basic_animate_running w this o r s cam Ho Ha Hr Hs Hcam). cbn [fst snd].
  split; [done|]. cbv zeta.
  split; [destruct w; cbn; apply lookup_insert_eq|].
  do 3 (split; [done|]). rewrite Hp'.
  split; [reflexivity|]. split; [by rewrite spin_keeps_position|]. by destruct w.
Qed.

Lemma basic_animation_tick_witness :
  exists o,
    index_html sample_page
    ∧ basics (run [] sample_load) !! 1 = Some o ∧ Basic.isAnimating o = true
    ∧ exists s c n r o' s' n',
        Basic.scene o = Some s ∧ Basic.cube o = Some c ∧ THREE.find c s = Some n
        ∧ Basic.renderer o = Some r
        ∧ THREE.position (THREE.props_of n) = THREE.origin
        ∧ completion_of (run_callback (basic_animate 1)) (run [] sample_load) = Normal tt
        ∧ let w' := state_after (run_callback (basic_animate 1)) (run [] sample_load) in
          basics w' !! 1 = Some o' ∧ Basic.scene o' = Some s' ∧ Basic.cube o' = Some c
          ∧ THREE.find c s' = Some n'
          ∧ THREE.rotation (THREE.props_of n')
            = THREE.vec3 (THREE.x (THREE.rotation (THREE.props_of n)) + 0.005)%float
                         (THREE.y (THREE.rotation (THREE.props_of n)) + 0.005)%float
                         (THREE.z (THREE.rotation (THREE.props_of n)))
          ∧ THREE.position (THREE.props_of n') = THREE.origin
          ∧ library w' = library (run [] sample_load)
                         ++ [THREE.render (THREE.rid r) (THREE.id_of s)].
Proof.
  destruct (basics (run [] sample_load) !! 1) as [o|] eqn:Ho; [|by vm_compute in Ho].
  assert (Basic.isAnimating o = true) as Ha.
  { vm_compute in Ho. by injection Ho as <-. }
  exists o. split; [exact sample_page_ok|]. split; [reflexivity|]. split; [exact Ha|].
  exact (basic_animation_tick sample_host sample_page 0 800 600 [] 1 o sample_page_ok Ho Ha).
Defined.

(** C5, amended: until [App.dispose] runs, each view owns one scene
    instance. Over every sequence of events of the loaded page, none of
    which runs [dispose]: the [BasicScene] made at startup is the only
    one there is and stays the application's; there is no
    [EnhancedScene] when the script has run; whenever there is none,
    [showEnhancedView] constructs one (its identity is fresh) and
    initialises it; and once there is one it is the only one, every
    later event, calls of [showEnhancedView] included, keeps it as the
    application's without constructing anything ([nextId] stands still),
    and a later [showEnhancedView] resumes it. *)
Theorem one_scene_per_view h doc t iw ih es :
  index_html doc ->
  let w0 := loaded h doc t iw ih in
  let w := run es w0 in
  Application.basicScene (app w0) = Some 1
  ∧ Application.basicScene (app w) = Some 1
  ∧ (forall this o, basics w !! this = Some o -> this = 1)
  ∧ Application.enhancedScene (app w0) = None ∧ enhanceds w0 = ∅
  ∧ (forall this o, enhanceds w !! this = Some o ->
       Application.enhancedScene (app w) = Some this)
  ∧ (Application.enhancedScene (app w) = None ->
       enhanceds w = ∅
       ∧ Application.enhancedScene (app (step w showEnhancedView)) = Some (nextId w)
       ∧ exists o, enhanceds (step w showEnhancedView) = {[nextId w := o]}
           ∧ EnhancedOK o)
  ∧ (forall e, Application.enhancedScene (app w) = Some e ->
       (forall es', Application.enhancedScene (app (run es' w)) = Some e
                    ∧ nextId (run es' w) = nextId w
                    ∧ is_Some (enhanceds (run es' w) !! e))
       ∧ exists o, enhanceds (step w showEnhancedView) !! e = Some o
           ∧ Enhanced.isAnimating o = true).
Proof.
  intros Hdoc w0 w.
  pose proof (loaded_Inv h doc t iw ih Hdoc) as Hw0. fold w0 in Hw0.
  pose proof (reachable_Inv h doc t iw ih es Hdoc) as Hw. fold w0 in Hw. fold w in Hw.
  destruct (loaded_spec h doc t iw ih Hdoc) as (o0 & _ & _ & Ha0 & _ & He0 & _).
  fold w0 in Ha0, He0.
  destruct (run_evolves es w0 Hw0) as (_ & Hb & _). fold w in Hb.
  assert (Application.basicScene (app w) = Some 1) as Hb1 by (by rewrite Hb, Ha0).
  split; [by rewrite Ha0|]. split; [done|].
  split. { intros this o Ho. destruct (inv_basics w Hw _ _ Ho) as (Hthis & _). congruence. }
  split; [by rewrite Ha0|]. split; [done|].
  split. { intros this o Ho. by destruct (inv_enhanceds w Hw _ _ Ho). }
  split.
  - intros He. split; [by apply no_enhanced_yet|].
    destruct (inv_basic w Hw) as (b & Hbb & [bo Hbo]).
    destruct (showEnhancedView_first w b bo Hw Hbb Hbo He)
      as (o & _ & _ & Ha & _ & Hes & _ & Hok & _).
    unfold step. cbn [handle]. rewrite Ha. split; [done|]. by exists o.
  - intros e He. split.
    + intros es'. destruct (run_evolves es' w Hw) as (_ & _ & Hev).
      destruct (Hev e He) as [He' Hn]. split; [done|]. split; [done|].
      by apply (inv_enhanced _ (run_Inv es' w Hw)).
    + destruct (showEnhancedView_again w 1 e Hw Hb1 He) as (_ & _ & _ & _ & Hes & _).
      destruct (inv_enhanced w Hw e He) as [o Ho].
      unfold step. cbn [handle]. rewrite Hes, lookup_alter_eq, Ho. cbn.
      eexists. split; [reflexivity|]. by destruct o.
Qed.

Lemma one_scene_per_view_witness :
  index_html sample_page
  ∧ let w0 := sample_load in
    let w := run [showEnhancedView; showBasicView] w0 in
    Application.basicScene (app w0) = Some 1
    ∧ Application.basicScene (app w) = Some 1
    ∧ (forall this o, basics w !! this = Some o -> this = 1)
    ∧ Application.enhancedScene (app w0) = None ∧ enhanceds w0 = ∅
    ∧ (forall this o, enhanceds w !! this = Some o ->
         Application.enhancedScene (app w) = Some this)
    ∧ (Application.enhancedScene (app w) = None ->
         enhanceds w = ∅
         ∧ Application.enhancedScene (app (step w showEnhancedView)) = Some (nextId w)
         ∧ exists o, enhanceds (step w showEnhancedView) = {[nextId w := o]}
             ∧ EnhancedOK o)
    ∧ (forall e, Application.enhancedScene (app w) = Some e ->
         (forall es', Application.enhancedScene (app (run es' w)) = Some e
                      ∧ nextId (run es' w) = nextId w
                      ∧ is_Some (enhanceds (run es' w) !! e))
         ∧ exists o, enhanceds (step w showEnhancedView) !! e = Some o
             ∧ Enhanced.isAnimating o = true).
Proof.
  split; [exact sample_page_ok|].
  exact (one_scene_per_view sample_host sample_page 0 800 600
           [showEnhancedView; showBasicView] sample_page_ok).
Defined.

(** C5 as written, without the proviso: once the [beforeunload] listener
    has run [App.dispose], both references are null, and the next click
    on the button constructs and initialises a second [EnhancedScene]
    (twenty more identities are drawn), the first one still in the
    store with its six listeners; the [BasicScene] is gone for good. *)
Lemma one_scene_per_view_counterexample :
  let w1 := run [click (element "enhanced-btn")] sample_load in
  let w2 := state_after (dispatch window "beforeunload" no_payload) w1 in
  let w3 := run [click (element "enhanced-btn")] w2 in
  Application.enhancedScene (app w1) = Some 10
  ∧ nextId w1 = 30
  ∧ Application.basicScene (app w2) = None
  ∧ Application.enhancedScene (app w2) = None
  ∧ Application.basicScene (app w3) = None
  ∧ Application.enhancedScene (app w3) = Some 30
  ∧ nextId w3 = 50
  ∧ Enhanced.cube <$> enhanceds w3 !! 10 = Some (Some 15)
  ∧ Enhanced.cube <$> enhanceds w3 !! 30 = Some (Some 35)
  ∧ Enhanced.isAnimating <$> enhanceds w3 !! 30 = Some true
  ∧ listeners_for (element "wireframe") "change" w3
    = [enhanced_wireframe 10; enhanced_wireframe 30]
  ∧ length (listeners w3) = 16.
Proof. by vm_compute. Qed.

(** C8. [BasicScene.init] with the id of no element of the page returns
    without throwing and changes nothing at all; on a [BasicScene] fresh
    from its constructor that leaves [scene], [camera], [renderer] and
    [cube] null and [isAnimating] false, books no frame callback and
    calls nothing of the library. *)
Theorem basic_init_without_container w containerId :
  document w !! containerId = None ->
  (forall this, BasicScene.init this containerId w = (Normal tt, w))
  ∧ let m := (this <- BasicScene.constructor ;;
              BasicScene.init this containerId ;;
              BasicScene.read this) in
    exists o,
      completion_of m w = Normal o
      ∧ Basic.scene o = None ∧ Basic.camera o = None ∧ Basic.renderer o = None
      ∧ Basic.cube o = None ∧ Basic.animationId o = None ∧ Basic.isAnimating o = false
      ∧ frameCallbacks (state_after m w) = frameCallbacks w
      ∧ library (state_after m w) = library w
      ∧ document (state_after m w) = document w.
Proof.
  intros Hd.
  assert (forall w' this, document w' = document w ->
            BasicScene.init this containerId w' = (Normal tt, w')) as Hinit.
  { intros w' this Hw'. unfold BasicScene.init, bind, getElementById, gets.
    by rewrite Hw', Hd. }
  split; [intros this; by apply Hinit|].
  exists Basic.fresh. unfold completion_of, state_after, bind.
  unfold BasicScene.constructor, bind, fresh_id, modify, ret.
  rewrite Hinit by (by destruct w).
  unfold BasicScene.read. destruct w. cbn. rewrite lookup_insert_eq. by repeat split.
Qed.

Lemma basic_init_without_container_witness :
  document sample_load !! "no-such-element" = None
  ∧ (forall this, BasicScene.init this "no-such-element" sample_load
                  = (Normal tt, sample_load))
  ∧ let m := (this <- BasicScene.constructor ;;
              BasicScene.init this "no-such-element" ;;
              BasicScene.read this) in
    exists o,
      completion_of m sample_load = Normal o
      ∧ Basic.scene o = None ∧ Basic.camera o = None ∧ Basic.renderer o = None
      ∧ Basic.cube o = None ∧ Basic.animationId o = None ∧ Basic.isAnimating o = false
      ∧ frameCallbacks (state_after m sample_load) = frameCallbacks sample_load
      ∧ library (state_after m sample_load) = library sample_load
      ∧ document (state_after m sample_load) = document sample_load.
Proof.
  assert (document sample_load !! "no-such-element" = None) as H by (by vm_compute).
  split; [exact H|].
  exact (basic_init_without_container sample_load "no-such-element" H).
Defined.

Lemma cancelled_idem a l : cancelled a (cancelled a l) = cancelled a l.
Proof. unfold cancelled. destruct a as [[|h]|]; try done. apply filter_ne_idem. Qed.

(** C9. [pause] is idempotent on both scene classes: on a scene object
    that exists, whatever its [animationId] (null included), a first
    call returns without throwing and leaves [isAnimating] false, and a
    second call returns without throwing and leaves the whole page, the
    scene with it, exactly as the first call left it. *)
Theorem pause_is_idempotent w this :
  (forall o, basics w !! this = Some o ->
     let w1 := state_after (BasicScene.pause this) w in
     BasicScene.pause this w = (Normal tt, w1)
     ∧ BasicScene.pause this w1 = (Normal tt, w1)
     ∧ basics w1 !! this = Some (Basic.set_isAnimating false o))
  ∧ (forall o, enhanceds w !! this = Some o ->
       let w1 := state_after (EnhancedScene.pause this) w in
       EnhancedScene.pause this w = (Normal tt, w1)
       ∧ EnhancedScene.pause this w1 = (Normal tt, w1)
       ∧ enhanceds w1 !! this = Some (Enhanced.set_isAnimating false o)).
Proof.
  split; intros o Ho w1; subst w1; unfold state_after.
  - rewrite (basic_pause_eq w this o Ho). cbn [snd]. split; [done|].
    erewrite basic_pause_eq by (destruct w; cbn; apply lookup_insert_eq).
    destruct w, o. cbn. rewrite cancelled_idem, insert_insert_eq, lookup_insert_eq. done.
  - rewrite (enhanced_pause_eq w this o Ho). cbn [snd]. split; [done|].
    erewrite enhanced_pause_eq by (destruct w; cbn; apply lookup_insert_eq).
    destruct w, o. cbn. rewrite cancelled_idem, insert_insert_eq, lookup_insert_eq. done.
Qed.

Lemma pause_is_idempotent_witness :
  exists bo eo,
    basics (step sample_load showEnhancedView) !! 1 = Some bo
    ∧ enhanceds (step sample_load showEnhancedView) !! 10 = Some eo
    ∧ (let w1 := state_after (BasicScene.pause 1) (step sample_load showEnhancedView) in
       BasicScene.pause 1 (step sample_load showEnhancedView) = (Normal tt, w1)
       ∧ BasicScene.pause 1 w1 = (Normal tt, w1)
       ∧ basics w1 !! 1 = Some (Basic.set_isAnimating false bo))
    ∧ (let w1 := state_after (EnhancedScene.pause 10) (step sample_load showEnhancedView) in
       EnhancedScene.pause 10 (step sample_load showEnhancedView) = (Normal tt, w1)
       ∧ EnhancedScene.pause 10 w1 = (Normal tt, w1)
       ∧ enhanceds w1 !! 10 = Some (Enhanced.set_isAnimating false eo)).
Proof.
  destruct (basics (step sample_load showEnhancedView) !! 1) as [bo|] eqn:Hb;
    [|by vm_compute in Hb].
  destruct (enhanceds (step sample_load showEnhancedView) !! 10) as [eo|] eqn:He;
    [|by vm_compute in He].
  exists bo, eo. split; [reflexivity|]. split; [reflexivity|]. split.
  - exact (proj1 (pause_is_idempotent (step sample_load showEnhancedView) 1) bo Hb).
  - exact (proj2 (pause_is_idempotent (step sample_load showEnhancedView) 10) eo He).
Defined.



(** ** Which listener an event of the enhanced view reaches *)

Lemma enhanced_renderer_id w e :
  Inv w -> Application.enhancedScene (app w) = Some e ->
  exists o r, enhanceds w !! e = Some o ∧ Enhanced.renderer o = Some r
    ∧ listeners w = app_listeners ++ enhanced_listeners e (THREE.rid r).
Proof.
  intros Hw He. destruct (inv_enhanced w Hw e He) as [o Ho].
  destruct (inv_enhanceds w Hw e o Ho)
    as (_ & (s & cam & r & c & oc & n & Hs & Hcam & Hr & _) & _).
  exists o, r. split; [done|]. split; [done|].
  rewrite (inv_listeners w Hw). unfold expected_listeners. rewrite He, Ho. cbn.
  by rewrite Hr.
Qed.

Lemma input_listener w e id l :
  Inv w -> Application.enhancedScene (app w) = Some e ->
  (id, l) ∈ [("rotation-speed", enhanced_rotationSpeed e); ("cube-color", enhanced_color e);
             ("scale", enhanced_scale e)] ->
  listeners_for (element id) "input" w = [l].
Proof.
  intros Hw He Hin. destruct (enhanced_renderer_id w e Hw He) as (o & r & _ & _ & Hl).
  unfold listeners_for. rewrite Hl.
  repeat (apply elem_of_cons in Hin as [[= -> ->]|Hin]); [..|by apply elem_of_nil in Hin];
    reflexivity.
Qed.

Lemma resize_listener w :
  Inv w -> listeners_for window "resize" w = [app_handleWindowResize].
Proof.
  intros Hw. unfold listeners_for. rewrite (inv_listeners w Hw). unfold expected_listeners.
  destruct (Application.enhancedScene (app w)) as [e|]; [|reflexivity].
  by destruct (THREE.rid <$> _).
Qed.

(** A dispatch to one listener runs it and swallows what it throws. *)
Lemma dispatch_one t ty p l w :
  listeners_for t ty w = [l] ->
  state_after (dispatch t ty p) w = state_after (run_listener l p) w.
Proof.
  intros Hl. unfold state_after, dispatch, bind, gets. rewrite Hl. cbn [for_each].
  unfold bind. rewrite <- (try_catch_state (run_listener l p) w).
  by destruct (try_catch (run_listener l p) w) as [[[]|] w'].
Qed.

(** ** What a pass of the enhanced loop does to the cube *)

Lemma enhanced_tick_cube k h t o s c n oc :
  Enhanced.scene o = Some s -> Enhanced.cube o = Some c -> THREE.find c s = Some n ->
  Enhanced.controls o = Some oc -> THREE.enabled oc = true ->
  Enhanced.particles o ≠ Some c ->
  exists s' n',
    Enhanced.scene (enhanced_tick k h t o) = Some s'
    ∧ Enhanced.cube (enhanced_tick k h t o) = Some c
    ∧ THREE.find c s' = Some n'
    ∧ THREE.rotation (THREE.props_of n')
      = THREE.vec3
          (THREE.x (THREE.rotation (THREE.props_of n)) + Enhanced.rotationSpeed o)%float
          (THREE.y (THREE.rotation (THREE.props_of n)) + Enhanced.rotationSpeed o)%float
          (THREE.z (THREE.rotation (THREE.props_of n))).
Proof.
  intros Hs Hc Hn Hoc Hen Hpc.
  set (R := THREE.vec3
          (THREE.x (THREE.rotation (THREE.props_of n)) + Enhanced.rotationSpeed o)%float
          (THREE.y (THREE.rotation (THREE.props_of n)) + Enhanced.rotationSpeed o)%float
          (THREE.z (THREE.rotation (THREE.props_of n)))).
  set (P := fun p => THREE.rotation p = R).
  set (f := EnhancedScene.spin_cube (Enhanced.rotationSpeed o) (t * 0.001)
              (Enhanced.targetRotationX o) (Enhanced.targetRotationY o) (Math_sin h) true).
  assert (exists n1, THREE.find c (THREE.update c f s) = Some n1 ∧ P (THREE.props_of n1))
    as (n1 & H1 & HP1).
  { exists (THREE.update c f n). split; [by rewrite find_update, Hn|].
    by rewrite update_props, (find_id _ _ _ Hn), Nat.eqb_refl. }
  assert (forall ls, exists n2,
            THREE.find c (orbit_lights (t * 0.001) h (length ls) 0 ls (THREE.update c f s))
            = Some n2 ∧ P (THREE.props_of n2)) as Hlights.
  { intros ls. eapply orbit_lights_keeps; eauto. }
  assert (exists s2 n2,
            match Enhanced.lights o with
            | Some ls => orbit_lights (t * 0.001) h (length ls) 0 ls (THREE.update c f s)
            | None => THREE.update c f s
            end = s2 ∧ THREE.find c s2 = Some n2 ∧ P (THREE.props_of n2))
    as (s2 & n2 & Hs2 & H2 & HP2).
  { destruct (Enhanced.lights o) as [ls|].
    - destruct (Hlights ls) as (n2 & H2 & HP2). by eexists _, n2.
    - by eexists _, n1. }
  unfold enhanced_tick, enhanced_tick_scene.
  destruct o as [sc ca re cu co ai ia rs mx my tx ty wf li pa]. cbn in *. subst sc cu co.
  cbn. rewrite Hen. fold f. rewrite Hs2.
  destruct pa as [p|].
  - exists (THREE.update p EnhancedScene.spin_particles s2),
      (THREE.update p EnhancedScene.spin_particles n2).
    split; [done|]. split; [done|]. split; [by rewrite find_update, H2|].
    rewrite update_props, (find_id _ _ _ H2).
    destruct (Nat.eqb_spec c p) as [->|Hne]; [by destruct Hpc|done].
  - by exists s2, n2.
Qed.

Lemma run_same_speed es w :
  Inv w -> (forall ev, ev ∈ es -> sets_speed ev = false) -> same_speed w (run es w).
Proof.
  revert w. induction es as [|e es IH]; intros w Hw Hes; [apply same_speed_refl|].
  cbn. destruct (step_good w e Hw) as (Hw' & _ & Hs).
  eapply same_speed_trans.
  - apply Hs. rewrite (Hes e) by (apply elem_of_cons; by left). done.
  - apply IH; [done|]. intros ev Hev. apply Hes. apply elem_of_cons. by right.
Qed.

Lemma reachable_host h doc t iw ih es : index_html doc -> host (run es (loaded h doc t iw ih)) = h.
Proof.
  intros Hdoc. destruct (run_evolves es _ (loaded_Inv h doc t iw ih Hdoc)) as (-> & _).
  by destruct (loaded_spec h doc t iw ih Hdoc)
    as (o & _ & _ & _ & _ & _ & _ & _ & _ & _ & _ & -> & _).
Qed.

(** C6. In every state the page reaches with the enhanced scene made:
    after an [input] event on the rotation-speed control with value [v],
    and whatever events follow short of another one on that control,
    every tick of the enhanced loop (the frame callback run while
    [isAnimating] is true) adds exactly [parseFloat(v)] to the cube's
    [rotation.x] and to its [rotation.y]; an [input] event on the colour
    control with value [v] leaves the cube's material with the colour
    [new THREE.Color(v)]; and one on the scale control with value [v]
    leaves the cube's scale at [parseFloat(v)] on all three axes. *)
Theorem enhanced_controls_take_effect h doc t iw ih es e :
  index_html doc ->
  let w := run es (loaded h doc t iw ih) in
  Application.enhancedScene (app w) = Some e ->
  (forall v es' o,
     (forall ev, ev ∈ es' -> sets_speed ev = false) ->
     let w2 := run es' (step w (input "rotation-speed" v)) in
     enhanceds w2 !! e = Some o -> Enhanced.isAnimating o = true ->
     exists s c n o' s' n',
       Enhanced.scene o = Some s ∧ Enhanced.cube o = Some c ∧ THREE.find c s = Some n
       ∧ completion_of (run_callback (enhanced_animate e)) w2 = Normal tt
       ∧ enhanceds (state_after (run_callback (enhanced_animate e)) w2) !! e = Some o'
       ∧ Enhanced.scene o' = Some s' ∧ Enhanced.cube o' = Some c
       ∧ THREE.find c s' = Some n'
       ∧ THREE.rotation (THREE.props_of n')
         = THREE.vec3 (THREE.x (THREE.rotation (THREE.props_of n)) + parseFloat h v)%float
                      (THREE.y (THREE.rotation (THREE.props_of n)) + parseFloat h v)%float
                      (THREE.z (THREE.rotation (THREE.props_of n))))
  ∧ (forall v, exists o s c n m,
       enhanceds (step w (input "cube-color" v)) !! e = Some o
       ∧ Enhanced.scene o = Some s ∧ Enhanced.cube o = Some c ∧ THREE.find c s = Some n
       ∧ THREE.material (THREE.props_of n) = THREE.OneMaterial m
       ∧ THREE.color m = Some (THREE.ColorCss v))
  ∧ (forall v, exists o s c n,
       enhanceds (step w (input "scale" v)) !! e = Some o
       ∧ Enhanced.scene o = Some s ∧ Enhanced.cube o = Some c ∧ THREE.find c s = Some n
       ∧ THREE.scale (THREE.props_of n)
         = THREE.vec3 (parseFloat h v) (parseFloat h v) (parseFloat h v)).
Proof.
  intros Hdoc w He.
  pose proof (reachable_Inv h doc t iw ih es Hdoc) as Hw. fold w in Hw.
  pose proof (reachable_host h doc t iw ih es Hdoc) as Hh. fold w in Hh.
  clearbody w. destruct (inv_enhanced w Hw e He) as [o0 Ho0].
  destruct (inv_enhanceds w Hw e o0 Ho0)
    as (_ & (s0 & cam0 & r0 & c0 & oc0 & n0 & Hs0 & Hcam0 & Hr0 & Hc0 & Hoc0 & Hen0 & Hn0
             & Hm0 & Hpc0) & _).
  split; [|split].
  - intros v es' o Hes' w2 Ho Ha.
    set (w1 := step w (input "rotation-speed" v)) in *.
    assert (Inv w1) as Hw1 by apply (step_good w _ Hw).
    assert (enhanceds w1 !! e = Some (Enhanced.set_rotationSpeed (parseFloat h v) o0)) as Ho1.
    { unfold w1, step. cbn [handle].
      rewrite (dispatch_one _ _ _ (enhanced_rotationSpeed e))
        by (apply (input_listener w e); [done..|listed]).
      unfold state_after. cbn [run_listener payload_value].
      rewrite on_rotationSpeed_eq, Hh. destruct w. cbn in *.
      by rewrite lookup_alter_eq, Ho0. }
    pose proof (run_same_speed es' w1 Hw1 Hes' e _ Ho1) as Hsp. fold w2 in Hsp.
    rewrite Ho in Hsp. cbn in Hsp. injection Hsp as Hsp.
    assert (Inv w2) as Hw2 by (by apply run_Inv).
    clearbody w2.
    destruct (inv_enhanceds w2 Hw2 e o Ho)
      as (_ & (s & cam & r & c & oc & n & Hs & Hcam & Hr & Hc & Hoc & Hen & Hn & Hm & Hpc) & _).
    destruct (enhanced_tick_cube (nextHandle w2) (host w2) (now w2) o s c n oc
                Hs Hc Hn Hoc Hen Hpc) as (s' & n' & Hs' & Hc' & Hn' & Hrot).
    exists s, c, n, (enhanced_tick (nextHandle w2) (host w2) (now w2) o), s', n'.
    do 3 (split; [done|]).
    unfold completion_of, state_after. cbn [run_callback].
    rewrite (enhanced_animate_running w2 e o r s cam Ho Ha Hr Hs Hcam)
      by (intros _; by rewrite Hoc).
    cbn [fst snd]. split; [done|].
    split; [destruct w2; cbn; apply lookup_insert_eq|].
    do 3 (split; [done|]). by rewrite Hrot, Hsp.
  - intros v. unfold step. cbn [handle].
    rewrite (dispatch_one _ _ _ (enhanced_color e))
      by (apply (input_listener w e); [done..|listed]).
    unfold state_after. cbn [run_listener payload_value].
    unfold has_one_material in Hm0.
    destruct (THREE.material (THREE.props_of n0)) as [|m|ms] eqn:Hmat; try done.
    rewrite (on_color_eq w e v o0 c0 (THREE.props_of n0) m Ho0 Hc0)
      by (done || by unfold EnhancedScene.object_props; rewrite Hs0; cbn; rewrite Hn0).
    eexists _, _, c0, _, _. split; [destruct w; cbn; apply lookup_insert_eq|].
    unfold in_scene. destruct o0. cbn in *. subst.
    split; [reflexivity|]. split; [reflexivity|].
    split; [by rewrite find_update, Hn0|].
    rewrite update_props, (find_id _ _ _ Hn0), Nat.eqb_refl.
    unfold EnhancedScene.recolor. rewrite Hmat. cbn. split; reflexivity.
  - intros v. unfold step. cbn [handle].
    rewrite (dispatch_one _ _ _ (enhanced_scale e))
      by (apply (input_listener w e); [done..|listed]).
    unfold state_after. cbn [run_listener payload_value].
    rewrite (on_scale_eq w e v o0 c0 Ho0 Hc0), Hh.
    eexists _, _, c0, _. split; [destruct w; cbn; apply lookup_insert_eq|].
    unfold in_scene. destruct o0. cbn in *. subst.
    split; [reflexivity|]. split; [reflexivity|].
    split; [by rewrite find_update, Hn0|].
    by rewrite update_props, (find_id _ _ _ Hn0), Nat.eqb_refl.
Qed.

Lemma enhanced_controls_take_effect_witness :
  exists o,
    index_html sample_page
    ∧ Application.enhancedScene (app (run [showEnhancedView] sample_load)) = Some 10
    ∧ (forall ev, ev ∈ [frame; input "scale" "2"] -> sets_speed ev = false)
    ∧ enhanceds (run [frame; input "scale" "2"]
                   (step (run [showEnhancedView] sample_load)
                      (input "rotation-speed" "0.05"))) !! 10 = Some o
    ∧ Enhanced.isAnimating o = true
    ∧ exists s c n o' s' n',
        Enhanced.scene o = Some s ∧ Enhanced.cube o = Some c ∧ THREE.find c s = Some n
        ∧ completion_of (run_callback (enhanced_animate 10))
            (run [frame; input "scale" "2"]
               (step (run [showEnhancedView] sample_load)
                  (input "rotation-speed" "0.05"))) = Normal tt
        ∧ enhanceds (state_after (run_callback (enhanced_animate 10))
                       (run [frame; input "scale" "2"]
                          (step (run [showEnhancedView] sample_load)
                             (input "rotation-speed" "0.05")))) !! 10 = Some o'
        ∧ Enhanced.scene o' = Some s' ∧ Enhanced.cube o' = Some c
        ∧ THREE.find c s' = Some n'
        ∧ THREE.rotation (THREE.props_of n')
          = THREE.vec3
              (THREE.x (THREE.rotation (THREE.props_of n)) + parseFloat sample_host "0.05")%float
              (THREE.y (THREE.rotation (THREE.props_of n)) + parseFloat sample_host "0.05")%float
              (THREE.z (THREE.rotation (THREE.props_of n))).
Proof.
  assert (Application.enhancedScene (app (run [showEnhancedView] sample_load)) = Some 10)
    as He by (by vm_compute).
  assert (forall ev, ev ∈ [frame; input "scale" "2"] -> sets_speed ev = false) as Hes.
  { intros ev [->|[->|[]%elem_of_nil]%elem_of_cons]%elem_of_cons; by vm_compute. }
  destruct (enhanceds (run [frame; input "scale" "2"]
                         (step (run [showEnhancedView] sample_load)
                            (input "rotation-speed" "0.05"))) !! 10) as [o|] eqn:Ho;
    [|by vm_compute in Ho].
  assert (Enhanced.isAnimating o = true) as Ha.
  { vm_compute in Ho. by injection Ho as <-. }
  exists o. split; [exact sample_page_ok|]. split; [exact He|]. split; [exact Hes|].
  split; [reflexivity|]. split; [exact Ha|].
  exact (proj1 (enhanced_controls_take_effect sample_host sample_page 0 800 600
                  [showEnhancedView] 10 sample_page_ok He)
           "0.05" [frame; input "scale" "2"] o Hes Ho Ha).
Defined.

(** ** What [dispose] forwards to the library *)

Lemma call_eq c w : call c w = (Normal tt, set_library (library w ++ [c]) w).
Proof. reflexivity. Qed.

Lemma set_library_app l1 l2 w :
  set_library (library (set_library (library w ++ l1) w) ++ l2) (set_library (library w ++ l1) w)
  = set_library (library w ++ l1 ++ l2) w.
Proof. destruct w. cbn. by rewrite <- app_assoc. Qed.

Lemma set_library_nil w : set_library (library w ++ []) w = w.
Proof. destruct w. cbn. by rewrite app_nil_r. Qed.

Lemma material_disposes ms w :
  for_each ms (fun m => call (THREE.material_dispose (THREE.mid m))) w
  = (Normal tt,
     set_library (library w ++ ((λ m, THREE.material_dispose (THREE.mid m)) <$> ms)) w).
Proof.
  revert w. induction ms as [|m ms IH]; intros w.
  - cbn. by rewrite set_library_nil.
  - cbn [for_each]. unfold bind. rewrite call_eq, IH, set_library_app. reflexivity.
Qed.

Lemma dispose_object_eq o w :
  dispose_object o w = (Normal tt, set_library (library w ++ disposals o) w).
Proof.
  unfold dispose_object, disposals, bind.
  destruct (THREE.geometry (THREE.props_of o)) as [g|];
    destruct (THREE.material (THREE.props_of o)) as [|m|ms];
    rewrite ?call_eq; unfold ret; rewrite ?material_disposes, ?call_eq, ?set_library_app;
    cbn [app]; rewrite ?set_library_nil; reflexivity.
Qed.

Lemma dispose_objects_eq l w :
  for_each l dispose_object w
  = (Normal tt, set_library (library w ++ flat_map disposals l) w).
Proof.
  revert w. induction l as [|o l IH]; intros w.
  - cbn. by rewrite set_library_nil.
  - cbn [for_each flat_map]. unfold bind.
    rewrite dispose_object_eq, IH, set_library_app. reflexivity.
Qed.

Lemma basic_dispose_eq w this o :
  basics w !! this = Some o ->
  BasicScene.dispose this w
  = (Normal tt,
     set_library (library w ++ renderer_calls (Basic.renderer o) ++ scene_calls (Basic.scene o))
       (set_frameCallbacks (cancelled (Basic.animationId o) (frameCallbacks w))
          (set_basics (<[this := Basic.set_isAnimating false o]> (basics w)) w))).
Proof.
  intros H. unfold BasicScene.dispose, bind. rewrite (basic_pause_eq w this o H).
  unfold BasicScene.read.
  replace (basics (set_frameCallbacks _ _) !! this)
    with (Some (Basic.set_isAnimating false o))
    by (destruct w; cbn; by rewrite lookup_insert_eq).
  unfold renderer_calls, scene_calls.
  destruct o as [s c r cu ai ia]. cbn [Basic.renderer Basic.scene Basic.set_isAnimating].
  destruct r as [r|], s as [s|]; unfold ret;
    rewrite ?call_eq, ?dispose_objects_eq; destruct w; cbn;
    rewrite <- ?app_assoc, ?app_nil_r; reflexivity.
Qed.

Lemma enhanced_dispose_eq w this o :
  enhanceds w !! this = Some o ->
  EnhancedScene.dispose this w
  = (Normal tt,
     set_library (library w ++ controls_dispose_calls (Enhanced.controls o)
                    ++ renderer_calls (Enhanced.renderer o) ++ scene_calls (Enhanced.scene o))
       (set_frameCallbacks (cancelled (Enhanced.animationId o) (frameCallbacks w))
          (set_enhanceds (<[this := Enhanced.set_isAnimating false o]> (enhanceds w)) w))).
Proof.
  intros H. unfold EnhancedScene.dispose, bind. rewrite (enhanced_pause_eq w this o H).
  unfold EnhancedScene.read.
  replace (enhanceds (set_frameCallbacks _ _) !! this)
    with (Some (Enhanced.set_isAnimating false o))
    by (destruct w; cbn; by rewrite lookup_insert_eq).
  unfold renderer_calls, scene_calls, controls_dispose_calls.
  destruct o as [s c r cu co ai ia rs mx my tx ty wf li pa].
  cbn [Enhanced.renderer Enhanced.scene Enhanced.controls Enhanced.set_isAnimating].
  destruct co as [co|], r as [r|], s as [s|]; unfold ret;
    rewrite ?call_eq, ?dispose_objects_eq; destruct w; cbn;
    rewrite <- ?app_assoc, ?app_nil_r; reflexivity.
Qed.

(** ** Frame callbacks booked twice *)

(** On any page, the first [showEnhancedView] after the load leaves two
    frame callbacks of the one enhanced scene pending: [init] books the
    first when it starts the loop, and [resume] books another. *)
Lemma first_enhanced_view_books_two h doc t iw ih :
  index_html doc ->
  frameCallbacks (step (loaded h doc t iw ih) showEnhancedView)
  = [(2, enhanced_animate 10); (3, enhanced_animate 10)].
Proof.
  intros Hdoc. pose proof (loaded_Inv h doc t iw ih Hdoc) as Hw.
  destruct (loaded_spec h doc t iw ih Hdoc)
    as (bo & _ & _ & Ha & Hb & _ & Hf & _ & Hnh & Hni & _ & _ & _ & _ & _ & _ & _ & Hid).
  destruct (showEnhancedView_first (loaded h doc t iw ih) 1 bo Hw) as (o & H);
    [by rewrite Ha|by rewrite Hb, lookup_singleton_eq|by rewrite Ha|].
  destruct H as (_ & _ & _ & _ & _ & _ & _ & _ & _ & _ & Hfc).
  unfold step. cbn [handle]. rewrite Hfc, Hf, Hnh, Hni, Hid. reflexivity.
Qed.

(** [resume] books a frame callback whether or not one is pending. *)
Lemma basic_resume_books w this o r s c :
  basics w !! this = Some o ->
  Basic.renderer o = Some r -> Basic.scene o = Some s -> Basic.camera o = Some c ->
  frameCallbacks (state_after (BasicScene.resume this) w)
  = frameCallbacks w ++ [(nextHandle w, basic_animate this)].
Proof.
  intros Ho Hr Hs Hc. unfold state_after. rewrite (basic_resume_eq w this o Ho).
  erewrite basic_animate_running
    by first [destruct w; cbn; apply lookup_insert_eq | by destruct o].
  by destruct w.
Qed.

Lemma enhanced_resume_books w this o :
  enhanceds w !! this = Some o -> EnhancedOK o ->
  frameCallbacks (state_after (EnhancedScene.resume this) w)
  = frameCallbacks w ++ [(nextHandle w, enhanced_animate this)].
Proof.
  intros Ho (s & cam & r & c & oc & n & Hs & Hcam & Hr & Hc & Hoc & _).
  unfold state_after. rewrite (enhanced_resume_eq w this o Ho).
  erewrite (enhanced_animate_running _ this _ r s cam)
    by first [destruct w; cbn; apply lookup_insert_eq | by destruct o
             | intros _; destruct o; cbn in *; by rewrite Hoc].
  by destruct w.
Qed.

(** C1, which the code does not meet. On the sample page the load leaves
    one frame callback pending, of the basic scene. The first
    [showEnhancedView] (a click on the button does the same) leaves two
    of the one enhanced scene, 2 booked by [init] and 3 by the [resume]
    that follows it; after the next frame there are two again, each
    loop having booked its successor. And [showBasicView] while the
    basic scene is animating, which resumes it, leaves two of the basic
    scene. *)
Theorem frame_callback_is_double_scheduled :
  frameCallbacks sample_load = [(1, basic_animate 1)]
  ∧ frameCallbacks (step sample_load showEnhancedView)
    = [(2, enhanced_animate 10); (3, enhanced_animate 10)]
  ∧ frameCallbacks (step sample_load (click (element "enhanced-btn")))
    = [(2, enhanced_animate 10); (3, enhanced_animate 10)]
  ∧ frameCallbacks (run [showEnhancedView; frame] sample_load)
    = [(4, enhanced_animate 10); (5, enhanced_animate 10)]
  ∧ frameCallbacks (step sample_load showBasicView)
    = [(1, basic_animate 1); (2, basic_animate 1)].
Proof. by vm_compute. Qed.

(** C3, which the code does not meet where a frame callback was booked
    twice. On the sample page after [showEnhancedView] the enhanced scene
    has callbacks 2 and 3 pending and 3 as its [animationId]; [pause]
    leaves [isAnimating] false and cancels 3, and callback 2 stays
    scheduled. Likewise the basic scene after [showBasicView] has
    callbacks 1 and 2 pending, and [pause] leaves 1 scheduled. *)
Theorem pause_leaves_a_callback_scheduled :
  Enhanced.animationId <$> enhanceds (step sample_load showEnhancedView) !! 10 = Some (Some 3)
  ∧ frameCallbacks (state_after (EnhancedScene.pause 10) (step sample_load showEnhancedView))
    = [(2, enhanced_animate 10)]
  ∧ Enhanced.isAnimating
      <$> enhanceds (state_after (EnhancedScene.pause 10) (step sample_load showEnhancedView))
          !! 10 = Some false
  ∧ frameCallbacks (run [showEnhancedView; showBasicView] sample_load)
    = [(2, enhanced_animate 10); (4, basic_animate 1)]
  ∧ frameCallbacks (state_after (BasicScene.pause 1) (step sample_load showBasicView))
    = [(1, basic_animate 1)]
  ∧ Basic.isAnimating
      <$> basics (state_after (BasicScene.pause 1) (step sample_load showBasicView)) !! 1
    = Some false.
Proof. by vm_compute. Qed.

(** C7, which the code does not meet where a frame callback was booked
    twice. On the sample page after [showEnhancedView], [dispose] of the
    enhanced scene returns with [isAnimating] false and has forwarded the
    cleanup to the library (controls, renderer, then geometry and
    material of the cube, its wireframe and the particles), and frame
    callback 2 is still scheduled; so it is after [App.dispose]. The
    basic scene's [dispose] after [showBasicView] leaves callback 1
    scheduled. *)
Theorem dispose_leaves_a_callback_scheduled :
  EnhancedScene.dispose 10 (step sample_load showEnhancedView)
  = (Normal tt, state_after (EnhancedScene.dispose 10) (step sample_load showEnhancedView))
  ∧ frameCallbacks (state_after (EnhancedScene.dispose 10) (step sample_load showEnhancedView))
    = [(2, enhanced_animate 10)]
  ∧ Enhanced.isAnimating
      <$> enhanceds (state_after (EnhancedScene.dispose 10)
                       (step sample_load showEnhancedView)) !! 10 = Some false
  ∧ library (state_after (EnhancedScene.dispose 10) (step sample_load showEnhancedView))
    = library (step sample_load showEnhancedView)
      ++ [THREE.controls_dispose 29; THREE.renderer_dispose 12;
          THREE.geometry_dispose 13; THREE.material_dispose 14;
          THREE.geometry_dispose 16; THREE.material_dispose 17;
          THREE.geometry_dispose 26; THREE.material_dispose 27]
  ∧ frameCallbacks (state_after App.dispose (step sample_load showEnhancedView))
    = [(2, enhanced_animate 10)]
  ∧ frameCallbacks (state_after (BasicScene.dispose 1) (step sample_load showBasicView))
    = [(1, basic_animate 1)].
Proof. by vm_compute. Qed.

(** * Further properties *)

Lemma cancelled_sub a (l : list (nat * Callback)) c : c ∈ cancelled a l -> c ∈ l.
Proof.
  unfold cancelled. destruct a as [[|h]|]; try done. by intros [_ ?]%list_elem_of_filter.
Qed.

Lemma cancelled_gone h cb (l : list (nat * Callback)) : (S h, cb) ∉ cancelled (Some (S h)) l.
Proof. cbn. intros [Hne _]%list_elem_of_filter. by apply Hne. Qed.

(** What [pause] does achieve, on either scene class: it returns, leaves
    [isAnimating] false and the scene otherwise as it was, the frame
    callback [animationId] names is no longer pending and no callback has
    been added; and wherever [isAnimating] is false (as it stays until
    [resume]), [animate] returns at once and changes nothing, so it
    turns nothing, books no frame and does not render. *)
Theorem pause_stops_the_loop w this :
  (forall o, basics w !! this = Some o ->
     let w1 := state_after (BasicScene.pause this) w in
     completion_of (BasicScene.pause this) w = Normal tt
     ∧ basics w1 !! this = Some (Basic.set_isAnimating false o)
     ∧ (forall h cb, Basic.animationId o = Some (S h) -> (S h, cb) ∉ frameCallbacks w1)
     ∧ (forall c, c ∈ frameCallbacks w1 -> c ∈ frameCallbacks w)
     ∧ library w1 = library w
     ∧ forall w2 o2, basics w2 !! this = Some o2 -> Basic.isAnimating o2 = false ->
         BasicScene.animate this w2 = (Normal tt, w2))
  ∧ (forall o, enhanceds w !! this = Some o ->
       let w1 := state_after (EnhancedScene.pause this) w in
       completion_of (EnhancedScene.pause this) w = Normal tt
       ∧ enhanceds w1 !! this = Some (Enhanced.set_isAnimating false o)
       ∧ (forall h cb, Enhanced.animationId o = Some (S h) -> (S h, cb) ∉ frameCallbacks w1)
       ∧ (forall c, c ∈ frameCallbacks w1 -> c ∈ frameCallbacks w)
       ∧ library w1 = library w
       ∧ forall w2 o2, enhanceds w2 !! this = Some o2 -> Enhanced.isAnimating o2 = false ->
           EnhancedScene.animate this w2 = (Normal tt, w2)).
Proof.
  split; intros o Ho w1; subst w1; unfold completion_of, state_after.
  - rewrite (basic_pause_eq w this o Ho). cbn [fst snd]. split; [done|].
    split; [destruct w; cbn; apply lookup_insert_eq|].
    split. { intros h cb ->. destruct w. cbn. apply cancelled_gone. }
    split. { intros c Hc. destruct w. cbn in *. by eapply cancelled_sub. }
    split; [by destruct w|]. intros w2 o2. apply basic_animate_paused.
  - rewrite (enhanced_pause_eq w this o Ho). cbn [fst snd]. split; [done|].
    split; [destruct w; cbn; apply lookup_insert_eq|].
    split. { intros h cb ->. destruct w. cbn. apply cancelled_gone. }
    split. { intros c Hc. destruct w. cbn in *. by eapply cancelled_sub. }
    split; [by destruct w|]. intros w2 o2. apply enhanced_animate_paused.
Qed.

Lemma disposals_in_scene n s c :
  in_graph n s -> c ∈ disposals n -> c ∈ scene_calls (Some s).
Proof.
  intros Hn Hc. cbn. apply list_elem_of_In, in_flat_map. exists n.
  split; apply list_elem_of_In; [by apply traverse_complete|done].
Qed.

(** What [dispose] does achieve, on either scene class: it returns,
    having paused the scene ([isAnimating] false, the callback
    [animationId] names cancelled), and its calls into the library are,
    in order: for the enhanced scene the disposal of the orbit
    controls; the disposal of the renderer; and, object by object in
    traversal order, the disposal of the object's geometry and of its
    material, or of each material of its array. Every object of the scene
    graph is reached. *)
Theorem dispose_forwards_cleanup w this :
  (forall o, basics w !! this = Some o ->
     let w1 := state_after (BasicScene.dispose this) w in
     completion_of (BasicScene.dispose this) w = Normal tt
     ∧ basics w1 !! this = Some (Basic.set_isAnimating false o)
     ∧ frameCallbacks w1 = cancelled (Basic.animationId o) (frameCallbacks w)
     ∧ library w1
       = library w ++ renderer_calls (Basic.renderer o) ++ scene_calls (Basic.scene o))
  ∧ (forall o, enhanceds w !! this = Some o ->
       let w1 := state_after (EnhancedScene.dispose this) w in
       completion_of (EnhancedScene.dispose this) w = Normal tt
       ∧ enhanceds w1 !! this = Some (Enhanced.set_isAnimating false o)
       ∧ frameCallbacks w1 = cancelled (Enhanced.animationId o) (frameCallbacks w)
       ∧ library w1
         = library w ++ controls_dispose_calls (Enhanced.controls o)
             ++ renderer_calls (Enhanced.renderer o) ++ scene_calls (Enhanced.scene o))
  ∧ (forall s n, in_graph n s ->
       (forall g, THREE.geometry (THREE.props_of n) = Some g ->
          THREE.geometry_dispose (THREE.gid g) ∈ scene_calls (Some s))
       ∧ (forall m, THREE.material (THREE.props_of n) = THREE.OneMaterial m ->
            THREE.material_dispose (THREE.mid m) ∈ scene_calls (Some s))
       ∧ (forall ms m, THREE.material (THREE.props_of n) = THREE.MaterialArray ms ->
            m ∈ ms -> THREE.material_dispose (THREE.mid m) ∈ scene_calls (Some s))).
Proof.
  split; [|split].
  - intros o Ho w1. subst w1. unfold completion_of, state_after.
    rewrite (basic_dispose_eq w this o Ho). cbn [fst snd]. split; [done|].
    split; [destruct w; cbn; apply lookup_insert_eq|]. by destruct w.
  - intros o Ho w1. subst w1. unfold completion_of, state_after.
    rewrite (enhanced_dispose_eq w this o Ho). cbn [fst snd]. split; [done|].
    split; [destruct w; cbn; apply lookup_insert_eq|]. by destruct w.
  - intros s n Hn. split; [|split].
    + intros g Hg. apply (disposals_in_scene n s _ Hn). unfold disposals. rewrite Hg.
      apply elem_of_app. left. by left.
    + intros m Hm. apply (disposals_in_scene n s _ Hn). unfold disposals. rewrite Hm.
      apply elem_of_app. right. by left.
    + intros ms m Hms Hm. apply (disposals_in_scene n s _ Hn). unfold disposals. rewrite Hms.
      apply elem_of_app. right. apply list_elem_of_fmap. by exists m.
Qed.

(** A [resize] event of the window, in every state the page reaches,
    updates the window's inner size and runs [handleWindowResize], the
    one listener of that event, and nothing else. *)
Theorem resize_event_runs_the_handler h doc t iw ih es iw' ih' :
  index_html doc ->
  let w := run es (loaded h doc t iw ih) in
  listeners_for window "resize" w = [app_handleWindowResize]
  ∧ step w (resize iw' ih') = state_after App.handleWindowResize (set_inner iw' ih' w).
Proof.
  intros Hdoc w. pose proof (reachable_Inv h doc t iw ih es Hdoc) as Hw. fold w in Hw.
  clearbody w. split; [by apply resize_listener|].
  assert (Inv (set_inner iw' ih' w)) as Hw' by (eapply Inv_same; eauto; by destruct w).
  unfold step, state_after at 1. cbn [handle]. unfold bind, modify.
  change (snd (dispatch window "resize" no_payload (set_inner iw' ih' w)))
    with (state_after (dispatch window "resize" no_payload) (set_inner iw' ih' w)).
  by rewrite (dispatch_one _ _ _ app_handleWindowResize) by (by apply resize_listener).
Qed.

Lemma resize_event_runs_the_handler_witness :
  index_html sample_page
  ∧ let w := run [showEnhancedView] sample_load in
    listeners_for window "resize" w = [app_handleWindowResize]
    ∧ step w (resize 1024 768)
      = state_after App.handleWindowResize (set_inner 1024 768 w).
Proof.
  split; [exact sample_page_ok|].
  exact (resize_event_runs_the_handler sample_host sample_page 0 800 600 [showEnhancedView]
           1024 768 sample_page_ok).
Defined.

(** ** What [BasicScene.init] builds *)

Lemma alter_element (f : Element -> Element) (m : gmap string Element) i a :
  m !! i = Some a -> alter f i m = <[i := f a]> m.
Proof.
  intros H. apply map_eq. intros k. destruct (decide (i = k)) as [->|].
  - by rewrite lookup_alter_eq, lookup_insert_eq, H.
  - by rewrite lookup_alter_ne, lookup_insert_ne.
Qed.

Lemma basic_init_full w this containerId c :
  basics w !! this = Some Basic.fresh ->
  document w !! containerId = Some c ->
  exists o w',
    BasicScene.init this containerId w = (Normal tt, w')
    ∧ basics w' = <[this := o]> (basics w)
    ∧ Basic.scene o = Some (basic_scene_built (nextId w))
    ∧ Basic.camera o
      = Some (THREE.Build_PerspectiveCamera 75 (innerWidth w / innerHeight w) 0.1 1000
                (THREE.vec3 0 0 5))
    ∧ Basic.renderer o
      = Some (THREE.set_shadowMap true THREE.PCFSoftShadowMap
                (THREE.setSize (innerWidth w) (innerHeight w)
                   (THREE.new_renderer (nextId w + 1))))
    ∧ Basic.cube o = Some (nextId w + 4)
    ∧ Basic.isAnimating o = true ∧ Basic.animationId o = Some (nextHandle w)
    ∧ document w' = <[containerId := add_canvas (nextId w + 1) c]> (document w)
    ∧ frameCallbacks w' = frameCallbacks w ++ [(nextHandle w, basic_animate this)]
    ∧ library w' = library w ++ [THREE.render (nextId w + 1) (nextId w)]
    ∧ nextId w' = nextId w + 8 ∧ nextHandle w' = S (nextHandle w)
    ∧ listeners w' = listeners w ∧ timers w' = timers w
    ∧ enhanceds w' = enhanceds w ∧ app w' = app w.
Proof.
  intros Ho Hc. destruct w as [? ? iw ih doc ? ? ? nh n ? bs ? ? ?]. cbn in *.
  eexists _, _. split.
  - run. rewrite Hc. run. rewrite (alter_known _ _ _ _ Ho). go. ids. go.
    erewrite basic_animate_running by first [apply lookup_insert_eq | reflexivity].
    unfold requested. run. rewrite ?insert_insert_eq. reflexivity.
  - cbn -[Nat.eqb]. rewrite (alter_element _ _ _ _ Hc).
    replace (n + 1) with (S n) by lia.
    replace (n + 8) with (S (S (S (S (S (S (S (S n)))))))) by lia.
    split; [reflexivity|].
    split. { unfold basic_tick, basic_scene_built. cbn -[Nat.eqb]. ids. cbn -[Nat.eqb]. ids.
      replace (n + 2) with (S (S n)) by lia.
      replace (n + 3) with (S (S (S n))) by lia.
      replace (n + 4) with (S (S (S (S n)))) by lia.
      replace (n + 5) with (S (S (S (S (S n))))) by lia.
      replace (n + 6) with (S (S (S (S (S (S n)))))) by lia.
      replace (n + 7) with (S (S (S (S (S (S (S n))))))) by lia.
      by vm_compute. }
    replace (n + 4) with (S (S (S (S n)))) by lia.
    by repeat split.
Qed.

(** [BasicScene.init] on a scene fresh from its constructor, its container
    on the page: it returns; the scene holds the cube and the ambient,
    directional and point lights, in this order; the camera looks from
    [z = 5] with the window's aspect; the renderer has the window's size
    and soft shadow maps, and its canvas is appended to the container;
    the loop is started: the first pass has turned the cube by 0.005,
    booked one frame and rendered once; eight identities are drawn. *)
Theorem basic_init_builds_the_scene w this containerId c :
  basics w !! this = Some Basic.fresh ->
  document w !! containerId = Some c ->
  exists o w',
    BasicScene.init this containerId w = (Normal tt, w')
    ∧ basics w' = <[this := o]> (basics w)
    ∧ Basic.scene o = Some (basic_scene_built (nextId w))
    ∧ Basic.camera o
      = Some (THREE.Build_PerspectiveCamera 75 (innerWidth w / innerHeight w) 0.1 1000
                (THREE.vec3 0 0 5))
    ∧ Basic.renderer o
      = Some (THREE.set_shadowMap true THREE.PCFSoftShadowMap
                (THREE.setSize (innerWidth w) (innerHeight w)
                   (THREE.new_renderer (nextId w + 1))))
    ∧ Basic.cube o = Some (nextId w + 4)
    ∧ Basic.isAnimating o = true ∧ Basic.animationId o = Some (nextHandle w)
    ∧ document w' = <[containerId := add_canvas (nextId w + 1) c]> (document w)
    ∧ frameCallbacks w' = frameCallbacks w ++ [(nextHandle w, basic_animate this)]
    ∧ library w' = library w ++ [THREE.render (nextId w + 1) (nextId w)]
    ∧ nextId w' = nextId w + 8 ∧ nextHandle w' = S (nextHandle w)
    ∧ listeners w' = listeners w ∧ timers w' = timers w
    ∧ enhanceds w' = enhanceds w ∧ app w' = app w.
Proof.
  intros Ho Hc.
  destruct (basic_init_full w this containerId c Ho Hc) as (o & w' & Hinit & Hrest).
  exists o, w'. split; [exact Hinit|exact Hrest].
Qed.

Lemma basic_init_builds_the_scene_witness :
  exists o w',
    basics (state_after BasicScene.constructor (page sample_host sample_page 0 800 600)) !! 1
    = Some Basic.fresh
    ∧ document (state_after BasicScene.constructor (page sample_host sample_page 0 800 600))
      !! "basic-scene" = Some (panel ["scene"])
    ∧ BasicScene.init 1 "basic-scene"
        (state_after BasicScene.constructor (page sample_host sample_page 0 800 600))
      = (Normal tt, w')
    ∧ Basic.scene o = Some (basic_scene_built 2)
    ∧ Basic.cube o = Some 6
    ∧ document w' !! "basic-scene" = Some (add_canvas 3 (panel ["scene"]))
    ∧ library w' = [THREE.render 3 2].
Proof.
  set (w := state_after BasicScene.constructor (page sample_host sample_page 0 800 600)).
  assert (basics w !! 1 = Some Basic.fresh) as H1 by (by vm_compute).
  assert (document w !! "basic-scene" = Some (panel ["scene"])) as H2 by (by vm_compute).
  assert (nextId w = 2) as Hn by (by vm_compute).
  assert (library w = []) as Hl0 by (by vm_compute).
  clearbody w.
  destruct (basic_init_builds_the_scene w 1 "basic-scene" _ H1 H2)
    as (o & w' & Hinit & _ & Hs & _ & _ & Hc & _ & _ & Hd & _ & Hl & _).
  rewrite Hn in Hs, Hc, Hd, Hl. rewrite Hl0 in Hl. cbn [Nat.add Datatypes.app] in Hs, Hc, Hd, Hl.
  assert (document w' !! "basic-scene" = Some (add_canvas 3 (panel ["scene"]))) as Hd'
    by (rewrite Hd; apply lookup_insert_eq).
  exists o, w'. repeat (split; [assumption|]). assumption.
Defined.

(** ** Starting the application on any page *)

(** The script runs to its end on every page, whatever elements it
    holds: the application is made with its basic scene and the view
    ['basic']; a button that is missing gets no listener; the [resize]
    and [beforeunload] listeners are always registered; and the basic
    scene is initialised and animating exactly when its container is on
    the page, and fresh from its constructor otherwise. *)
Theorem startup_never_throws h doc t iw ih :
  exists w,
    App.main (page h doc t iw ih) = (Normal tt, w)
    ∧ app w = Application.Build_Fields (Some 1) None "basic"
    ∧ threejsApp w = true
    ∧ listeners w
      = match doc !! "enhanced-btn" with
        | Some _ => [(element "enhanced-btn", "click", app_showEnhancedView)]
        | None => []
        end
        ++ match doc !! "back-btn" with
           | Some _ => [(element "back-btn", "click", app_showBasicView)]
           | None => []
           end
        ++ [(window, "resize", app_handleWindowResize);
            (window, "beforeunload", app_beforeunload)]
    ∧ enhanceds w = ∅ ∧ timers w = []
    ∧ match doc !! "basic-scene" with
      | None =>
          basics w = {[1 := Basic.fresh]} ∧ document w = doc
          ∧ frameCallbacks w = [] ∧ library w = [] ∧ nextId w = 2
      | Some c =>
          exists o,
            basics w = {[1 := o]} ∧ BasicOK o ∧ Basic.isAnimating o = true
            ∧ document w = <["basic-scene" := add_canvas 3 c]> doc
            ∧ frameCallbacks w = [(1, basic_animate 1)]
            ∧ library w = [THREE.render 3 2] ∧ nextId w = 10
      end.
Proof.
  unfold page.
  destruct (doc !! "basic-scene") as [c|] eqn:Hc.
  - destruct (basic_init_full
                (Build_World h t iw ih doc [] [] [] 1 2 [] (<[1 := Basic.fresh]> ∅) ∅
                   (Application.Build_Fields (Some 1) None "basic") false)
                1 "basic-scene" c) as (o & w' & Hinit & Hb & Hs & Hcam & Hr & Hcu & Ha & Hid
                                       & Hd & Hf & Hl & Hn & Hnh & Hli & Ht & He & Hap);
      [apply lookup_insert_eq|exact Hc|].
    assert (forall k, k ≠ "basic-scene" ->
              <["basic-scene" := add_canvas 3 c]> doc !! k = doc !! k) as Hk.
    { intros k Hne. by rewrite lookup_insert_ne. }
    destruct w' as [? ? ? ? doc' li' fc' ti' nh' n' lib' bs' es' ap' ?].
    cbn in Hb, Hs, Hcam, Hr, Hcu, Hid, Hd, Hf, Hl, Hn, Hnh, Hli, Ht, He, Hap. subst.
    destruct (doc !! "enhanced-btn") eqn:H1, (doc !! "back-btn") eqn:H2;
      (eexists; split;
       [ run_app; unfold BasicScene.constructor, fresh_id; run_app;
         rewrite Hinit; run_app; rewrite !Hk by done; rewrite H1; run_app;
         rewrite !Hk by done; rewrite H2; run_app; reflexivity
       | cbn; do 5 (split; [reflexivity|]); exists o; rewrite insert_insert_eq;
         split; [reflexivity|]; split; [|by repeat split];
         eexists _, _, _, _, _; rewrite Hs, Hcam, Hr, Hcu;
         do 4 (split; [reflexivity|]); split; reflexivity ]).
  - destruct (doc !! "enhanced-btn") eqn:H1, (doc !! "back-btn") eqn:H2;
      (eexists; split;
       [ run_app; unfold BasicScene.constructor, fresh_id; run_app;
         unfold BasicScene.init; run_app; rewrite Hc; run_app; rewrite H1; run_app;
         rewrite H2; run_app; reflexivity
       | cbn; by repeat split ]).
Qed.

(** ** A page without the container of a scene *)

Lemma enhanced_init_throws w this containerId :
  enhanceds w !! this = Some Enhanced.fresh ->
  document w !! containerId = None ->
  EnhancedScene.init this containerId w
  = (Throw,
     set_nextId (nextId w + 2)
       (set_enhanceds
          (<[this := enhanced_half_built (nextId w) (innerWidth w) (innerHeight w)]>
             (enhanceds w)) w)).
Proof.
  intros Ho Hc. destruct w as [? ? iw ih doc ? ? ? nh n ? ? es ? ?]. cbn in *.
  run. rewrite Hc. run. rewrite (alter_known _ _ _ _ Ho). go.
  unfold enhanced_half_built. replace (n + 2) with (S (S n)) by lia.
  replace (n + 1) with (S n) by lia.
  reflexivity.
Qed.

(** The first [showEnhancedView] on a page that has no element
    ['enhanced-scene']: [init] throws at [container.appendChild] with
    the scene, the camera and the renderer made; the exception is
    caught, the application keeps the half-built scene and resumes it,
    so the view is switched and an empty scene is rendered on every
    frame; no cube, no controls and no listener are ever added, since
    later calls find [enhancedScene] set and do not initialise again. *)
Theorem showEnhancedView_without_container w b bo bv ev :
  Application.basicScene (app w) = Some b -> basics w !! b = Some bo ->
  Application.enhancedScene (app w) = None ->
  document w !! "basic-view" = Some bv -> document w !! "enhanced-view" = Some ev ->
  document w !! "enhanced-scene" = None ->
  let e := nextId w in
  let o := enhanced_tick (nextHandle w) (host w) (now w)
             (Enhanced.set_isAnimating true
                (enhanced_half_built (S e) (innerWidth w) (innerHeight w))) in
  exists w',
    App.showEnhancedView w = (Normal tt, w')
    ∧ app w' = Application.Build_Fields (Some b) (Some e) "enhanced"
    ∧ document w'
      = <["enhanced-view" := add_class "active" ev]>
          (<["basic-view" := remove_class "active" bv]> (document w))
    ∧ listeners w' = listeners w
    ∧ basics w' = <[b := Basic.set_isAnimating false bo]> (basics w)
    ∧ enhanceds w' = <[e := o]> (enhanceds w)
    ∧ Enhanced.cube o = None ∧ Enhanced.controls o = None
    ∧ Enhanced.scene o
      = Some (THREE.Node (S e)
                (THREE.new_object (THREE.Scene (THREE.ColorHex 0x060610)) None
                   THREE.NoMaterial None) [])
    ∧ frameCallbacks w'
      = cancelled (Basic.animationId bo) (frameCallbacks w)
        ++ [(nextHandle w, enhanced_animate e)]
    ∧ library w' = library w ++ [THREE.render (S (S e)) (S e)]
    ∧ Application.enhancedScene (app (state_after App.showEnhancedView w'))
      = Some e
    ∧ nextId (state_after App.showEnhancedView w') = nextId w'.
Proof.
  intros Hb Hbo He Hbv Hev Hc e o.
  destruct w as [? ? iw ih doc li fc ti nh n lib bs es [ab ae av] ?]. cbn in *. subst.
  eexists. split.
  - run_app. rewrite Hbv. run_app. rewrite lookup_alter_ne by done. rewrite Hev. run_app.
    unfold EnhancedScene.constructor, fresh_id. run_app.
    rewrite enhanced_init_throws
      by (cbn; first [apply lookup_insert_eq | by rewrite !lookup_alter_ne]).
    run_app. erewrite basic_pause_eq by side. run_app.
    erewrite enhanced_resume_eq by (cbn; rewrite insert_insert_eq; apply lookup_insert_eq).
    erewrite enhanced_animate_running
      by first [cbn; apply lookup_insert_eq | reflexivity | by intros [? [=]]].
    unfold requested. run_app. reflexivity.
  - cbn. rewrite !insert_insert_eq.
    rewrite (alter_element _ _ _ _ Hbv).
    rewrite (alter_element (add_class "active") _ "enhanced-view" ev)
      by (by rewrite lookup_insert_ne).
    rewrite ?Nat.add_1_r.
    do 10 (split; [reflexivity|]).
    unfold state_after. run_app. rewrite lookup_insert_ne by done. rewrite lookup_insert_eq.
    run_app. rewrite lookup_alter_ne by done. rewrite lookup_insert_eq. run_app.
    erewrite basic_pause_eq by side. run_app.
    erewrite enhanced_resume_eq by side.
    erewrite enhanced_animate_running
      by first [cbn; apply lookup_insert_eq | reflexivity | by intros [? [=]]].
    unfold requested. run_app. by split.
Qed.

Lemma showEnhancedView_without_container_witness :
  exists bo w',
    Application.basicScene (app (loaded sample_host (sample_page_without "enhanced-scene")
                                   0 800 600)) = Some 1
    ∧ basics (loaded sample_host (sample_page_without "enhanced-scene") 0 800 600) !! 1
      = Some bo
    ∧ Application.enhancedScene
        (app (loaded sample_host (sample_page_without "enhanced-scene") 0 800 600)) = None
    ∧ document (loaded sample_host (sample_page_without "enhanced-scene") 0 800 600)
      !! "basic-view" = Some (panel ["view"; "active"])
    ∧ document (loaded sample_host (sample_page_without "enhanced-scene") 0 800 600)
      !! "enhanced-view" = Some (panel ["view"])
    ∧ document (loaded sample_host (sample_page_without "enhanced-scene") 0 800 600)
      !! "enhanced-scene" = None
    ∧ App.showEnhancedView (loaded sample_host (sample_page_without "enhanced-scene") 0 800 600)
      = (Normal tt, w')
    ∧ app w' = Application.Build_Fields (Some 1) (Some 10) "enhanced"
    ∧ listeners w'
      = listeners (loaded sample_host (sample_page_without "enhanced-scene") 0 800 600)
    ∧ library w' = [THREE.render 3 2; THREE.render 12 11].
Proof.
  set (w := loaded sample_host (sample_page_without "enhanced-scene") 0 800 600).
  destruct (basics w !! 1) as [bo|] eqn:Hb; [|by vm_compute in Hb].
  assert (Application.basicScene (app w) = Some 1) as H1 by (by vm_compute).
  assert (Application.enhancedScene (app w) = None) as H2 by (by vm_compute).
  assert (document w !! "basic-view" = Some (panel ["view"; "active"])) as H3
    by (by vm_compute).
  assert (document w !! "enhanced-view" = Some (panel ["view"])) as H4 by (by vm_compute).
  assert (document w !! "enhanced-scene" = None) as H5 by (by vm_compute).
  assert (nextId w = 10) as Hn by (by vm_compute).
  assert (library w = [THREE.render 3 2]) as Hl0 by (by vm_compute).
  clearbody w.
  destruct (showEnhancedView_without_container w 1 bo _ _ H1 Hb H2 H3 H4 H5)
    as (w' & Hrun & Ha & _ & Hl & _ & _ & _ & _ & _ & _ & Hlib & _).
  rewrite Hn in Ha, Hlib. rewrite Hl0 in Hlib. cbn [Datatypes.app] in Hlib.
  exists bo, w'. repeat (split; [first [assumption | reflexivity]|]). assumption.
Defined.

(** [showBasicView] when the basic scene has no renderer, as it is left
    when its container was missing at startup, whatever the view shown:
    the panels are switched and the enhanced scene, if there is one, is
    paused; then [resume] books a frame and [render] throws on the null
    renderer; the exception is caught, so [currentView] keeps the value
    it had (['enhanced'] when the enhanced view was shown), although
    the basic panel is now the active one; nothing is rendered; and the
    booked callback throws again when it runs, after booking the next. *)
Theorem showBasicView_on_uninitialised_scene w b bo bv ev :
  Application.basicScene (app w) = Some b -> basics w !! b = Some bo ->
  Basic.renderer bo = None ->
  (forall e, Application.enhancedScene (app w) = Some e -> is_Some (enhanceds w !! e)) ->
  document w !! "basic-view" = Some bv -> document w !! "enhanced-view" = Some ev ->
  exists w',
    App.showBasicView w = (Normal tt, w')
    ∧ app w' = app w
    ∧ document w'
      = <["basic-view" := add_class "active" bv]>
          (<["enhanced-view" := remove_class "active" ev]> (document w))
    ∧ basics w'
      = <[b := basic_tick (nextHandle w) (Basic.set_isAnimating true bo)]> (basics w)
    ∧ match Application.enhancedScene (app w) ≫= (λ e, (e,.) <$> enhanceds w !! e) with
      | Some (e, eo) =>
          enhanceds w' = <[e := Enhanced.set_isAnimating false eo]> (enhanceds w)
          ∧ frameCallbacks w'
            = cancelled (Enhanced.animationId eo) (frameCallbacks w)
              ++ [(nextHandle w, basic_animate b)]
      | None =>
          enhanceds w' = enhanceds w
          ∧ frameCallbacks w' = frameCallbacks w ++ [(nextHandle w, basic_animate b)]
      end
    ∧ library w' = library w
    ∧ listeners w' = listeners w
    ∧ exists w'',
        run_callback (basic_animate b) w' = (Throw, w'')
        ∧ frameCallbacks w''
          = frameCallbacks w' ++ [(nextHandle w', basic_animate b)]
        ∧ library w'' = library w
        ∧ app w'' = app w.
Proof.
  intros Hb Hbo Hr He Hbv Hev.
  destruct w as [? ? iw ih doc li fc ti nh n lib bs es [ab ae av] ?]. cbn in *. subst.
  destruct ae as [e|].
  - destruct (He e eq_refl) as [eo Heo]. cbn. rewrite Heo. cbn.
    eexists. split.
    + run_app. rewrite Hev. run_app. rewrite lookup_alter_ne by done. rewrite Hbv. run_app.
      erewrite enhanced_pause_eq by side. run_app.
      erewrite basic_resume_eq by side.
      erewrite basic_animate_broken
        by first [cbn; apply lookup_insert_eq | by destruct bo | left; by destruct bo].
      unfold requested. run_app. reflexivity.
    + cbn. rewrite !insert_insert_eq.
      rewrite (alter_element _ _ _ _ Hev).
      rewrite (alter_element (add_class "active") _ "basic-view" bv)
        by (by rewrite lookup_insert_ne).
      repeat (split; [by repeat split|]).
      eexists. split.
      * erewrite basic_animate_broken
          by first [cbn; apply lookup_insert_eq | by destruct bo; cbn; destruct cube
                   | left; destruct bo; cbn in *; by destruct cube].
        reflexivity.
      * by repeat split.
  - cbn. eexists. split.
    + run_app. rewrite Hev. run_app. rewrite lookup_alter_ne by done. rewrite Hbv. run_app.
      erewrite basic_resume_eq by side.
      erewrite basic_animate_broken
        by first [cbn; apply lookup_insert_eq | by destruct bo | left; by destruct bo].
      unfold requested. run_app. reflexivity.
    + cbn. rewrite !insert_insert_eq.
      rewrite (alter_element _ _ _ _ Hev).
      rewrite (alter_element (add_class "active") _ "basic-view" bv)
        by (by rewrite lookup_insert_ne).
      repeat (split; [by repeat split|]).
      eexists. split.
      * erewrite basic_animate_broken
          by first [cbn; apply lookup_insert_eq | by destruct bo; cbn; destruct cube
                   | left; destruct bo; cbn in *; by destruct cube].
        reflexivity.
      * by repeat split.
Qed.

Lemma showBasicView_on_uninitialised_scene_witness :
  exists bo w' w'',
    Application.basicScene
      (app (step (loaded sample_host (sample_page_without "basic-scene") 0 800 600)
              (click (element "enhanced-btn")))) = Some 1
    ∧ basics (step (loaded sample_host (sample_page_without "basic-scene") 0 800 600)
                (click (element "enhanced-btn"))) !! 1 = Some bo
    ∧ Basic.renderer bo = None
    ∧ Application.enhancedScene
        (app (step (loaded sample_host (sample_page_without "basic-scene") 0 800 600)
                (click (element "enhanced-btn")))) = Some 2
    ∧ is_Some (enhanceds (step (loaded sample_host (sample_page_without "basic-scene")
                                  0 800 600) (click (element "enhanced-btn"))) !! 2)
    ∧ document (step (loaded sample_host (sample_page_without "basic-scene") 0 800 600)
                  (click (element "enhanced-btn"))) !! "basic-view" = Some (panel ["view"])
    ∧ document (step (loaded sample_host (sample_page_without "basic-scene") 0 800 600)
                  (click (element "enhanced-btn"))) !! "enhanced-view"
      = Some (panel ["view"; "active"])
    ∧ App.showBasicView (step (loaded sample_host (sample_page_without "basic-scene")
                                 0 800 600) (click (element "enhanced-btn")))
      = (Normal tt, w')
    ∧ Application.currentView (app w') = "enhanced"
    ∧ document w' !! "basic-view" = Some (panel ["view"; "active"])
    ∧ document w' !! "enhanced-view" = Some (panel ["view"])
    ∧ run_callback (basic_animate 1) w' = (Throw, w'')
    ∧ Application.currentView (app w'') = "enhanced".
Proof.
  set (w := step (loaded sample_host (sample_page_without "basic-scene") 0 800 600)
              (click (element "enhanced-btn"))).
  assert (Application.basicScene (app w) = Some 1) as H1 by (by vm_compute).
  destruct (basics w !! 1) as [bo|] eqn:Hb; [|by vm_compute in Hb].
  assert (Basic.renderer bo = None) as Hr.
  { vm_compute in Hb. by injection Hb as <-. }
  assert (Application.enhancedScene (app w) = Some 2) as H2 by (by vm_compute).
  assert (is_Some (enhanceds w !! 2)) as H2' by (vm_compute; by eexists).
  assert (document w !! "basic-view" = Some (panel ["view"])) as H3 by (by vm_compute).
  assert (document w !! "enhanced-view" = Some (panel ["view"; "active"])) as H4
    by (by vm_compute).
  assert (Application.currentView (app w) = "enhanced") as Hv by (by vm_compute).
  clearbody w.
  assert (forall e, Application.enhancedScene (app w) = Some e -> is_Some (enhanceds w !! e))
    as H5.
  { intros e H. rewrite H2 in H. by injection H as <-. }
  destruct (showBasicView_on_uninitialised_scene w 1 bo _ _ H1 Hb Hr H5 H3 H4)
    as (w' & Hrun & Ha & Hd & _ & _ & _ & _ & w'' & Hcb & _ & _ & Ha').
  assert (Application.currentView (app w') = "enhanced") as Hv' by (by rewrite Ha).
  assert (Application.currentView (app w'') = "enhanced") as Hv'' by (by rewrite Ha').
  assert (document w' !! "basic-view" = Some (panel ["view"; "active"])) as Hd1
    by (rewrite Hd; apply lookup_insert_eq).
  assert (document w' !! "enhanced-view" = Some (panel ["view"])) as Hd2.
  { rewrite Hd, lookup_insert_ne by done. apply lookup_insert_eq. }
  exists bo, w', w''. repeat (split; [first [assumption | reflexivity]|]). assumption.
Defined.

(** ** Disposing of the application *)

(** [App.dispose] on an application that holds its basic scene, and
    perhaps the enhanced one: it returns; both references are set to
    null and [currentView] stays; each scene is stopped and its renderer
    and the geometries and materials of its scene graph are disposed of
    (for the enhanced scene its controls first), the basic scene before
    the enhanced one; no listener is removed and the page keeps its
    elements; a [resize] afterwards does nothing; and the [beforeunload]
    listener does exactly this when [window.threejsApp] is set. *)
Theorem app_dispose_releases_the_scenes w b bo :
  Application.basicScene (app w) = Some b -> basics w !! b = Some bo ->
  (forall e, Application.enhancedScene (app w) = Some e -> is_Some (enhanceds w !! e)) ->
  exists w',
    App.dispose w = (Normal tt, w')
    ∧ app w' = Application.Build_Fields None None (Application.currentView (app w))
    ∧ listeners w' = listeners w ∧ document w' = document w
    ∧ basics w' = <[b := Basic.set_isAnimating false bo]> (basics w)
    ∧ library w'
      = library w
        ++ (renderer_calls (Basic.renderer bo) ++ scene_calls (Basic.scene bo))
        ++ match Application.enhancedScene (app w) ≫= (λ e, enhanceds w !! e) with
           | Some eo =>
               controls_dispose_calls (Enhanced.controls eo)
               ++ renderer_calls (Enhanced.renderer eo) ++ scene_calls (Enhanced.scene eo)
           | None => []
           end
    ∧ (forall e eo, Application.enhancedScene (app w) = Some e ->
         enhanceds w !! e = Some eo ->
         enhanceds w' = <[e := Enhanced.set_isAnimating false eo]> (enhanceds w))
    ∧ App.handleWindowResize w' = (Normal tt, w')
    ∧ (threejsApp w = true -> forall p, run_listener app_beforeunload p w = (Normal tt, w')).
Proof.
  intros Hb Hbo He.
  destruct w as [? ? iw ih doc li fc ti nh n lib bs es [ab ae av] live]. cbn in *. subst.
  destruct ae as [e|].
  - destruct (He e eq_refl) as [eo Heo].
    eexists. split.
    + run_app. erewrite basic_dispose_eq by side. run_app.
      erewrite enhanced_dispose_eq by side. run_app. reflexivity.
    + cbn. rewrite Heo. cbn. rewrite <- !app_assoc.
      do 5 (split; [reflexivity|]).
      split. { intros e' eo' [= <-]. rewrite Heo. by intros [= <-]. }
      split. { unfold App.handleWindowResize, try_catch, bind, gets. cbn.
               by destruct (String.eqb av "basic"), (String.eqb av "enhanced"). }
      intros ->. intros p. run_app. erewrite basic_dispose_eq by side. run_app.
      erewrite enhanced_dispose_eq by side. run_app. by rewrite <- !app_assoc.
  - eexists. split.
    + run_app. erewrite basic_dispose_eq by side. run_app. reflexivity.
    + cbn. rewrite app_nil_r.
      do 5 (split; [reflexivity|]).
      split; [done|].
      split. { unfold App.handleWindowResize, try_catch, bind, gets. cbn.
               by destruct (String.eqb av "basic"), (String.eqb av "enhanced"). }
      intros ->. intros p. run_app. erewrite basic_dispose_eq by side. run_app.
      reflexivity.
Qed.

Lemma app_dispose_releases_the_scenes_witness :
  exists bo eo w',
    Application.basicScene (app sample_enhanced) = Some 1
    ∧ basics sample_enhanced !! 1 = Some bo
    ∧ Application.enhancedScene (app sample_enhanced) = Some 10
    ∧ enhanceds sample_enhanced !! 10 = Some eo
    ∧ App.dispose sample_enhanced = (Normal tt, w')
    ∧ app w' = Application.Build_Fields None None "enhanced"
    ∧ enhanceds w' = <[10 := Enhanced.set_isAnimating false eo]> (enhanceds sample_enhanced)
    ∧ App.handleWindowResize w' = (Normal tt, w')
    ∧ run_listener app_beforeunload no_payload sample_enhanced = (Normal tt, w').
Proof.
  unfold sample_enhanced. set (w := step sample_load showEnhancedView).
  destruct (basics w !! 1) as [bo|] eqn:Hb; [|by vm_compute in Hb].
  destruct (enhanceds w !! 10) as [eo|] eqn:He; [|by vm_compute in He].
  assert (Application.basicScene (app w) = Some 1) as H1 by (by vm_compute).
  assert (Application.enhancedScene (app w) = Some 10) as H2 by (by vm_compute).
  assert (Application.currentView (app w) = "enhanced") as Hv by (by vm_compute).
  assert (threejsApp w = true) as Ht by (by vm_compute).
  clearbody w.
  assert (forall e, Application.enhancedScene (app w) = Some e -> is_Some (enhanceds w !! e))
    as H3.
  { intros e H. rewrite H2 in H. injection H as <-. rewrite He. by eexists. }
  destruct (app_dispose_releases_the_scenes w 1 bo H1 Hb H3)
    as (w' & Hrun & Ha & _ & _ & _ & _ & Hen & Hrs & Hun).
  rewrite Hv in Ha.
  pose proof (Hen 10 eo H2 He) as Hen'. pose proof (Hun Ht no_payload) as Hun'.
  exists bo, eo, w'. repeat (split; [first [assumption | reflexivity]|]). assumption.
Defined.

(** ** The canvas of the enhanced scene: mouse moves and clicks *)

Lemma canvas_listeners w e :
  Inv w -> Application.enhancedScene (app w) = Some e ->
  exists o r, enhanceds w !! e = Some o ∧ Enhanced.renderer o = Some r
    ∧ listeners_for (domElement (THREE.rid r)) "mousemove" w = [enhanced_mousemove e]
    ∧ listeners_for (domElement (THREE.rid r)) "click" w = [enhanced_click e].
Proof.
  intros Hw He. destruct (enhanced_renderer_id w e Hw He) as (o & r & Ho & Hr & Hl).
  exists o, r. split; [done|]. split; [done|].
  unfold listeners_for. rewrite Hl. unfold app_listeners, enhanced_listeners.
  split; rewrite filter_app;
    repeat first
      [ rewrite filter_cons_True by (by cbn)
      | rewrite filter_cons_False by (cbn; intros [? ?]; congruence) ];
    reflexivity.
Qed.

Lemma listeners_for_same t ty w w' :
  listeners w' = listeners w -> listeners_for t ty w' = listeners_for t ty w.
Proof. unfold listeners_for. by intros ->. Qed.

(** With the orbit controls enabled a pass of the loop does not read the
    mouse. *)
Lemma enhanced_tick_mouse k h t mx my tx ty o oc :
  Enhanced.controls o = Some oc -> THREE.enabled oc = true ->
  enhanced_tick k h t (Enhanced.set_mouse mx my tx ty o)
  = Enhanced.set_mouse mx my tx ty (enhanced_tick k h t o).
Proof.
  intros Hoc Hen. destruct o. cbn in *. subst.
  unfold enhanced_tick, enhanced_tick_scene. cbn. by rewrite Hen.
Qed.

(** In every state the page reaches with the enhanced scene made, a mouse
    move over the canvas records the pointer ([mouseX], [mouseY] in
    [-1, 1] coordinates and the two target rotations, half of them) and
    changes nothing else on the page; and it commutes with a tick of the
    enhanced loop: the mouse never steers the cube, the orbit controls
    being enabled throughout. *)
Theorem mouse_never_steers_the_cube h doc t iw ih es e cx cy :
  index_html doc ->
  let w := run es (loaded h doc t iw ih) in
  Application.enhancedScene (app w) = Some e ->
  exists o r,
    enhanceds w !! e = Some o ∧ Enhanced.renderer o = Some r
    ∧ let move := mousemove (domElement (THREE.rid r)) cx cy in
      let tick := state_after (run_callback (enhanced_animate e)) in
      let mx := (cx / innerWidth w * 2 - 1)%float in
      let my := (- (cy / innerHeight w) * 2 + 1)%float in
      step w move
      = set_enhanceds
          (<[e := Enhanced.set_mouse mx my (my * 0.5) (mx * 0.5) o]> (enhanceds w)) w
      ∧ tick (step w move) = step (tick w) move.
Proof.
  intros Hdoc w He.
  pose proof (reachable_Inv h doc t iw ih es Hdoc) as Hw. fold w in Hw. clearbody w.
  destruct (canvas_listeners w e Hw He) as (o & r & Ho & Hr & Hmove & _).
  exists o, r. split; [done|]. split; [done|]. cbv zeta.
  assert (forall w', listeners w' = listeners w ->
            step w' (mousemove (domElement (THREE.rid r)) cx cy)
            = state_after (EnhancedScene.on_mousemove e cx cy) w') as Hstep.
  { intros w' Hl. unfold step. cbn [handle].
    rewrite (dispatch_one _ _ _ (enhanced_mousemove e))
      by (by rewrite (listeners_for_same _ _ w w' Hl)).
    reflexivity. }
  destruct (inv_enhanceds w Hw e o Ho)
    as (_ & (s & cam & r' & c & oc & n & Hs & Hcam & Hr' & Hc & Hoc & Hen & _) & _).
  rewrite Hstep by done. unfold state_after. cbn [run_callback].
  rewrite on_mousemove_eq. cbn [snd].
  rewrite (alter_known _ _ _ _ Ho). split; [done|].
  set (o1 := Enhanced.set_mouse (cx / innerWidth w * 2 - 1) (- (cy / innerHeight w) * 2 + 1)
               ((- (cy / innerHeight w) * 2 + 1) * 0.5) ((cx / innerWidth w * 2 - 1) * 0.5) o).
  set (w1 := set_enhanceds (<[e := o1]> (enhanceds w)) w).
  assert (enhanceds w1 !! e = Some o1) as Ho1 by (destruct w; apply lookup_insert_eq).
  destruct (Enhanced.isAnimating o) eqn:Ha.
  - rewrite (enhanced_animate_running w1 e o1 r s cam Ho1)
      by first [by destruct o | intros _; destruct o; cbn in *; by rewrite Hoc].
    rewrite (enhanced_animate_running w e o r s cam Ho Ha Hr Hs Hcam)
      by (intros _; by rewrite Hoc).
    cbn [snd]. rewrite Hstep by (by destruct w).
    unfold state_after. rewrite on_mousemove_eq. cbn [snd].
    unfold o1. rewrite (enhanced_tick_mouse _ _ _ _ _ _ _ o oc Hoc Hen).
    destruct w, o. cbn in *. by rewrite insert_insert_eq, alter_insert_eq.
  - rewrite (enhanced_animate_paused w1 e o1 Ho1) by (by destruct o).
    rewrite (enhanced_animate_paused w e o Ho Ha). cbn [snd].
    rewrite Hstep by done. unfold state_after. rewrite on_mousemove_eq. cbn [snd].
    by rewrite (alter_known _ _ _ _ Ho).
Qed.

Lemma mouse_never_steers_the_cube_witness :
  exists o r,
    index_html sample_page
    ∧ Application.enhancedScene (app (run [showEnhancedView] sample_load)) = Some 10
    ∧ enhanceds (run [showEnhancedView] sample_load) !! 10 = Some o
    ∧ Enhanced.renderer o = Some r
    ∧ step (run [showEnhancedView] sample_load) (mousemove (domElement (THREE.rid r)) 200 150)
      = set_enhanceds
          (<[10 := Enhanced.set_mouse (200 / 800 * 2 - 1) (- (150 / 600) * 2 + 1)
                     ((- (150 / 600) * 2 + 1) * 0.5) ((200 / 800 * 2 - 1) * 0.5) o]>
             (enhanceds (run [showEnhancedView] sample_load)))
          (run [showEnhancedView] sample_load).
Proof.
  unfold sample_load.
  pose proof (mouse_never_steers_the_cube sample_host sample_page 0 800 600 [showEnhancedView]
                10 200 150 sample_page_ok) as H.
  cbv zeta in H.
  set (w := run [showEnhancedView] (loaded sample_host sample_page 0 800 600)) in *.
  assert (Application.enhancedScene (app w) = Some 10) as He by (by vm_compute).
  assert (innerWidth w = 800%float) as Hiw by (by vm_compute).
  assert (innerHeight w = 600%float) as Hih by (by vm_compute).
  clearbody w. destruct (H He) as (o & r & Ho & Hr & Hstep & _).
  rewrite Hiw, Hih in Hstep.
  exists o, r. split; [exact sample_page_ok|]. repeat (split; [assumption|]). assumption.
Defined.

Lemma pulse_end_eq w this x o c :
  enhanceds w !! this = Some o -> Enhanced.cube o = Some c ->
  EnhancedScene.pulse_end this x w
  = (Normal tt,
     set_enhanceds
       (<[this := in_scene c (THREE.set_scale (THREE.vec3 x x x)) o]> (enhanceds w)) w).
Proof.
  intros H Hc. destruct w. cbn in *.
  unfold EnhancedScene.pulse_end, bind, EnhancedScene.read. cbn. rewrite H, Hc.
  unfold EnhancedScene.update_object, EnhancedScene.write, modify. cbn.
  by rewrite (alter_known _ _ _ _ H).
Qed.

Lemma cube_scale_set w this o s c n v :
  enhanceds w !! this = Some o -> Enhanced.scene o = Some s -> Enhanced.cube o = Some c ->
  THREE.find c s = Some n ->
  forall w',
    enhanceds w' = <[this := in_scene c (THREE.set_scale v) o]> (enhanceds w) ->
    cube_scale w' this = Some v.
Proof.
  intros Ho Hs Hc Hn w' Hw'. unfold cube_scale. rewrite Hw', lookup_insert_eq. cbn.
  unfold in_scene. destruct o. cbn in *. subst. cbn.
  rewrite find_update, Hn. cbn.
  by rewrite update_props, (find_id _ _ _ Hn), Nat.eqb_refl.
Qed.

Lemma click_effect w e :
  Inv w -> Application.enhancedScene (app w) = Some e ->
  exists o r s c n,
    enhanceds w !! e = Some o ∧ Enhanced.renderer o = Some r
    ∧ Enhanced.scene o = Some s ∧ Enhanced.cube o = Some c ∧ THREE.find c s = Some n
    ∧ let x0 := THREE.x (THREE.scale (THREE.props_of n)) in
      step w (click (domElement (THREE.rid r)))
      = set_nextHandle (S (nextHandle w))
          (set_timers (timers w ++ [(nextHandle w, enhanced_pulse_end e x0)])
             (set_enhanceds
                (<[e := in_scene c
                          (THREE.set_scale (THREE.vec3 (x0 * 1.2) (x0 * 1.2) (x0 * 1.2)))
                          o]> (enhanceds w)) w)).
Proof.
  intros Hw He.
  destruct (canvas_listeners w e Hw He) as (o & r & Ho & Hr & _ & Hclick).
  destruct (inv_enhanceds w Hw e o Ho)
    as (_ & (s & cam & r' & c & oc & n & Hs & Hcam & Hr' & Hc & Hoc & Hen & Hn & _) & _).
  exists o, r, s, c, n. do 5 (split; [done|]). cbv zeta.
  unfold step. cbn [handle]. rewrite (dispatch_one _ _ _ (enhanced_click e)) by done.
  unfold state_after. cbn [run_listener].
  rewrite (on_click_eq w e o c (THREE.props_of n) Ho Hc)
    by (unfold EnhancedScene.object_props; rewrite Hs; cbn; by rewrite Hn).
  reflexivity.
Qed.

Lemma cube_scale_read w e o s c n :
  enhanceds w !! e = Some o -> Enhanced.scene o = Some s -> Enhanced.cube o = Some c ->
  THREE.find c s = Some n -> cube_scale w e = Some (THREE.scale (THREE.props_of n)).
Proof.
  intros Ho Hs Hc Hn. unfold cube_scale. rewrite Ho. cbn. rewrite Hs. cbn. rewrite Hc. cbn.
  by rewrite Hn.
Qed.

Lemma pulse_end_sets_scale w e x :
  Inv w -> Application.enhancedScene (app w) = Some e ->
  cube_scale (state_after (run_callback (enhanced_pulse_end e x)) w) e
  = Some (THREE.vec3 x x x).
Proof.
  intros Hw He. destruct (inv_enhanced w Hw e He) as [o Ho].
  destruct (inv_enhanceds w Hw e o Ho)
    as (_ & (s & cam & r & c & oc & n & Hs & _ & _ & Hc & _ & _ & Hn & _) & _).
  unfold state_after. cbn [run_callback]. rewrite (pulse_end_eq w e _ o c Ho Hc).
  cbn [snd]. eapply (cube_scale_set w e o s c n); eauto; by destruct w.
Qed.

Lemma callback_keeps_scene w cb e :
  Inv w -> Application.enhancedScene (app w) = Some e ->
  Inv (state_after (run_callback cb) w)
  ∧ Application.enhancedScene (app (state_after (run_callback cb) w)) = Some e.
Proof.
  intros Hw He. destruct (callback_good w cb Hw) as (Hw' & (_ & _ & Hev) & _).
  unfold state_after in *. rewrite try_catch_state in Hw', Hev.
  split; [done|]. by destruct (Hev e He).
Qed.

(** In every state the page reaches with the enhanced scene made, a click
    on the canvas scales the cube to 1.2 times its [scale.x] on all three
    axes and books one timer; and whenever that timer's callback runs,
    whatever happened meanwhile, it sets the cube's scale to the
    [scale.x] read at the click, on all three axes. *)
Theorem click_pulses_the_cube h doc t iw ih es e :
  index_html doc ->
  let w := run es (loaded h doc t iw ih) in
  Application.enhancedScene (app w) = Some e ->
  exists o r x0,
    enhanceds w !! e = Some o ∧ Enhanced.renderer o = Some r
    ∧ THREE.x <$> cube_scale w e = Some x0
    ∧ let w1 := step w (click (domElement (THREE.rid r))) in
      cube_scale w1 e = Some (THREE.vec3 (x0 * 1.2) (x0 * 1.2) (x0 * 1.2))
      ∧ timers w1 = timers w ++ [(nextHandle w, enhanced_pulse_end e x0)]
      ∧ frameCallbacks w1 = frameCallbacks w ∧ library w1 = library w
      ∧ forall es',
          cube_scale (state_after (run_callback (enhanced_pulse_end e x0)) (run es' w1)) e
          = Some (THREE.vec3 x0 x0 x0).
Proof.
  intros Hdoc w He.
  pose proof (reachable_Inv h doc t iw ih es Hdoc) as Hw. fold w in Hw. clearbody w.
  destruct (click_effect w e Hw He) as (o & r & s & c & n & Ho & Hr & Hs & Hc & Hn & Hw1eq).
  exists o, r, (THREE.x (THREE.scale (THREE.props_of n))).
  split; [done|]. split; [done|].
  split; [by rewrite (cube_scale_read w e o s c n)|].
  cbv zeta in *.
  set (w1 := step w (click (domElement (THREE.rid r)))) in *.
  assert (Inv w1) as Hw1 by apply (step_good w _ Hw).
  assert (Application.enhancedScene (app w1) = Some e) as He1.
  { destruct (step_good w (click (domElement (THREE.rid r))) Hw) as (_ & (_ & _ & Hev) & _).
    by destruct (Hev e He). }
  clearbody w1.
  split. { eapply (cube_scale_set w e o s c n); eauto. rewrite Hw1eq. by destruct w. }
  split; [rewrite Hw1eq; by destruct w|]. split; [rewrite Hw1eq; by destruct w|].
  split; [rewrite Hw1eq; by destruct w|].
  intros es'. apply pulse_end_sets_scale; [by apply run_Inv|].
  destruct (run_evolves es' w1 Hw1) as (_ & _ & Hev). by destruct (Hev e He1).
Qed.

Lemma click_pulses_the_cube_witness :
  exists o r,
    index_html sample_page
    ∧ Application.enhancedScene (app (run [showEnhancedView] sample_load)) = Some 10
    ∧ enhanceds (run [showEnhancedView] sample_load) !! 10 = Some o
    ∧ Enhanced.renderer o = Some r
    ∧ cube_scale (run [showEnhancedView] sample_load) 10 = Some (THREE.vec3 1 1 1)
    ∧ cube_scale (step (run [showEnhancedView] sample_load) (click (domElement (THREE.rid r))))
        10
      = Some (THREE.vec3 (1 * 1.2) (1 * 1.2) (1 * 1.2))
    ∧ timers (step (run [showEnhancedView] sample_load) (click (domElement (THREE.rid r))))
      = [(4, enhanced_pulse_end 10 1)]
    ∧ cube_scale
        (state_after (run_callback (enhanced_pulse_end 10 1))
           (step (run [showEnhancedView] sample_load) (click (domElement (THREE.rid r)))))
        10
      = Some (THREE.vec3 1 1 1).
Proof.
  unfold sample_load.
  pose proof (click_pulses_the_cube sample_host sample_page 0 800 600 [showEnhancedView]
                10 sample_page_ok) as H.
  cbv zeta in H.
  set (w := run [showEnhancedView] (loaded sample_host sample_page 0 800 600)) in *.
  assert (Application.enhancedScene (app w) = Some 10) as He by (by vm_compute).
  assert (cube_scale w 10 = Some (THREE.vec3 1 1 1)) as Hs by (by vm_compute).
  assert (nextHandle w = 4) as Hn by (by vm_compute).
  assert (timers w = []) as Ht by (by vm_compute).
  clearbody w. destruct (H He) as (o & r & x0 & Ho & Hr & Hx & Hs1 & Ht1 & _ & _ & Hend).
  rewrite Hs in Hx. injection Hx as <-. rewrite Hn, Ht in Ht1. cbn [Datatypes.app] in Ht1.
  pose proof (Hend []) as Hend'. cbn [run fold_left] in Hend'.
  exists o, r. split; [exact sample_page_ok|]. repeat (split; [assumption|]). assumption.
Defined.

(** A second click before the first pulse has ended: the second click
    reads the enlarged scale, so when both timers have run, in the
    order they were booked, the cube is left at 1.2 times the scale it
    had before the first click. *)
Theorem second_click_leaves_the_cube_enlarged h doc t iw ih es e :
  index_html doc ->
  let w := run es (loaded h doc t iw ih) in
  Application.enhancedScene (app w) = Some e ->
  exists o r x0,
    enhanceds w !! e = Some o ∧ Enhanced.renderer o = Some r
    ∧ THREE.x <$> cube_scale w e = Some x0
    ∧ let canvas := domElement (THREE.rid r) in
      let w2 := run [click canvas; click canvas] w in
      let first := enhanced_pulse_end e x0 in
      let second := enhanced_pulse_end e (x0 * 1.2) in
      timers w2 = timers w ++ [(nextHandle w, first); (S (nextHandle w), second)]
      ∧ cube_scale w2 e
        = Some (THREE.vec3 (x0 * 1.2 * 1.2) (x0 * 1.2 * 1.2) (x0 * 1.2 * 1.2))
      ∧ cube_scale (state_after (run_callback second) (state_after (run_callback first) w2)) e
        = Some (THREE.vec3 (x0 * 1.2) (x0 * 1.2) (x0 * 1.2)).
Proof.
  intros Hdoc w He.
  pose proof (reachable_Inv h doc t iw ih es Hdoc) as Hw. fold w in Hw. clearbody w.
  destruct (click_effect w e Hw He) as (o & r & s & c & n & Ho & Hr & Hs & Hc & Hn & Hw1eq).
  exists o, r, (THREE.x (THREE.scale (THREE.props_of n))).
  split; [done|]. split; [done|].
  split; [by rewrite (cube_scale_read w e o s c n)|].
  cbv zeta in *. unfold run. cbn [fold_left].
  set (x0 := THREE.x (THREE.scale (THREE.props_of n))) in *.
  set (w1 := step w (click (domElement (THREE.rid r)))) in *.
  assert (Inv w1) as Hw1 by apply (step_good w _ Hw).
  assert (Application.enhancedScene (app w1) = Some e) as He1.
  { destruct (step_good w (click (domElement (THREE.rid r))) Hw) as (_ & (_ & _ & Hev) & _).
    by destruct (Hev e He). }
  clearbody w1.
  destruct (click_effect w1 e Hw1 He1)
    as (o1 & r1 & s1 & c1 & n1 & Ho1 & Hr1 & Hs1 & Hc1 & Hn1 & Hw2eq).
  assert (o1 = in_scene c (THREE.set_scale (THREE.vec3 (x0 * 1.2) (x0 * 1.2) (x0 * 1.2))) o)
    as Ho1eq.
  { rewrite Hw1eq in Ho1. destruct w. cbn in Ho1. rewrite lookup_insert_eq in Ho1.
    by injection Ho1 as <-. }
  assert (r1 = r) as -> by (subst o1; destruct o; cbn in *; congruence).
  assert (c1 = c) as -> by (subst o1; destruct o; cbn in *; congruence).
  assert (THREE.x (THREE.scale (THREE.props_of n1)) = (x0 * 1.2)%float) as Hx1.
  { subst o1. unfold in_scene in Hs1. destruct o. cbn in *. subst. cbn in Hs1.
    injection Hs1 as <-. rewrite find_update, Hn in Hn1. cbn in Hn1. injection Hn1 as <-.
    by rewrite update_props, (find_id _ _ _ Hn), Nat.eqb_refl. }
  cbv zeta in Hw2eq. rewrite Hx1 in Hw2eq.
  set (w2 := step w1 (click (domElement (THREE.rid r)))) in *.
  assert (Inv w2) as Hw2 by apply (step_good w1 _ Hw1).
  assert (Application.enhancedScene (app w2) = Some e) as He2.
  { destruct (step_good w1 (click (domElement (THREE.rid r))) Hw1) as (_ & (_ & _ & Hev) & _).
    by destruct (Hev e He1). }
  clearbody w2.
  split. { rewrite Hw2eq, Hw1eq. destruct w. cbn. by rewrite <- app_assoc. }
  split. { eapply (cube_scale_set w1 e o1 s1 c n1); eauto. rewrite Hw2eq. by destruct w1. }
  destruct (callback_keeps_scene w2 (enhanced_pulse_end e x0) e Hw2 He2) as [Hw3 He3].
  by apply pulse_end_sets_scale.
Qed.

Lemma second_click_leaves_the_cube_enlarged_witness :
  exists o r,
    index_html sample_page
    ∧ Application.enhancedScene (app (run [showEnhancedView] sample_load)) = Some 10
    ∧ enhanceds (run [showEnhancedView] sample_load) !! 10 = Some o
    ∧ Enhanced.renderer o = Some r
    ∧ cube_scale (run [showEnhancedView] sample_load) 10 = Some (THREE.vec3 1 1 1)
    ∧ cube_scale
        (state_after (run_callback (enhanced_pulse_end 10 (1 * 1.2)))
           (state_after (run_callback (enhanced_pulse_end 10 1))
              (run [click (domElement (THREE.rid r)); click (domElement (THREE.rid r))]
                 (run [showEnhancedView] sample_load))))
        10
      = Some (THREE.vec3 (1 * 1.2) (1 * 1.2) (1 * 1.2)).
Proof.
  unfold sample_load.
  pose proof (second_click_leaves_the_cube_enlarged sample_host sample_page 0 800 600
                [showEnhancedView] 10 sample_page_ok) as H.
  cbv zeta in H.
  set (w := run [showEnhancedView] (loaded sample_host sample_page 0 800 600)) in *.
  assert (Application.enhancedScene (app w) = Some 10) as He by (by vm_compute).
  assert (cube_scale w 10 = Some (THREE.vec3 1 1 1)) as Hs by (by vm_compute).
  clearbody w. destruct (H He) as (o & r & x0 & Ho & Hr & Hx & _ & _ & Hend).
  rewrite Hs in Hx. injection Hx as <-.
  exists o, r. split; [exact sample_page_ok|]. repeat (split; [assumption|]). assumption.
Defined.

(** ** The layout of the enhanced scene *)

Lemma traverse_update j f s :
  THREE.traverse (THREE.update j f s) = THREE.update j f <$> THREE.traverse s.
Proof.
  induction s as [i p cs IH] using Object3D_nested_ind.
  cbn. f_equal. induction IH as [|c cs' Hc _ IHcs]; [reflexivity|].
  cbn. rewrite fmap_app. by rewrite Hc, IHcs.
Qed.

Lemma scene_ids_update j f s : scene_ids (THREE.update j f s) = scene_ids s.
Proof.
  unfold scene_ids. rewrite traverse_update, <- list_fmap_compose.
  apply list_fmap_ext. intros _ n _. apply update_id.
Qed.

Lemma scene_kinds_update j f s :
  (forall p, THREE.kind (f p) = THREE.kind p) ->
  scene_kinds (THREE.update j f s) = scene_kinds s.
Proof.
  intros Hf. unfold scene_kinds. rewrite traverse_update, <- list_fmap_compose.
  apply list_fmap_ext. intros _ n _. cbn. rewrite update_props.
  by destruct (Nat.eqb _ _).
Qed.

Lemma scene_ids_orbit_lights time h count index ls s :
  scene_ids (orbit_lights time h count index ls s) = scene_ids s.
Proof.
  revert index s. induction ls as [|l ls IH]; intros index s; [reflexivity|].
  cbn [orbit_lights]. by rewrite IH, scene_ids_update.
Qed.

Lemma scene_kinds_orbit_lights time h count index ls s :
  scene_kinds (orbit_lights time h count index ls s) = scene_kinds s.
Proof.
  revert index s. induction ls as [|l ls IH]; intros index s; [reflexivity|].
  cbn [orbit_lights]. by rewrite IH, scene_kinds_update.
Qed.

Lemma scene_ids_tick h t o s : scene_ids (enhanced_tick_scene h t o s) = scene_ids s.
Proof.
  unfold enhanced_tick_scene.
  destruct (Enhanced.particles o), (Enhanced.lights o), (Enhanced.cube o);
    by rewrite ?scene_ids_update, ?scene_ids_orbit_lights, ?scene_ids_update.
Qed.

Lemma scene_children_update j f s :
  scene_children (THREE.update j f s) = scene_children s.
Proof.
  unfold scene_children. rewrite traverse_update, <- list_fmap_compose.
  apply list_fmap_ext. intros _ [i p cs] _. cbn. f_equal.
  rewrite <- list_fmap_compose. apply list_fmap_ext. intros _ n _. apply update_id.
Qed.

Lemma scene_children_orbit_lights time h count index ls s :
  scene_children (orbit_lights time h count index ls s) = scene_children s.
Proof.
  revert index s. induction ls as [|l ls IH]; intros index s; [reflexivity|].
  cbn [orbit_lights]. by rewrite IH, scene_children_update.
Qed.

Lemma scene_children_tick h t o s :
  scene_children (enhanced_tick_scene h t o s) = scene_children s.
Proof.
  unfold enhanced_tick_scene.
  destruct (Enhanced.particles o), (Enhanced.lights o), (Enhanced.cube o);
    by rewrite ?scene_children_update, ?scene_children_orbit_lights, ?scene_children_update.
Qed.

Lemma scene_kinds_tick h t o s : scene_kinds (enhanced_tick_scene h t o s) = scene_kinds s.
Proof.
  unfold enhanced_tick_scene.
  destruct (Enhanced.particles o), (Enhanced.lights o), (Enhanced.cube o);
    rewrite ?scene_kinds_update, ?scene_kinds_orbit_lights, ?scene_kinds_update;
    try done; intros p; unfold EnhancedScene.spin_cube; by destruct (default _ _).
Qed.

Lemma enhanced_tick_fields k h t o :
  Enhanced.cube (enhanced_tick k h t o) = Enhanced.cube o
  ∧ Enhanced.wireframe (enhanced_tick k h t o) = Enhanced.wireframe o
  ∧ Enhanced.lights (enhanced_tick k h t o) = Enhanced.lights o
  ∧ Enhanced.particles (enhanced_tick k h t o) = Enhanced.particles o
  ∧ Enhanced.scene (enhanced_tick k h t o) = enhanced_tick_scene h t o <$> Enhanced.scene o.
Proof. by destruct o. Qed.

Lemma layout_tick n k h t o : EnhancedLayout n o -> EnhancedLayout n (enhanced_tick k h t o).
Proof.
  intros (Hc & Hwf & Hl & Hp & Hs).
  destruct (enhanced_tick_fields k h t o) as (Hc' & Hwf' & Hl' & Hp' & Hs').
  unfold EnhancedLayout. rewrite Hc', Hwf', Hl', Hp', Hs'. do 4 (split; [done|]).
  destruct (Enhanced.scene o) as [s|]; [|done]. cbn [fmap option_fmap option_map] in *.
  by rewrite scene_ids_tick.
Qed.

(** ** What [EnhancedScene.init] builds *)

Lemma enhanced_init_full w this containerId c :
  enhanceds w !! this = Some Enhanced.fresh ->
  document w !! containerId = Some c ->
  (forall id, id ∈ ["rotation-speed"; "cube-color"; "wireframe"; "scale"] ->
     is_Some (document w !! id)) ->
  let n := nextId w in
  exists o w',
    EnhancedScene.init this containerId w = (Normal tt, w')
    ∧ enhanceds w' = <[this := o]> (enhanceds w)
    ∧ EnhancedLayout n o
    ∧ scene_kinds <$> Enhanced.scene o
      = Some [THREE.Scene (THREE.ColorHex 0x060610); THREE.Mesh; THREE.LineSegments;
              THREE.AmbientLight (THREE.ColorHex 0x404040);
              THREE.PointLight (THREE.ColorHex 0x6366f1) 50;
              THREE.PointLight (THREE.ColorHex 0x8b5cf6) 50;
              THREE.PointLight (THREE.ColorHex 0x06b6d4) 50;
              THREE.PointLight (THREE.ColorHex 0x10b981) 50;
              THREE.PointLight (THREE.ColorHex 0x64748b) 50;
              THREE.DirectionalLight (THREE.ColorHex 0xffffff) 2048 2048;
              THREE.Points]
    ∧ scene_children <$> Enhanced.scene o
      = Some [(n, [n + 4; n + 8; n + 9; n + 10; n + 11; n + 12; n + 13; n + 14; n + 17]);
              (n + 4, [n + 7]); (n + 7, []); (n + 8, []); (n + 9, []); (n + 10, []);
              (n + 11, []); (n + 12, []); (n + 13, []); (n + 14, []); (n + 17, [])]
    ∧ Enhanced.camera o
      = Some (THREE.Build_PerspectiveCamera 75 (innerWidth w / innerHeight w) 0.1 1000
                (THREE.vec3 0 0 6))
    ∧ Enhanced.renderer o
      = Some (THREE.set_toneMapping THREE.ACESFilmicToneMapping 1
                (THREE.set_shadowMap true THREE.PCFSoftShadowMap
                   (THREE.setSize (innerWidth w) (innerHeight w)
                      (THREE.new_renderer (n + 1)))))
    ∧ Enhanced.controls o
      = Some (THREE.Build_OrbitControls (n + 18) true true 0.05 true true true 20 2 Math_PI
                (THREE.vec3 0 0 0))
    ∧ Enhanced.isAnimating o = true ∧ Enhanced.animationId o = Some (nextHandle w)
    ∧ Enhanced.rotationSpeed o = 0.01%float
    ∧ document w' = <[containerId := add_canvas (n + 1) c]> (document w)
    ∧ listeners w' = listeners w ++ enhanced_listeners this (n + 1)
    ∧ frameCallbacks w' = frameCallbacks w ++ [(nextHandle w, enhanced_animate this)]
    ∧ library w'
      = library w ++ [THREE.controls_update (n + 18); THREE.controls_update (n + 18);
                      THREE.render (n + 1) n]
    ∧ nextId w' = n + 19 ∧ nextHandle w' = S (nextHandle w)
    ∧ timers w' = timers w ∧ basics w' = basics w ∧ app w' = app w.
Proof.
  intros H Hc Hdoc n. subst n.
  assert (forall id, id ∈ ["rotation-speed"; "cube-color"; "wireframe"; "scale"] ->
            forall f, exists e, alter f containerId (document w) !! id = Some e) as Hd.
  { intros id Hid f. apply lookup_alter_is_Some. by apply Hdoc. }
  destruct w as [? ? iw ih doc li fc ti nh n lib bs es ap ?]. cbn in *.
  destruct (Hd "rotation-speed" ltac:(listed) (add_canvas (S n))) as [c2 H2].
  destruct (Hd "cube-color" ltac:(listed) (add_canvas (S n))) as [c3 H3].
  destruct (Hd "wireframe" ltac:(listed) (add_canvas (S n))) as [c4 H4].
  destruct (Hd "scale" ltac:(listed) (add_canvas (S n))) as [c5 H5].
  clear Hd Hdoc.
  eexists _, _. split.
  - run. rewrite Hc. run. rewrite (alter_known _ _ _ _ H). go. ids. go.
    rewrite H2. go. rewrite H3. go. rewrite H4. go. rewrite H5. go.
    erewrite enhanced_animate_running
      by first [apply lookup_insert_eq | reflexivity | intros _; by eexists].
    unfold requested. run. rewrite ?insert_insert_eq. reflexivity.
  - cbn -[Nat.eqb enhanced_tick scene_kinds scene_ids].
    rewrite (alter_element _ _ _ _ Hc), <- !app_assoc.
    rewrite ?Nat.add_succ_r, ?Nat.add_0_r.
    split; [reflexivity|].
    split.
    { apply layout_tick. unfold EnhancedLayout. cbn -[Nat.eqb]. ids.
      rewrite ?Nat.add_succ_r, ?Nat.add_0_r. by repeat split. }
    split.
    { match goal with |- context [enhanced_tick ?k ?h ?t ?o] =>
        destruct (enhanced_tick_fields k h t o) as (_ & _ & _ & _ & ->) end.
      cbn -[Nat.eqb scene_kinds enhanced_tick_scene]. rewrite scene_kinds_tick.
      cbn -[Nat.eqb]. ids. reflexivity. }
    split.
    { match goal with |- context [enhanced_tick ?k ?h ?t ?o] =>
        destruct (enhanced_tick_fields k h t o) as (_ & _ & _ & _ & ->) end.
      cbn -[Nat.eqb scene_children enhanced_tick_scene]. rewrite scene_children_tick.
      cbn -[Nat.eqb]. ids. reflexivity. }
    repeat (split; [reflexivity|]). repeat (progress (cbn -[Nat.eqb]; ids)).
    by repeat split.
Qed.

(** [EnhancedScene.init] on a scene fresh from its constructor, with the
    container and the four controls on the page: it returns; the scene
    has as its children, in order, the cube, the ambient light, the five
    point lights in the order of their colours, the directional light
    and the particles, and the wireframe is the one child of the cube;
    the camera has field of view 75, the window's aspect, near 0.1 and
    far 1000 (where it stands is left to the orbit controls and not
    stated); the renderer has the window's size, soft shadow maps and
    ACES tone mapping; the orbit controls have damping on with factor
    0.05, zoom, pan and rotate enabled, [maxDistance] 20, [minDistance]
    2, [maxPolarAngle] pi and the origin as target; six listeners are
    registered in order; the canvas is appended; the loop is started,
    so one frame is booked and the library has seen [controls.update]
    twice and one [render]; nineteen identities are drawn. *)
Theorem enhanced_init_builds_the_scene w this containerId c :
  enhanceds w !! this = Some Enhanced.fresh ->
  document w !! containerId = Some c ->
  (forall id, id ∈ ["rotation-speed"; "cube-color"; "wireframe"; "scale"] ->
     is_Some (document w !! id)) ->
  let n := nextId w in
  exists o w',
    EnhancedScene.init this containerId w = (Normal tt, w')
    ∧ enhanceds w' = <[this := o]> (enhanceds w)
    ∧ EnhancedLayout n o
    ∧ scene_kinds <$> Enhanced.scene o
      = Some [THREE.Scene (THREE.ColorHex 0x060610); THREE.Mesh; THREE.LineSegments;
              THREE.AmbientLight (THREE.ColorHex 0x404040);
              THREE.PointLight (THREE.ColorHex 0x6366f1) 50;
              THREE.PointLight (THREE.ColorHex 0x8b5cf6) 50;
              THREE.PointLight (THREE.ColorHex 0x06b6d4) 50;
              THREE.PointLight (THREE.ColorHex 0x10b981) 50;
              THREE.PointLight (THREE.ColorHex 0x64748b) 50;
              THREE.DirectionalLight (THREE.ColorHex 0xffffff) 2048 2048;
              THREE.Points]
    ∧ scene_children <$> Enhanced.scene o
      = Some [(n, [n + 4; n + 8; n + 9; n + 10; n + 11; n + 12; n + 13; n + 14; n + 17]);
              (n + 4, [n + 7]); (n + 7, []); (n + 8, []); (n + 9, []); (n + 10, []);
              (n + 11, []); (n + 12, []); (n + 13, []); (n + 14, []); (n + 17, [])]
    ∧ (exists cam,
         Enhanced.camera o = Some cam
         ∧ THREE.fov cam = 75%float
         ∧ THREE.aspect cam = (innerWidth w / innerHeight w)%float
         ∧ THREE.near cam = 0.1%float ∧ THREE.far cam = 1000%float)
    ∧ Enhanced.renderer o
      = Some (THREE.set_toneMapping THREE.ACESFilmicToneMapping 1
                (THREE.set_shadowMap true THREE.PCFSoftShadowMap
                   (THREE.setSize (innerWidth w) (innerHeight w)
                      (THREE.new_renderer (n + 1)))))
    ∧ Enhanced.controls o
      = Some (THREE.Build_OrbitControls (n + 18) true true 0.05 true true true 20 2 Math_PI
                (THREE.vec3 0 0 0))
    ∧ Enhanced.isAnimating o = true ∧ Enhanced.animationId o = Some (nextHandle w)
    ∧ Enhanced.rotationSpeed o = 0.01%float
    ∧ document w' = <[containerId := add_canvas (n + 1) c]> (document w)
    ∧ listeners w' = listeners w ++ enhanced_listeners this (n + 1)
    ∧ frameCallbacks w' = frameCallbacks w ++ [(nextHandle w, enhanced_animate this)]
    ∧ library w'
      = library w ++ [THREE.controls_update (n + 18); THREE.controls_update (n + 18);
                      THREE.render (n + 1) n]
    ∧ nextId w' = n + 19 ∧ nextHandle w' = S (nextHandle w)
    ∧ timers w' = timers w ∧ basics w' = basics w ∧ app w' = app w.
Proof.
  intros H Hc Hdoc n.
  destruct (enhanced_init_full w this containerId c H Hc Hdoc)
    as (o & w' & Hinit & Hen & Hlay & Hk & Hch & Hcam & Hrest).
  exists o, w'. do 5 (split; [assumption|]). split; [|exact Hrest].
  eexists. split; [exact Hcam|]. by repeat split.
Qed.

Lemma enhanced_init_builds_the_scene_witness :
  exists o w',
    enhanceds (state_after EnhancedScene.constructor sample_load) !! 10 = Some Enhanced.fresh
    ∧ document (state_after EnhancedScene.constructor sample_load) !! "enhanced-scene"
      = Some (panel ["scene"])
    ∧ (forall id, id ∈ ["rotation-speed"; "cube-color"; "wireframe"; "scale"] ->
         is_Some (document (state_after EnhancedScene.constructor sample_load) !! id))
    ∧ EnhancedScene.init 10 "enhanced-scene" (state_after EnhancedScene.constructor sample_load)
      = (Normal tt, w')
    ∧ EnhancedLayout 11 o
    ∧ scene_children <$> Enhanced.scene o
      = Some [(11, [15; 19; 20; 21; 22; 23; 24; 25; 28]); (15, [18]); (18, []); (19, []);
              (20, []); (21, []); (22, []); (23, []); (24, []); (25, []); (28, [])]
    ∧ THREE.minDistance <$> Enhanced.controls o = Some 2%float
    ∧ enhanceds w' !! 10 = Some o
    ∧ nextId w' = 30.
Proof.
  set (w := state_after EnhancedScene.constructor sample_load).
  assert (enhanceds w !! 10 = Some Enhanced.fresh) as H1 by (by vm_compute).
  assert (document w !! "enhanced-scene" = Some (panel ["scene"])) as H2 by (by vm_compute).
  assert (forall id, id ∈ ["rotation-speed"; "cube-color"; "wireframe"; "scale"] ->
            is_Some (document w !! id)) as H3.
  { intros id Hid.
    repeat (apply elem_of_cons in Hid as [->|Hid]; [vm_compute; by eexists|]).
    apply elem_of_nil in Hid. destruct Hid. }
  assert (nextId w = 11) as Hn by (by vm_compute).
  clearbody w.
  destruct (enhanced_init_builds_the_scene w 10 "enhanced-scene" _ H1 H2 H3)
    as (o & w' & Hinit & Hen & Hlay & _ & Hch & _ & _ & Hoc & _ & _ & _ & _ & _ & _ & _ & Hid
        & _).
  rewrite Hn in Hlay, Hch, Hid. cbn [Nat.add] in Hch, Hid.
  assert (THREE.minDistance <$> Enhanced.controls o = Some 2%float) as Hmin
    by (by rewrite Hoc).
  assert (enhanceds w' !! 10 = Some o) as Ho by (rewrite Hen; apply lookup_insert_eq).
  exists o, w'. repeat (split; [assumption|]). assumption.
Defined.

(** ** The layout stays *)

Lemma layout_edit b F n o : enhanced_edit b F -> EnhancedLayout n o -> EnhancedLayout n (F o).
Proof.
  intros HF (Hc & Hwf & Hl & Hp & Hs). unfold EnhancedLayout.
  destruct HF; try (by destruct o).
  all: unfold in_scene; destruct o as [s ? ? ? ? ? ? ? ? ? ? ? ? ? ?]; cbn in *; subst;
    do 4 (split; [done|]); (destruct s as [s|]; [|done]);
    cbn [fmap option_fmap option_map] in *; by rewrite scene_ids_update.
Qed.

Lemma layout_flag n a o : EnhancedLayout n o -> EnhancedLayout n (Enhanced.set_isAnimating a o).
Proof. by destruct o. Qed.

Lemma layout_resized n o c r :
  EnhancedLayout n o ->
  EnhancedLayout n (Enhanced.set_renderer r (Enhanced.set_camera c o)).
Proof. by destruct o. Qed.

Lemma LaidOut_alter w w' this F :
  enhanceds w' = alter F this (enhanceds w) ->
  (forall n o, EnhancedLayout n o -> EnhancedLayout n (F o)) ->
  LaidOut w -> LaidOut w'.
Proof.
  intros He HF Hw e o. rewrite He.
  intros [(-> & o0 & Ho & ->)|(Hne & Ho)]%lookup_alter_Some.
  - apply HF. by apply Hw.
  - by apply Hw.
Qed.

Lemma LaidOut_insert w w' this o o' :
  enhanceds w' = <[this := o']> (enhanceds w) -> enhanceds w !! this = Some o ->
  (forall n, EnhancedLayout n o -> EnhancedLayout n o') ->
  LaidOut w -> LaidOut w'.
Proof.
  intros He Ho HF Hw e o2. rewrite He.
  intros [(-> & <-)|(Hne & Ho2)]%lookup_insert_Some.
  - apply HF. by apply Hw.
  - by apply Hw.
Qed.

Lemma LaidOut_same w w' : enhanceds w' = enhanceds w -> LaidOut w -> LaidOut w'.
Proof. intros He Hw e o. rewrite He. apply Hw. Qed.

Lemma edits_enhanceds this F w w' :
  edits this F w w' -> enhanceds w' = alter F this (enhanceds w).
Proof. unfold edits. intros ->. by destruct w. Qed.

Lemma basic_animate_laid_out w this :
  Inv w -> enhanceds (state_after (BasicScene.animate this) w) = enhanceds w.
Proof.
  intros Hw. unfold state_after.
  destruct (basics w !! this) as [o|] eqn:Ho.
  2: { by rewrite basic_animate_missing. }
  destruct (Basic.isAnimating o) eqn:Ha.
  2: { by erewrite basic_animate_paused. }
  destruct (inv_basics w Hw _ _ Ho) as (_ & (s & c & cam & r & n & Hs & Hc & Hcam & Hr & _) & _).
  erewrite basic_animate_running by eauto. by destruct w.
Qed.

Lemma enhanced_animate_laid_out w this :
  Inv w -> LaidOut w -> LaidOut (state_after (EnhancedScene.animate this) w).
Proof.
  intros Hw Hq. unfold state_after.
  destruct (enhanceds w !! this) as [o|] eqn:Ho.
  2: { by rewrite enhanced_animate_missing. }
  destruct (Enhanced.isAnimating o) eqn:Ha.
  2: { by erewrite enhanced_animate_paused. }
  destruct (inv_enhanceds w Hw _ _ Ho)
    as (_ & (s & cam & r & c & oc & n & Hs & Hcam & Hr & Hc & Hoc & _) & _).
  erewrite enhanced_animate_running by (eauto; intros _; by rewrite Hoc). cbn [snd].
  eapply (LaidOut_insert w _ this o); [by destruct w|done| |done].
  intros k. apply layout_tick.
Qed.

Lemma callback_laid_out w cb :
  Inv w -> LaidOut w -> LaidOut (state_after (try_catch (run_callback cb)) w).
Proof.
  intros Hw Hq. unfold state_after. rewrite try_catch_state.
  destruct cb as [this|this|this s]; cbn [run_callback].
  - eapply LaidOut_same; [|done]. by apply (basic_animate_laid_out w this).
  - by apply enhanced_animate_laid_out.
  - destruct (pulse_end_edits w this s) as (F & HF & He).
    eapply LaidOut_alter; [by apply edits_enhanceds| |done].
    intros n o. by apply (layout_edit false).
Qed.

Lemma showEnhancedView_first_layout w :
  Inv w -> Application.enhancedScene (app w) = None ->
  exists o,
    enhanceds (state_after App.showEnhancedView w) = {[nextId w := o]}
    ∧ EnhancedLayout (S (nextId w)) o.
Proof.
  intros Hw He.
  destruct (inv_views w Hw) as (bv & ev & Hbv & Hev & _).
  destruct (inv_basic w Hw) as (b & Hb & [bo Hbo]).
  pose proof (inv_elements w Hw) as Hel.
  destruct (Hel "enhanced-scene" ltac:(listed)) as [c Hc].
  pose proof (no_enhanced_yet w Hw He) as Hempty. clear Hw.
  destruct w as [? ? ? ? doc ? fc ? nh ni ? bs es [ab ae av] ?]. cbn in *. subst.
  unfold state_after.
  run_app. rewrite Hbv. run_app. rewrite lookup_alter_ne by done. rewrite Hev. run_app.
  unfold EnhancedScene.constructor. run_app. unfold fresh_id. run_app.
  match goal with |- context [EnhancedScene.init ?e ?cid ?W] =>
    destruct (enhanced_init_full W e cid c) as
      (o & w4 & Hinit & He4 & Hlay & _ & _ & Hcam & Hr & Hoc & Han & _ & _ & _ & _ & _ & _ & _ & _
       & _ & Hb4 & Ha4)
  end.
  { cbn. apply lookup_insert_eq. }
  { cbn. by rewrite !lookup_alter_ne. }
  { intros id Hid. cbn. rewrite !lookup_alter_is_Some. apply Hel.
    unfold required_ids.
    repeat (apply elem_of_cons in Hid as [->|Hid]); [listed..|by apply elem_of_nil in Hid]. }
  rewrite Hinit. clear Hinit. destruct w4.
  cbn in He4, Hlay, Hcam, Hr, Hoc, Han, Hb4, Ha4. subst. run_app.
  erewrite basic_pause_eq by side. run_app.
  erewrite enhanced_resume_eq by side.
  destruct Hlay as (Hlc & Hlw & Hll & Hlp & Hls).
  destruct (Enhanced.scene o) as [s|] eqn:Hs; [|discriminate].
  erewrite enhanced_animate_running
    by first [apply lookup_insert_eq | by destruct o
             | intros _; destruct o; cbn in *; subst; by eexists].
  run_app. eexists. rewrite !insert_insert_eq. split; [reflexivity|].
  apply layout_tick, layout_flag. unfold EnhancedLayout. by rewrite Hs.
Qed.

Lemma showEnhancedView_laid_out w :
  Inv w -> LaidOut w -> LaidOut (state_after App.showEnhancedView w).
Proof.
  intros Hw Hq. destruct (inv_basic w Hw) as (b & Hb & _).
  destruct (Application.enhancedScene (app w)) as [e|] eqn:He.
  - destruct (showEnhancedView_again w b e Hw Hb He) as (_ & _ & _ & _ & Hes & _).
    eapply LaidOut_alter; [exact Hes| |done].
    intros n o Ho. by apply layout_tick, layout_flag.
  - destruct (showEnhancedView_first_layout w Hw He) as (o & Hes & Hlay).
    intros e' o'. rewrite Hes. by intros [<- <-]%lookup_singleton_Some.
Qed.

Lemma showBasicView_laid_out w :
  Inv w -> LaidOut w -> LaidOut (state_after App.showBasicView w).
Proof.
  intros Hw Hq. destruct (inv_basic w Hw) as (b & Hb & _).
  destruct (showBasicView_effect w b Hw Hb) as (_ & _ & _ & _ & Hes & _).
  destruct (Application.enhancedScene (app w)) as [e|].
  - eapply LaidOut_alter; [exact Hes| |done]. intros n o. apply layout_flag.
  - by eapply LaidOut_same.
Qed.

Lemma resize_laid_out w :
  Inv w -> LaidOut w -> LaidOut (state_after App.handleWindowResize w).
Proof.
  intros Hw Hq. unfold state_after.
  destruct (inv_views w Hw) as (bv & ev & _ & _ & [(_ & _ & Hv)|(_ & _ & Hv)]).
  - destruct (inv_basic w Hw) as (b & Hb & [o Ho]).
    rewrite (handleWindowResize_basic _ _ Hv Hb), try_catch_state.
    destruct (inv_basics w Hw _ _ Ho) as (_ & (s & c & cam & r & n & Hs & Hc & Hcam & Hr & _) & _).
    erewrite basic_onWindowResize_eq by eauto. eapply LaidOut_same; [|done]. by destruct w.
  - destruct (Application.enhancedScene (app w)) as [e|] eqn:He.
    2: { by rewrite handleWindowResize_idle. }
    destruct (inv_enhanced w Hw _ He) as [o Ho].
    rewrite (handleWindowResize_enhanced _ _ Hv He), try_catch_state.
    destruct (inv_enhanceds w Hw _ _ Ho)
      as (_ & (s & cam & r & c & oc & n & Hs & Hcam & Hr & _) & _).
    erewrite enhanced_onWindowResize_eq by eauto. cbn [snd].
    eapply (LaidOut_insert w _ e o); [by destruct w|done| |done].
    intros k. apply layout_resized.
Qed.

Lemma listener_laid_out w0 w t ty l p :
  Inv w0 -> (t, ty, l) ∈ listeners w0 -> ty ≠ "beforeunload" -> Inv w -> LaidOut w ->
  LaidOut (state_after (try_catch (run_listener l p)) w).
Proof.
  intros Hw0 Hin Hty Hw Hq. unfold state_after. rewrite try_catch_state.
  rewrite (inv_listeners w0 Hw0) in Hin. unfold expected_listeners in Hin.
  apply elem_of_app in Hin as [Hin|Hin].
  - unfold app_listeners in Hin.
    repeat (apply elem_of_cons in Hin as [[= -> -> ->]|Hin]);
      [..|by apply elem_of_nil in Hin]; cbn [run_listener].
    + by apply showEnhancedView_laid_out.
    + by apply showBasicView_laid_out.
    + by apply resize_laid_out.
    + done.
  - destruct (Application.enhancedScene (app w0)) as [e|]; [|by apply elem_of_nil in Hin].
    destruct (THREE.rid <$> _) as [r|]; [|by apply elem_of_nil in Hin].
    assert (l ∈ [enhanced_rotationSpeed e; enhanced_color e; enhanced_wireframe e;
                 enhanced_scale e; enhanced_mousemove e; enhanced_click e]) as Hl.
    { unfold enhanced_listeners in Hin.
      repeat (apply elem_of_cons in Hin as [[= -> -> ->]|Hin]);
        [listed..|by apply elem_of_nil in Hin]. }
    destruct (listener_edits w e l p Hl) as (F & HF & He).
    eapply LaidOut_alter; [by apply edits_enhanceds| |done].
    intros n o. by eapply layout_edit.
Qed.

(** A loop whose every round keeps the invariant and the layout keeps both. *)
Lemma for_each_laid_out {A} (l : list A) (body : A -> JS unit) w :
  Inv w -> LaidOut w ->
  (forall a w', a ∈ l -> Inv w' -> LaidOut w' ->
     Inv (state_after (body a) w') ∧ LaidOut (state_after (body a) w')) ->
  Inv (state_after (for_each l body) w) ∧ LaidOut (state_after (for_each l body) w).
Proof.
  revert w. induction l as [|a l IH]; intros w Hw Hq Hbody; [done|].
  unfold state_after. cbn [for_each]. unfold bind.
  assert (a ∈ a :: l) as Hin by (apply elem_of_cons; by left).
  destruct (Hbody a w Hin Hw Hq) as [Hw1 Hq1]. unfold state_after in Hw1, Hq1.
  destruct (body a w) as [[[]|] w1]; cbn in *; [|done].
  apply IH; [done..|]. intros a' w' Hin'. apply Hbody. apply elem_of_cons. by right.
Qed.

Lemma step_laid_out w e : Inv w -> LaidOut w -> LaidOut (step w e).
Proof.
  intros Hw Hq. unfold step.
  assert (forall t ty p w', ty ≠ "beforeunload" -> Inv w' -> LaidOut w' ->
            listeners w' = listeners w ->
            LaidOut (state_after (dispatch t ty p) w')) as Hdispatch.
  { intros t ty p w' Hty Hw' Hq' Hl.
    change (state_after (dispatch t ty p) w')
      with (state_after (for_each (listeners_for t ty w')
              (fun l => try_catch (run_listener l p))) w').
    apply for_each_laid_out; [done..|]. intros l w2 Hl2%listeners_for_elem Hw2 Hq2.
    split.
    - by apply (listener_good w' w2 t ty l p Hw' Hl2 Hty Hw2).
    - by apply (listener_laid_out w' w2 t ty l p). }
  assert (forall h w', Inv w' -> LaidOut w' ->
            LaidOut (state_after (run_frame_callback h) w')) as Hframe.
  { intros h w' Hw' Hq'. unfold state_after, run_frame_callback, bind, gets.
    destruct (list_find _ _) as [[i [h' cb]]|]; [|done]. unfold modify.
    apply callback_laid_out.
    - eapply Inv_same; eauto; by destruct w'.
    - eapply LaidOut_same; [|done]. by destruct w'. }
  destruct e as [t|id v|id c|t cx cy|iw ih| |h|t| |]; cbn [handle].
  - by apply Hdispatch.
  - by apply Hdispatch.
  - by apply Hdispatch.
  - by apply Hdispatch.
  - unfold state_after, bind, modify. cbn [fst snd].
    apply Hdispatch; [done| | |by destruct w].
    + eapply Inv_same; eauto; by destruct w.
    + eapply LaidOut_same; [|done]. by destruct w.
  - unfold state_after, animation_frame, bind, gets.
    apply for_each_laid_out; [done..|]. intros h w' _ Hw' Hq'. split.
    + by apply (frame_callback_good w' h).
    + by apply Hframe.
  - unfold state_after, timer_fires, bind, gets.
    destruct (list_find _ _) as [[i [h' cb]]|]; [|done]. unfold modify.
    apply callback_laid_out.
    + eapply Inv_same; eauto; by destruct w.
    + eapply LaidOut_same; [|done]. by destruct w.
  - unfold state_after, modify. cbn. eapply LaidOut_same; [|done]. by destruct w.
  - by apply showEnhancedView_laid_out.
  - by apply showBasicView_laid_out.
Qed.

Lemma reachable_laid_out h doc t iw ih es :
  index_html doc -> LaidOut (run es (loaded h doc t iw ih)).
Proof.
  intros Hdoc.
  assert (LaidOut (loaded h doc t iw ih)) as Hq.
  { destruct (loaded_spec h doc t iw ih Hdoc) as (o & _ & _ & _ & _ & He & _).
    intros e o'. by rewrite He, lookup_empty. }
  pose proof (loaded_Inv h doc t iw ih Hdoc) as Hw.
  revert Hq Hw. generalize (loaded h doc t iw ih).
  induction es as [|e es IH]; intros w Hq Hw; [done|].
  cbn. apply IH; [by apply step_laid_out|]. by apply (step_good w e).
Qed.

(** ** Every object of the enhanced scene under a pass of the loop *)

Lemma props_update i j f s :
  THREE.props_of <$> THREE.find i (THREE.update j f s)
  = (λ p, if Nat.eqb i j then f p else p) <$> (THREE.props_of <$> THREE.find i s).
Proof.
  rewrite find_update. destruct (THREE.find i s) as [n|] eqn:Hn; [|done].
  cbn. by rewrite update_props, (find_id _ _ _ Hn).
Qed.

Lemma find_in_ids i s : i ∈ scene_ids s -> is_Some (THREE.find i s).
Proof.
  induction s as [j p cs IH] using Object3D_nested_ind.
  unfold scene_ids. cbn. destruct (Nat.eqb_spec j i) as [->|Hne]; [by eexists|].
  intros [?|Hin]%elem_of_cons; [congruence|].
  apply list_elem_of_fmap in Hin as (n & -> & Hn).
  apply list_elem_of_In, in_flat_map in Hn as (c & Hc & Hn).
  induction IH as [|c' cs' Hc' _ IHcs]; [by destruct Hc|].
  destruct (THREE.find (THREE.id_of n) c') as [r|] eqn:Hr; [by eexists|].
  destruct Hc as [->|Hc]; [|by apply IHcs].
  destruct Hc' as [r' Hr']; [|congruence].
  unfold scene_ids. apply list_elem_of_fmap. exists n. split; [done|]. by apply list_elem_of_In.
Qed.

Ltac tests := repeat match goal with
  | |- context [Nat.eqb ?a ?a] => rewrite (Nat.eqb_refl a)
  | |- context [Nat.eqb ?a ?b] => rewrite (proj2 (Nat.eqb_neq a b)) by lia
  | |- context [Nat.leb ?a ?b] =>
      first [ rewrite (proj2 (Nat.leb_le a b)) by lia
            | rewrite (proj2 (Nat.leb_gt a b)) by lia ]
  end.

Lemma laid_out_tick_object n h t o s i oc :
  EnhancedLayout n o -> Enhanced.scene o = Some s ->
  Enhanced.controls o = Some oc -> THREE.enabled oc = true ->
  i ∈ scene_ids s ->
  exists p,
    THREE.props_of <$> THREE.find i s = Some p
    ∧ THREE.props_of <$> THREE.find i (enhanced_tick_scene h t o s)
      = Some (tick_of_object n h t (Enhanced.rotationSpeed o) i p).
Proof.
  intros (Hc & Hwf & Hl & Hp & Hs) Hsc Hoc Hen Hi.
  destruct (find_in_ids i s Hi) as [nd Hnd].
  exists (THREE.props_of nd). split; [by rewrite Hnd|].
  rewrite Hsc in Hs. cbn in Hs. injection Hs as Hs. rewrite Hs in Hi.
  unfold enhanced_tick_scene. rewrite Hc, Hl, Hp, Hoc. cbn [fmap option_fmap option_map default].
  rewrite Hen. cbn [orbit_lights length].
  rewrite !props_update, Hnd. cbn [fmap option_fmap option_map]. f_equal.
  unfold tick_of_object.
  repeat (apply elem_of_cons in Hi as [->|Hi]); [..|by apply elem_of_nil in Hi];
    tests; cbn [andb];
    try match goal with |- context [?a - ?b] =>
      first [ replace (a - b) with 0 by lia | replace (a - b) with 1 by lia
            | replace (a - b) with 2 by lia | replace (a - b) with 3 by lia
            | replace (a - b) with 4 by lia ] end;
    reflexivity.
Qed.

(** In every state the page reaches, a tick of the enhanced loop (the
    frame callback run while [isAnimating] is true) books the next frame,
    calls [controls.update] and then [render], once each, and changes
    each object of the scene as [animate] says and no other: the cube is
    turned by [rotationSpeed] and bobs to [sin(time * 0.5) * 0.3]; point
    light [k] goes to angle [time * 0.5 + k / 5 * 2π] on the circle of
    radius 8 with intensity [0.8 + sin(time * 2 + k) * 0.3]; the
    particles turn by 0.002; the scene, the wireframe, the ambient and
    the directional light keep their properties. *)
Theorem enhanced_tick_changes_each_object h doc t iw ih es e o :
  index_html doc ->
  let w := run es (loaded h doc t iw ih) in
  enhanceds w !! e = Some o -> Enhanced.isAnimating o = true ->
  let w' := state_after (run_callback (enhanced_animate e)) w in
  exists o' s r oc,
    enhanceds w' !! e = Some o'
    ∧ Enhanced.scene o = Some s ∧ Enhanced.renderer o = Some r ∧ Enhanced.controls o = Some oc
    ∧ scene_ids s
      = [e + 1; e + 5; e + 8; e + 9; e + 10; e + 11; e + 12; e + 13; e + 14; e + 15; e + 18]
    ∧ scene_ids <$> Enhanced.scene o' = Some (scene_ids s)
    ∧ (forall i, i ∈ scene_ids s ->
         exists p,
           EnhancedScene.object_props o i = Some p
           ∧ EnhancedScene.object_props o' i
             = Some (tick_of_object (S e) h (now w) (Enhanced.rotationSpeed o) i p))
    ∧ library w'
      = library w ++ [THREE.controls_update (THREE.cid oc);
                      THREE.render (THREE.rid r) (THREE.id_of s)]
    ∧ frameCallbacks w' = frameCallbacks w ++ [(nextHandle w, enhanced_animate e)]
    ∧ Enhanced.animationId o' = Some (nextHandle w)
    ∧ Enhanced.rotationSpeed o' = Enhanced.rotationSpeed o.
Proof.
  intros Hdoc w Ho Ha w'.
  pose proof (reachable_Inv h doc t iw ih es Hdoc) as Hw. fold w in Hw.
  pose proof (reachable_laid_out h doc t iw ih es Hdoc) as Hq. fold w in Hq.
  pose proof (reachable_host h doc t iw ih es Hdoc) as Hh. fold w in Hh.
  subst w'. clearbody w.
  destruct (inv_enhanceds w Hw e o Ho)
    as (_ & (s & cam & r & c & oc & n & Hs & Hcam & Hr & Hc & Hoc & Hen & _) & _).
  pose proof (Hq e o Ho) as Hlay.
  exists (enhanced_tick (nextHandle w) (host w) (now w) o), s, r, oc.
  unfold state_after. cbn [run_callback].
  rewrite (enhanced_animate_running w e o r s cam Ho Ha Hr Hs Hcam)
    by (intros _; by rewrite Hoc).
  cbn [snd].
  split; [destruct w; cbn; apply lookup_insert_eq|].
  do 3 (split; [done|]).
  assert (scene_ids s
          = [e + 1; e + 5; e + 8; e + 9; e + 10; e + 11; e + 12; e + 13; e + 14; e + 15; e + 18])
    as Hids.
  { destruct Hlay as (_ & _ & _ & _ & Hids). rewrite Hs in Hids. cbn in Hids.
    injection Hids as ->. repeat f_equal; lia. }
  split; [done|].
  destruct (enhanced_tick_fields (nextHandle w) (host w) (now w) o) as (_ & _ & _ & _ & Hsc').
  split. { rewrite Hsc', Hs. cbn. by rewrite scene_ids_tick. }
  split.
  { intros i Hi.
    destruct (laid_out_tick_object (S e) (host w) (now w) o s i oc Hlay Hs Hoc Hen Hi)
      as (p & Hp & Hp').
    exists p. unfold EnhancedScene.object_props. rewrite Hsc', Hs. cbn.
    rewrite <- Hh. by split. }
  unfold controls_calls. rewrite Hoc.
  split; [by destruct w|]. split; [by destruct w|]. by destruct o.
Qed.

Lemma enhanced_tick_changes_each_object_witness :
  exists o o' s,
    index_html sample_page
    ∧ enhanceds (run [showEnhancedView] sample_load) !! 10 = Some o
    ∧ Enhanced.isAnimating o = true
    ∧ enhanceds (state_after (run_callback (enhanced_animate 10))
                   (run [showEnhancedView] sample_load)) !! 10 = Some o'
    ∧ Enhanced.scene o = Some s
    ∧ scene_ids s = [11; 15; 18; 19; 20; 21; 22; 23; 24; 25; 28]
    ∧ scene_ids <$> Enhanced.scene o' = Some (scene_ids s)
    ∧ Enhanced.animationId o' = Some 4.
Proof.
  unfold sample_load.
  pose proof (fun o => enhanced_tick_changes_each_object sample_host sample_page 0 800 600
                         [showEnhancedView] 10 o sample_page_ok) as H.
  cbv zeta in H.
  set (w := run [showEnhancedView] (loaded sample_host sample_page 0 800 600)) in *.
  destruct (enhanceds w !! 10) as [o|] eqn:Ho; [|by vm_compute in Ho].
  assert (Enhanced.isAnimating o = true) as Ha.
  { vm_compute in Ho. by injection Ho as <-. }
  assert (nextHandle w = 4) as Hn by (by vm_compute).
  clearbody w.
  destruct (H o eq_refl Ha) as (o' & s & r & oc & Ho' & Hs & _ & _ & Hids & Hids' & _ & _ & _
                                & Hid & _).
  rewrite Hn in Hid. cbn [Nat.add] in Hids.
  exists o, o', s. split; [exact sample_page_ok|]. split; [reflexivity|].
  repeat (split; [assumption|]). assumption.
Defined.

(** ** The wireframe checkbox *)

Lemma on_wireframe_eq w this checked o wf :
  enhanceds w !! this = Some o -> Enhanced.wireframe o = Some wf ->
  EnhancedScene.on_wireframe this checked w
  = (Normal tt,
     set_enhanceds (<[this := in_scene wf (THREE.set_visible checked) o]> (enhanceds w)) w).
Proof.
  intros H Hwf. destruct w. cbn in *.
  unfold EnhancedScene.on_wireframe, bind, EnhancedScene.read. cbn. rewrite H, Hwf.
  unfold EnhancedScene.update_object, EnhancedScene.write, modify. cbn.
  by rewrite (alter_known _ _ _ _ H).
Qed.

(** The [change] listener [bindControls] puts on the wireframe checkbox,
    run for the scene that registered it, in any state of the page: it
    sets [visible] of that scene's wireframe overlay to [checked]; the
    scene keeps its objects, every other object its properties, the
    scene object its other fields, and the rest of the page is as it
    was. Where this is the one [change] listener of the element, a
    [change] event does exactly this. *)
Theorem wireframe_checkbox_shows_the_overlay w e o s wf checked :
  enhanceds w !! e = Some o -> Enhanced.scene o = Some s ->
  Enhanced.wireframe o = Some wf ->
  let s' := THREE.update wf (THREE.set_visible checked) s in
  let w' := set_enhanceds (<[e := Enhanced.set_scene (Some s') o]> (enhanceds w)) w in
  run_listener (enhanced_wireframe e) (input_checked checked) w = (Normal tt, w')
  ∧ scene_ids s' = scene_ids s
  ∧ (forall i p, THREE.props_of <$> THREE.find i s = Some p ->
       THREE.props_of <$> THREE.find i s'
       = Some (if Nat.eqb i wf then THREE.set_visible checked p else p))
  ∧ (listeners_for (element "wireframe") "change" w = [enhanced_wireframe e] ->
     step w (change "wireframe" checked) = w').
Proof.
  intros Ho Hs Hwf s' w'.
  assert (run_listener (enhanced_wireframe e) (input_checked checked) w = (Normal tt, w'))
    as Hrun.
  { cbn [run_listener payload_checked]. rewrite (on_wireframe_eq w e checked o wf Ho Hwf).
    unfold w', s', in_scene. by rewrite Hs. }
  split; [exact Hrun|]. split; [apply scene_ids_update|]. split.
  - intros i p Hp. unfold s'. by rewrite props_update, Hp.
  - intros Hl. unfold step. cbn [handle].
    rewrite (dispatch_one _ _ _ (enhanced_wireframe e)) by exact Hl.
    unfold state_after. by rewrite Hrun.
Qed.

Lemma wireframe_checkbox_shows_the_overlay_witness :
  exists o s p,
    enhanceds (run [click (element "enhanced-btn")] sample_load) !! 10 = Some o
    ∧ Enhanced.scene o = Some s
    ∧ Enhanced.wireframe o = Some 18
    ∧ listeners_for (element "wireframe") "change"
        (run [click (element "enhanced-btn")] sample_load) = [enhanced_wireframe 10]
    ∧ THREE.props_of <$> THREE.find 18 s = Some p
    ∧ THREE.visible p = true
    ∧ step (run [click (element "enhanced-btn")] sample_load) (change "wireframe" false)
      = set_enhanceds
          (<[10 := Enhanced.set_scene
                     (Some (THREE.update 18 (THREE.set_visible false) s)) o]>
             (enhanceds (run [click (element "enhanced-btn")] sample_load)))
          (run [click (element "enhanced-btn")] sample_load)
    ∧ THREE.props_of <$> THREE.find 18 (THREE.update 18 (THREE.set_visible false) s)
      = Some (THREE.set_visible false p).
Proof.
  unfold sample_load.
  set (w := run [click (element "enhanced-btn")] (loaded sample_host sample_page 0 800 600)).
  assert (exists o s p,
            enhanceds w !! 10 = Some o ∧ Enhanced.scene o = Some s
            ∧ Enhanced.wireframe o = Some 18
            ∧ THREE.props_of <$> THREE.find 18 s = Some p ∧ THREE.visible p = true)
    as (o & s & p & Ho & Hs & Hwf & Hp & Hv).
  { vm_compute. do 3 eexists. repeat split; reflexivity. }
  assert (listeners_for (element "wireframe") "change" w = [enhanced_wireframe 10]) as Hl
    by (by vm_compute).
  clearbody w.
  destruct (wireframe_checkbox_shows_the_overlay w 10 o s 18 false Ho Hs Hwf)
    as (_ & _ & Hall & Hstep).
  pose proof (Hstep Hl) as Hstep'. pose proof (Hall 18 p Hp) as Hp'. cbn [Nat.eqb] in Hp'.
  exists o, s, p. repeat (split; [assumption|]). assumption.
Defined.

(** ** The earlier versions against the later ones *)

(** The earlier [BasicScene.init] does what the later one does when the
    container is on the page, whatever the state of the scene object;
    without the container it throws at [container.appendChild], having
    made the scene, the camera and the renderer, where the later one
    returns having made nothing. *)
Theorem legacy_basic_init w this containerId :
  (is_Some (document w !! containerId) ->
     Legacy.BasicScene_init this containerId w = BasicScene.init this containerId w)
  ∧ (document w !! containerId = None -> basics w !! this = Some Basic.fresh ->
       BasicScene.init this containerId w = (Normal tt, w)
       ∧ Legacy.BasicScene_init this containerId w
         = (Throw,
            set_nextId (nextId w + 2)
              (set_basics
                 (<[this := Basic.Build_Fields
                      (Some (THREE.Node (nextId w)
                               (THREE.new_object (THREE.Scene (THREE.ColorHex 0x0a0a0f)) None
                                  THREE.NoMaterial None) []))
                      (Some (THREE.Build_PerspectiveCamera 75 (innerWidth w / innerHeight w)
                               0.1 1000 (THREE.vec3 0 0 5)))
                      (Some (THREE.set_shadowMap true THREE.PCFSoftShadowMap
                               (THREE.setSize (innerWidth w) (innerHeight w)
                                  (THREE.new_renderer (nextId w + 1)))))
                      None None false]> (basics w)) w))).
Proof.
  split.
  - intros [c Hc]. destruct w as [? ? iw ih doc ? ? ? nh n ? bs ? ? ?]. cbn in Hc.
    unfold Legacy.BasicScene_init. run. rewrite Hc. run. reflexivity.
  - intros Hc Ho. destruct w as [? ? iw ih doc ? ? ? nh n ? bs ? ? ?]. cbn in Hc, Ho.
    split.
    + run. by rewrite Hc.
    + unfold Legacy.BasicScene_init. run. rewrite Hc. run.
      rewrite (alter_known _ _ _ _ Ho). go. rewrite ?Nat.add_succ_r, ?Nat.add_0_r.
      reflexivity.
Qed.

Lemma legacy_basic_init_witness :
  is_Some (document (state_after BasicScene.constructor
                       (page sample_host sample_page 0 800 600)) !! "basic-scene")
  ∧ Legacy.BasicScene_init 1 "basic-scene"
      (state_after BasicScene.constructor (page sample_host sample_page 0 800 600))
    = BasicScene.init 1 "basic-scene"
        (state_after BasicScene.constructor (page sample_host sample_page 0 800 600))
  ∧ document (state_after BasicScene.constructor (page sample_host sample_page 0 800 600))
    !! "no-such-element" = None
  ∧ basics (state_after BasicScene.constructor (page sample_host sample_page 0 800 600)) !! 1
    = Some Basic.fresh
  ∧ BasicScene.init 1 "no-such-element"
      (state_after BasicScene.constructor (page sample_host sample_page 0 800 600))
    = (Normal tt, state_after BasicScene.constructor (page sample_host sample_page 0 800 600))
  ∧ completion_of (Legacy.BasicScene_init 1 "no-such-element")
      (state_after BasicScene.constructor (page sample_host sample_page 0 800 600))
    = Throw.
Proof.
  set (w := state_after BasicScene.constructor (page sample_host sample_page 0 800 600)).
  assert (is_Some (document w !! "basic-scene")) as H1 by (vm_compute; by eexists).
  assert (document w !! "no-such-element" = None) as H2 by (by vm_compute).
  assert (basics w !! 1 = Some Basic.fresh) as H3 by (by vm_compute).
  clearbody w.
  pose proof (proj1 (legacy_basic_init w 1 "basic-scene") H1) as Ha.
  destruct (proj2 (legacy_basic_init w 1 "no-such-element") H2 H3) as [Hb Hc].
  apply (f_equal fst) in Hc. cbn [fst] in Hc.
  repeat (split; [assumption|]). exact Hc.
Defined.

Lemma legacy_showBasicView_same w :
  Inv w -> Legacy.showBasicView w = App.showBasicView w.
Proof.
  intros Hw.
  destruct (inv_views w Hw) as (bv & ev & Hbv & Hev & _).
  destruct (inv_basic w Hw) as (b & Hb & [bo Hbo]).
  destruct (inv_basics w Hw _ _ Hbo) as (_ & Hok & _).
  destruct Hok as (s & c & cam & r & n & Hs & Hc & Hcam & Hr & Hn & Hp).
  pose proof (inv_enhanced w Hw) as He. clear Hw.
  destruct w as [? ? ? ? doc ? ? ? ? ? ? bs es [ab ae av] ?]. cbn in *. subst.
  unfold Legacy.showBasicView, Legacy.classList_of.
  run_app. rewrite Hev. run_app. rewrite lookup_alter_ne by done. rewrite Hbv. run_app.
  destruct ae as [e|].
  - destruct (He e eq_refl) as [eo Heo].
    erewrite enhanced_pause_eq by side. run_app.
    erewrite basic_resume_eq by side.
    erewrite basic_animate_running by side. run_app. reflexivity.
  - run_app.
    erewrite basic_resume_eq by side.
    erewrite basic_animate_running by side. run_app. reflexivity.
Qed.

Lemma legacy_showEnhancedView_same w :
  Inv w -> Legacy.showEnhancedView w = App.showEnhancedView w.
Proof.
  intros Hw.
  destruct (inv_views w Hw) as (bv & ev & Hbv & Hev & _).
  destruct (inv_basic w Hw) as (b & Hb & [bo Hbo]).
  pose proof (inv_elements w Hw) as Hel.
  destruct (Hel "enhanced-scene" ltac:(listed)) as [c Hc].
  destruct (Application.enhancedScene (app w)) as [e|] eqn:He.
  - destruct (inv_enhanced w Hw _ He) as [eo Heo].
    destruct (inv_enhanceds w Hw _ _ Heo) as (_ & Hok & _).
    destruct Hok as (s & cam & r & cu & oc & n & Hs & Hcam & Hr & Hcu & Hoc & Hen & Hn & Hm).
    clear Hw.
    destruct w as [? ? ? ? doc ? ? ? ? ? ? bs es [ab ae av] ?]. cbn in *. subst.
    unfold Legacy.showEnhancedView, Legacy.classList_of.
    run_app. rewrite Hbv. run_app. rewrite lookup_alter_ne by done. rewrite Hev. run_app.
    erewrite basic_pause_eq by side. run_app.
    erewrite enhanced_resume_eq by side.
    erewrite enhanced_animate_running
      by first [apply lookup_insert_eq | eassumption | reflexivity
               | intros _; cbn; rewrite Hoc; by eexists].
    run_app. reflexivity.
  - clear Hw.
    destruct w as [? ? ? ? doc ? fc ? nh ni ? bs es [ab ae av] ?]. cbn in *. subst.
    unfold Legacy.showEnhancedView, Legacy.classList_of.
    run_app. rewrite Hbv. run_app. rewrite lookup_alter_ne by done. rewrite Hev. run_app.
    unfold EnhancedScene.constructor. run_app. unfold fresh_id. run_app.
    match goal with |- context [EnhancedScene.init ?e ?cid ?W] =>
      destruct (enhanced_init_full W e cid c) as
        (o & w4 & Hinit & He4 & Hlay & _ & _ & Hcam & Hr & Hoc & Han & _ & _ & _ & _ & _ & _ & _ & _
         & _ & Hb4 & Ha4)
    end.
    { cbn. apply lookup_insert_eq. }
    { cbn. by rewrite !lookup_alter_ne. }
    { intros id Hid. cbn. rewrite !lookup_alter_is_Some. apply Hel.
      unfold required_ids.
      repeat (apply elem_of_cons in Hid as [->|Hid]); [listed..|by apply elem_of_nil in Hid]. }
    rewrite Hinit. clear Hinit. destruct w4.
    cbn in He4, Hlay, Hcam, Hr, Hoc, Han, Hb4, Ha4. subst. run_app.
    erewrite basic_pause_eq by side. run_app.
    erewrite enhanced_resume_eq by side.
    destruct Hlay as (Hlc & Hlw & Hll & Hlp & Hls).
    destruct (Enhanced.scene o) as [s|] eqn:Hs; [|discriminate].
    erewrite enhanced_animate_running
      by first [apply lookup_insert_eq | by destruct o
               | intros _; destruct o; cbn in *; subst; by eexists].
    run_app. reflexivity.
Qed.

Lemma legacy_on_resize_same w : Inv w -> Legacy.on_resize w = App.handleWindowResize w.
Proof.
  intros Hw.
  destruct (inv_views w Hw) as (bv & ev & _ & _ & [(_ & _ & Hv)|(_ & _ & Hv)]).
  - destruct (inv_basic w Hw) as (b & Hb & [o Ho]).
    rewrite (handleWindowResize_basic _ _ Hv Hb).
    destruct (inv_basics w Hw _ _ Ho) as (_ & (s & c & cam & r & n & Hs & Hc & Hcam & Hr & _) & _).
    unfold try_catch. erewrite basic_onWindowResize_eq by eauto.
    unfold Legacy.on_resize, bind, gets. rewrite Hv, Hb. cbn.
    by erewrite basic_onWindowResize_eq by eauto.
  - destruct (Application.enhancedScene (app w)) as [e|] eqn:He.
    + destruct (inv_enhanced w Hw _ He) as [o Ho].
      rewrite (handleWindowResize_enhanced _ _ Hv He).
      destruct (inv_enhanceds w Hw _ _ Ho)
        as (_ & (s & cam & r & c & oc & n & Hs & Hcam & Hr & _) & _).
      unfold try_catch. erewrite enhanced_onWindowResize_eq by eauto.
      unfold Legacy.on_resize, bind, gets. rewrite Hv, He. cbn.
      by erewrite enhanced_onWindowResize_eq by eauto.
    + rewrite handleWindowResize_idle by done.
      unfold Legacy.on_resize, bind, gets. rewrite Hv, He. by destruct (Application.basicScene _).
Qed.

(** In every state the page reaches, the earlier [showEnhancedView],
    [showBasicView] and [resize] listener do exactly what the later ones
    do: same completion, same page. On a page without the panel
    ['basic-view'] the earlier [showEnhancedView] throws before it has
    changed anything. *)
Theorem legacy_app_agrees h doc t iw ih es :
  index_html doc ->
  let w := run es (loaded h doc t iw ih) in
  Legacy.showEnhancedView w = App.showEnhancedView w
  ∧ Legacy.showBasicView w = App.showBasicView w
  ∧ Legacy.on_resize w = App.handleWindowResize w
  ∧ forall w0, document w0 !! "basic-view" = None -> Legacy.showEnhancedView w0 = (Throw, w0).
Proof.
  intros Hdoc w. pose proof (reachable_Inv h doc t iw ih es Hdoc) as Hw. fold w in Hw.
  split; [by apply legacy_showEnhancedView_same|].
  split; [by apply legacy_showBasicView_same|].
  split; [by apply legacy_on_resize_same|].
  intros w0 H0. unfold Legacy.showEnhancedView, Legacy.classList_of, bind, getElementById, gets.
  by rewrite H0.
Qed.

Lemma legacy_app_agrees_witness :
  index_html sample_page
  ∧ Legacy.showEnhancedView (run [showEnhancedView] sample_load)
    = App.showEnhancedView (run [showEnhancedView] sample_load)
  ∧ Legacy.showBasicView (run [showEnhancedView] sample_load)
    = App.showBasicView (run [showEnhancedView] sample_load)
  ∧ Legacy.on_resize (run [showEnhancedView] sample_load)
    = App.handleWindowResize (run [showEnhancedView] sample_load)
  ∧ document (page sample_host (sample_page_without "basic-view") 0 800 600) !! "basic-view"
    = None
  ∧ Legacy.showEnhancedView (page sample_host (sample_page_without "basic-view") 0 800 600)
    = (Throw, page sample_host (sample_page_without "basic-view") 0 800 600).
Proof.
  unfold sample_load.
  pose proof (legacy_app_agrees sample_host sample_page 0 800 600 [showEnhancedView]
                sample_page_ok) as H.
  cbv zeta in H.
  set (w := run [showEnhancedView] (loaded sample_host sample_page 0 800 600)) in *.
  clearbody w. destruct H as (Ha & Hb & Hc & Hd).
  set (w0 := page sample_host (sample_page_without "basic-view") 0 800 600).
  assert (document w0 !! "basic-view" = None) as H0 by (by vm_compute).
  clearbody w0. pose proof (Hd w0 H0) as Hd'.
  split; [exact sample_page_ok|]. repeat (split; [assumption|]). assumption.
Defined.

(** ** What [resume] does *)

(** [resume] on an initialised scene of either class, whatever is
    pending: it sets [isAnimating], runs one pass of [animate] at once
    (the scene is advanced and rendered before [resume] returns), books
    exactly one more frame callback without cancelling or looking at
    those pending, and records the new handle in [animationId]. *)
Theorem resume_runs_one_pass w this :
  (forall o s r c,
     basics w !! this = Some o -> Basic.scene o = Some s -> Basic.renderer o = Some r ->
     Basic.camera o = Some c ->
     BasicScene.resume this w
     = (Normal tt,
        set_library (library w ++ [THREE.render (THREE.rid r) (THREE.id_of s)])
          (set_basics
             (<[this := basic_tick (nextHandle w) (Basic.set_isAnimating true o)]> (basics w))
             (set_nextHandle (S (nextHandle w))
                (set_frameCallbacks (frameCallbacks w ++ [(nextHandle w, basic_animate this)])
                   w)))))
  ∧ (forall o s r c oc,
       enhanceds w !! this = Some o -> Enhanced.scene o = Some s ->
       Enhanced.renderer o = Some r -> Enhanced.camera o = Some c ->
       Enhanced.controls o = Some oc ->
       EnhancedScene.resume this w
       = (Normal tt,
          set_library (library w ++ [THREE.controls_update (THREE.cid oc);
                                     THREE.render (THREE.rid r) (THREE.id_of s)])
            (set_enhanceds
               (<[this := enhanced_tick (nextHandle w) (host w) (now w)
                            (Enhanced.set_isAnimating true o)]> (enhanceds w))
               (set_nextHandle (S (nextHandle w))
                  (set_frameCallbacks
                     (frameCallbacks w ++ [(nextHandle w, enhanced_animate this)]) w))))).
Proof.
  split.
  - intros o s r c Ho Hs Hr Hc. rewrite (basic_resume_eq w this o Ho).
    erewrite basic_animate_running
      by first [destruct w; cbn; apply lookup_insert_eq | by destruct o].
    destruct w, o. cbn in *. subst. by rewrite insert_insert_eq.
  - intros o s r c oc Ho Hs Hr Hc Hoc. rewrite (enhanced_resume_eq w this o Ho).
    erewrite (enhanced_animate_running _ this _ r s c)
      by first [destruct w; cbn; apply lookup_insert_eq | by destruct o
               | intros _; destruct o; cbn in *; by rewrite Hoc].
    destruct w, o. cbn in *. subst. by rewrite insert_insert_eq.
Qed.

Lemma resume_runs_one_pass_witness :
  exists bo eo,
    basics sample_enhanced !! 1 = Some bo
    ∧ enhanceds sample_enhanced !! 10 = Some eo
    ∧ completion_of (BasicScene.resume 1) sample_enhanced = Normal tt
    ∧ basics (state_after (BasicScene.resume 1) sample_enhanced) !! 1
      = Some (basic_tick 4 (Basic.set_isAnimating true bo))
    ∧ frameCallbacks (state_after (BasicScene.resume 1) sample_enhanced)
      = frameCallbacks sample_enhanced ++ [(4, basic_animate 1)]
    ∧ completion_of (EnhancedScene.resume 10) sample_enhanced = Normal tt
    ∧ frameCallbacks (state_after (EnhancedScene.resume 10) sample_enhanced)
      = frameCallbacks sample_enhanced ++ [(4, enhanced_animate 10)].
Proof.
  unfold sample_enhanced. set (w := step sample_load showEnhancedView).
  assert (exists bo s r c, basics w !! 1 = Some bo ∧ Basic.scene bo = Some s
                           ∧ Basic.renderer bo = Some r ∧ Basic.camera bo = Some c)
    as (bo & bs & br & bc & Hbo & Hbs & Hbr & Hbc).
  { vm_compute. do 4 eexists. repeat split; reflexivity. }
  assert (exists eo s r c oc,
            enhanceds w !! 10 = Some eo ∧ Enhanced.scene eo = Some s
            ∧ Enhanced.renderer eo = Some r ∧ Enhanced.camera eo = Some c
            ∧ Enhanced.controls eo = Some oc)
    as (eo & s & r & c & oc & Heo & Hs & Hr & Hc & Hoc).
  { vm_compute. do 5 eexists. repeat split; reflexivity. }
  assert (nextHandle w = 4) as Hn by (by vm_compute).
  clearbody w.
  pose proof (proj1 (resume_runs_one_pass w 1) bo bs br bc Hbo Hbs Hbr Hbc) as Hb.
  pose proof (proj2 (resume_runs_one_pass w 10) eo s r c oc Heo Hs Hr Hc Hoc) as He.
  rewrite Hn in Hb, He.
  exists bo, eo. unfold completion_of, state_after. rewrite Hb, He. cbn [fst snd].
  split; [assumption|]. split; [assumption|]. split; [reflexivity|].
  split; [destruct w; cbn; apply lookup_insert_eq|].
  split; [by destruct w|]. split; [reflexivity|]. by destruct w.
Defined.
